(** * Money-muling detection engine: graph analysis of a transfer batch

    A shallow embedding of the analysis engine ([analyzeTransactions] and the
    detectors and classifiers it calls) together with the properties of its
    output.  The last part follows the result into the page: the upload
    handler, the tables and the graph view.

    Modelling conventions
    - A JavaScript number that holds an amount is an IEEE-754 binary64 value:
      [float] (the kernel's primitive floats), so sums, divisions by zero,
      NaN and infinities behave as in the engine.
    - A count or a score is an integer far below 2^53: [nat] or [Z].
    - A [Date] is its [getTime()] value, an integer number of milliseconds:
      [Z] (an invalid date, whose time is NaN, is outside the model).  Valid
      dates are at most 8.64e15 ms from the epoch in absolute value, so the
      additions of the engine on them are exact; a span in hours,
      [(t2 - t1) / 3_600_000], is the exact rational [hoursOf], which the
      engine compares with the integers 24 and 168 only.
    - An account id is a [string]: the bytes of the UTF-8 encoding of the
      JavaScript string (a string with a lone surrogate has no encoding and
      is outside the model).  [id < m] compares UTF-16 code units, so an id
      that begins beyond U+FFFF (a surrogate pair) is below one that begins
      in U+E000..U+FFFF, against the order of the bytes: it is [jsLtb], which
      ranks the bytes accordingly ([unitRank]) and is [String.ltb] on ids
      of bytes below 0xEE, ASCII ids among them ([jsLtb_bytes_below_EE]).
    - A JavaScript [Set] or [Map] iterates in insertion order: a list without
      duplicates, resp. an association list, updated in place.
    - A plain object used as a dictionary ([AdjList]) is a [gmap] for its own
      properties, with the properties inherited from [Object.prototype] kept
      apart ([inheritedKeys]). *)

From Stdlib Require Import ZArith List Bool Lia Floats QArith.
From Stdlib Require Import Strings.String Strings.Ascii DecimalString.
From Stdlib Require Import Sorting.Permutation.
From Stdlib Require DecimalNat Lists.Finite Sorting.Sorted.
From stdpp Require Import gmap strings.

Import ListNotations.
Local Open Scope string_scope.
Local Open Scope list_scope.
Local Open Scope Z_scope.

(** ** Data model (types.ts)

    Rocq has one name space for the fields of all records: where two
    interfaces share a field name, the later record prefixes it
    ([sa_ring_id], [node_suspicion_score], [edge_target], [info_amount]). *)

Record Transaction := mkTransaction {
  transaction_id : string;
  sender_id : string;
  receiver_id : string;
  amount : float;
  timestamp : Z
}.

Record SuspiciousAccount := mkSuspiciousAccount {
  account_id : string;
  suspicion_score : Z;
  detected_patterns : list string;
  (* [ringIds[0]]: [None] stands for [undefined] *)
  sa_ring_id : option string
}.

Record FraudRing := mkFraudRing {
  ring_id : string;
  member_accounts : list string;
  pattern_type : string;
  risk_score : Z
}.

Record GraphNode := mkGraphNode {
  id : string;
  suspicious : bool;
  node_suspicion_score : Z;
  ring_ids : list string;
  in_degree : nat;
  out_degree : nat;
  total_amount_in : float;
  total_amount_out : float
}.

Record GraphEdge := mkGraphEdge {
  source : string;
  edge_target : string;
  edge_amount : float;
  edge_transaction_id : string;
  edge_timestamp : Z
}.

Record GraphData := mkGraphData {
  nodes : list GraphNode;
  edges : list GraphEdge
}.

(** [processing_time_seconds] is a wall-clock measurement and is left out. *)
Record Summary := mkSummary {
  total_accounts_analyzed : nat;
  suspicious_accounts_flagged : nat;
  fraud_rings_detected : nat
}.

Record AnalysisResult := mkAnalysisResult {
  suspicious_accounts : list SuspiciousAccount;
  fraud_rings : list FraudRing;
  summary : Summary;
  graph : GraphData
}.

(** ** Internal structures of the engine *)

Record EdgeInfo := mkEdgeInfo {
  target : string;
  info_amount : float;
  info_timestamp : Z;
  info_transaction_id : string
}.

Record NodeStats := mkNodeStats {
  inDegree : nat;
  outDegree : nat;
  totalAmountIn : float;
  totalAmountOut : float;
  totalTransactions : nat
}.

(** ** JavaScript containers *)

(** [Set<string>], in insertion order. *)
Module JSSet.
Definition t := list string.

Definition has (s : t) (x : string) : bool := existsb (String.eqb x) s.

Definition add (s : t) (x : string) : t := if has s x then s else s ++ [x].

Definition delete (s : t) (x : string) : t :=
  List.filter (fun y => negb (String.eqb x y)) s.

(** [new Set(array)] *)
Definition ofList (l : list string) : t := fold_left add l [].

Definition size (s : t) : nat := length s.
End JSSet.

(** [Map<string, V>], in insertion order. *)
Module JSMap.
Definition t (V : Type) := list (string * V).

Definition get {V} (m : t V) (k : string) : option V :=
  match List.find (fun kv => String.eqb k (fst kv)) m with
  | Some kv => Some (snd kv)
  | None => None
  end.

Definition has {V} (m : t V) (k : string) : bool :=
  existsb (fun kv => String.eqb k (fst kv)) m.

(** [m.set(k, v)]: an existing key keeps its place. *)
Fixpoint set {V} (m : t V) (k : string) (v : V) : t V :=
  match m with
  | [] => [(k, v)]
  | (k', v') :: rest =>
      if String.eqb k k' then (k', v) :: rest else (k', v') :: set rest k v
  end.
End JSMap.

(** [array.sort(cmp)]: the sort is stable; [cmp a b <= 0] keeps [a] before
    [b]. *)
Fixpoint insertBy {A} (cmp : A -> A -> Z) (x : A) (l : list A) : list A :=
  match l with
  | [] => [x]
  | y :: rest => if cmp x y <=? 0 then x :: y :: rest else y :: insertBy cmp x rest
  end.

Definition sortBy {A} (cmp : A -> A -> Z) (l : list A) : list A :=
  fold_right (insertBy cmp) [] l.

(** A span of [ms] milliseconds, in hours. *)
Definition hoursOf (ms : Z) : Q := Qmake ms 3600000.

Definition Qltb (x y : Q) : bool := negb (Qle_bool y x).

(** ** The dictionary objects [adjList] and [reverseAdj] *)

Abbreviation AdjList := (gmap string (list EdgeInfo)).

(** The properties every object literal inherits from [Object.prototype]:
    [obj[k]] is defined (and is no array) for these keys even when [obj] has
    no own property [k]. *)
Definition inheritedKeys : list string :=
  [ "constructor"; "hasOwnProperty"; "isPrototypeOf"; "propertyIsEnumerable";
    "toLocaleString"; "toString"; "valueOf"; "__proto__";
    "__defineGetter__"; "__defineSetter__"; "__lookupGetter__";
    "__lookupSetter__" ].

Definition inherited (k : string) : bool := existsb (String.eqb k) inheritedKeys.

(** [if (!obj[k]) obj[k] = []; obj[k].push(e)].  On a key inherited from the
    prototype [obj[k]] is truthy and has no [push]: a [TypeError], [None]. *)
Definition pushEdge (obj : AdjList) (k : string) (e : EdgeInfo) : option AdjList :=
  match obj !! k with
  | Some l => Some (<[k := l ++ [e]]> obj)
  | None => if inherited k then None else Some (<[k := [e]]> obj)
  end.

(** [obj[k] || []], for the accounts of a batch whose adjacency was built
    (none of them is an inherited key, see [buildAdjacency_not_inherited]). *)
Definition edgesOf (obj : AdjList) (k : string) : list EdgeInfo :=
  default [] (obj !! k).

(** ** GraphBuilder (analyzeTransactions, first part) *)

Record Graph := mkGraph {
  adjList : AdjList;
  reverseAdj : AdjList;
  allNodes : JSSet.t
}.

Definition emptyGraph : Graph := mkGraph ∅ ∅ [].

Definition addTransaction (g : Graph) (tx : Transaction) : option Graph :=
  let allNodes1 := JSSet.add (JSSet.add (allNodes g) (sender_id tx)) (receiver_id tx) in
  match pushEdge (adjList g) (sender_id tx)
          (mkEdgeInfo (receiver_id tx) (amount tx) (timestamp tx) (transaction_id tx)) with
  | None => None
  | Some adj1 =>
      match pushEdge (reverseAdj g) (receiver_id tx)
              (mkEdgeInfo (sender_id tx) (amount tx) (timestamp tx) (transaction_id tx)) with
      | None => None
      | Some rev1 => Some (mkGraph adj1 rev1 allNodes1)
      end
  end.

Fixpoint buildAdjacency (g : Graph) (transactions : list Transaction) : option Graph :=
  match transactions with
  | [] => Some g
  | tx :: rest =>
      match addTransaction g tx with
      | None => None
      | Some g1 => buildAdjacency g1 rest
      end
  end.

(** [list.reduce((s, e) => s + e.amount, 0)] *)
Definition sumAmounts (l : list EdgeInfo) : float :=
  fold_left (fun s e => (s + info_amount e)%float) l 0%float.

Definition statsOf (g : Graph) (k : string) : NodeStats :=
  let out := edgesOf (adjList g) k in
  let inc := edgesOf (reverseAdj g) k in
  mkNodeStats (length inc) (length out) (sumAmounts inc) (sumAmounts out)
    (length inc + length out).

Definition computeStats (g : Graph) : JSMap.t NodeStats :=
  List.map (fun k => (k, statsOf g k)) (allNodes g).

(** ** CycleDetector (findCycles) *)

(** The structures the depth-first search mutates: [path], [inPath] and
    [allCycles]. *)
Record DfsState := mkDfsState {
  path : list string;
  inPath : JSSet.t;
  allCycles : list (list string)
}.

Section Dfs.
Variable adj : AdjList.
Variable start : string.
Variable processed : JSSet.t.
Variables minLen maxLen : nat.

(** One iteration of [for (const edge of adj[current] || [])], given the
    recursive call [rec] for [dfs(edge.target, depth + 1)]. *)
Definition dfsEdge (rec : string -> nat -> DfsState -> DfsState)
    (depth : nat) (st : DfsState) (edge : EdgeInfo) : DfsState :=
  if String.eqb (target edge) start
     && (minLen <=? depth + 1)%nat && (depth + 1 <=? maxLen)%nat
  then mkDfsState (path st) (inPath st) (allCycles st ++ [path st])
  else if negb (JSSet.has (inPath st) (target edge))
          && negb (JSSet.has processed (target edge))
          && (depth + 1 <? maxLen)%nat
  then
    let pushed := mkDfsState (path st ++ [target edge])
                    (JSSet.add (inPath st) (target edge)) (allCycles st) in
    let back := rec (target edge) (depth + 1)%nat pushed in
    mkDfsState (removelast (path back))
      (JSSet.delete (inPath back) (target edge)) (allCycles back)
  else st.

(** The recursion nests at most [maxLen] deep ([depth + 1 < maxLen] guards
    every call); [fuel] bounds the nesting, see [dfs_fuel]. *)
Fixpoint dfs (fuel : nat) (current : string) (depth : nat) (st : DfsState)
    : DfsState :=
  match fuel with
  | O => st
  | S fuel' => fold_left (dfsEdge (dfs fuel') depth) (edgesOf adj current) st
  end.
End Dfs.

(** The rank of a byte of a UTF-8 encoding in the order of the UTF-16 code
    units.  Two encodings first differ inside one character or at the lead
    bytes of two characters.  Bytes below 0xEE keep their order: ASCII,
    continuation bytes, and the lead bytes of U+0080..U+D7FF.  The lead bytes
    0xEE and 0xEF (U+E000..U+FFFF, code units 0xE000..0xFFFF) come after the
    lead bytes from 0xF0 on (beyond U+FFFF, a pair whose first code unit is
    in 0xD800..0xDBFF), which come after the rest. *)
Definition unitRank (b : ascii) : N :=
  let n := N_of_ascii b in
  if (n <? 238)%N then n else if (n <? 240)%N then (n + 16)%N else (n - 2)%N.

(** [a < b] on two strings: the first code unit that differs decides, and a
    proper prefix is below. *)
Fixpoint jsLtb (a b : string) : bool :=
  match a, b with
  | EmptyString, EmptyString => false
  | EmptyString, String _ _ => true
  | String _ _, EmptyString => false
  | String x a', String y b' =>
      if Ascii.eqb x y then jsLtb a' b' else (unitRank x <? unitRank y)%N
  end.

(** [cycle.reduce((m, id) => (id < m ? id : m), cycle[0])]; on the empty
    array the result is [undefined], which no member equals: the empty string here, with
    the same effect on [indexOf]. *)
Definition minMember (cycle : list string) : string :=
  fold_left (fun m x => if jsLtb x m then x else m) cycle (hd EmptyString cycle).

(** [cycle.indexOf(x)], [None] for -1. *)
Fixpoint indexOf (x : string) (l : list string) : option nat :=
  match l with
  | [] => None
  | y :: rest =>
      if String.eqb x y then Some O
      else match indexOf x rest with
           | Some i => Some (S i)
           | None => None
           end
  end.

(** [[...cycle.slice(idx), ...cycle.slice(0, idx)]]; a negative index counts
    from the end. *)
Definition normalize (cycle : list string) : list string :=
  let idx := match indexOf (minMember cycle) cycle with
             | Some i => i
             | None => (length cycle - 1)%nat
             end in
  skipn idx cycle ++ firstn idx cycle.

(** [normalized.join('|')] *)
Definition cycleKey (normalized : list string) : string :=
  String.concat "|" normalized.

Definition dedupeStep (acc : JSSet.t * list (list string)) (cycle : list string)
    : JSSet.t * list (list string) :=
  let '(seen, unique) := acc in
  let normalized := normalize cycle in
  let key := cycleKey normalized in
  if JSSet.has seen key then (seen, unique)
  else (JSSet.add seen key, unique ++ [normalized]).

Definition dedupeCycles (cycles : list (list string)) : list (list string) :=
  snd (fold_left dedupeStep cycles ([], [])).

Definition searchFrom (adj : AdjList) (minLen maxLen : nat)
    (acc : list (list string) * JSSet.t) (start : string)
    : list (list string) * JSSet.t :=
  let '(found, processed) := acc in
  let st := dfs adj start processed minLen maxLen (S maxLen) start 0
              (mkDfsState [start] (JSSet.ofList [start]) found) in
  (allCycles st, JSSet.add processed start).

(** The cycles found before deduplication. *)
Definition discoveredCycles (adj : AdjList) (nodes : JSSet.t)
    (minLen maxLen : nat) : list (list string) :=
  fst (fold_left (searchFrom adj minLen maxLen) nodes ([], [])).

Definition findCycles (adj : AdjList) (nodes : JSSet.t) (minLen maxLen : nat)
    : list (list string) :=
  dedupeCycles (discoveredCycles adj nodes minLen maxLen).

(** ** SmurfingDetector (detectSmurfing) *)

Record PatternHit := mkPatternHit {
  type : string;
  accounts : list string
}.

Definition WINDOW_MS : Z := 72 * 3600000.

(** [if (!m.has(k)) m.set(k, []); m.get(k).push(tx)], over the batch. *)
Definition groupBy (key : Transaction -> string) (transactions : list Transaction)
    : JSMap.t (list Transaction) :=
  fold_left
    (fun m tx => JSMap.set m (key tx) (default [] (JSMap.get m (key tx)) ++ [tx]))
    transactions [].

Definition byTimestamp (a b : Transaction) : Z := timestamp a - timestamp b.

Definition windowTxs (sorted : list Transaction) (anchor : Transaction)
    : list Transaction :=
  let windowEnd := timestamp anchor + WINDOW_MS in
  List.filter
    (fun t => (timestamp anchor <=? timestamp t) && (timestamp t <=? windowEnd))
    sorted.

(** [for (let i = 0; i < sorted.length; i++) { ... break; }]: the distinct
    counterparties of the first window that reaches the threshold. *)
Fixpoint firstWindow (other : Transaction -> string)
    (sorted anchors : list Transaction) : option JSSet.t :=
  match anchors with
  | [] => None
  | anchor :: rest =>
      let unique := JSSet.ofList (List.map other (windowTxs sorted anchor)) in
      if (10 <=? JSSet.size unique)%nat then Some unique
      else firstWindow other sorted rest
  end.

Definition fanStep (tag : string) (other : Transaction -> string)
    (patterns : list PatternHit) (group : string * list Transaction)
    : list PatternHit :=
  let sorted := sortBy byTimestamp (snd group) in
  match firstWindow other sorted sorted with
  | Some unique => patterns ++ [mkPatternHit tag (fst group :: unique)]
  | None => patterns
  end.

Definition detectSmurfing (transactions : list Transaction)
    (nodeStats : JSMap.t NodeStats) : list PatternHit :=
  let byReceiver := groupBy receiver_id transactions in
  let patterns := fold_left (fanStep "fan_in" sender_id) byReceiver [] in
  let bySender := groupBy sender_id transactions in
  fold_left (fanStep "fan_out" receiver_id) bySender patterns.

(** ** ShellNetworkDetector (detectShellNetworks) *)

Definition lowActivity (nodeStats : JSMap.t NodeStats) (k : string) : bool :=
  match JSMap.get nodeStats k with
  | Some s => (totalTransactions s <=? 3)%nat
  | None => false
  end.

(** [while (chain.length < 8) { ... }]; every iteration that does not break
    makes the chain one longer, so [fuel] = 8 iterations are enough. *)
Fixpoint extendChain (fuel : nat) (adj : AdjList) (nodeStats : JSMap.t NodeStats)
    (chain : list string) (visited : JSSet.t) (current : string) : list string :=
  match fuel with
  | O => chain
  | S fuel' =>
      if (length chain <? 8)%nat then
        let nextEdges :=
          List.filter (fun e => negb (JSSet.has visited (target e)))
            (edgesOf adj current) in
        match List.find (fun e => lowActivity nodeStats (target e)) nextEdges with
        | Some nextShell =>
            extendChain fuel' adj nodeStats (chain ++ [target nextShell])
              (JSSet.add visited (target nextShell)) (target nextShell)
        | None =>
            match nextEdges with
            | e :: _ => chain ++ [target e]
            | [] => chain
            end
        end
      else chain
  end.

(** [chain.join('→')] *)
Definition chainKey (chain : list string) : string := String.concat "→" chain.

Definition shellEdge (adj : AdjList) (nodeStats : JSMap.t NodeStats)
    (start : string) (acc : JSSet.t * list (list string)) (edge : EdgeInfo)
    : JSSet.t * list (list string) :=
  let '(seen, chains) := acc in
  match JSMap.get nodeStats (target edge) with
  | None => acc
  | Some firstStats =>
      if (3 <? totalTransactions firstStats)%nat then acc
      else
        let chain0 := [start; target edge] in
        let chain := extendChain 8 adj nodeStats chain0 (JSSet.ofList chain0)
                       (target edge) in
        if (4 <=? length chain)%nat then
          let key := chainKey chain in
          if JSSet.has seen key then acc
          else (JSSet.add seen key, chains ++ [chain])
        else acc
  end.

Definition shellStart (adj : AdjList) (nodeStats : JSMap.t NodeStats)
    (acc : JSSet.t * list (list string)) (start : string)
    : JSSet.t * list (list string) :=
  match JSMap.get nodeStats start with
  | None => acc
  | Some startStats =>
      if (totalTransactions startStats <=? 3)%nat then acc
      else fold_left (shellEdge adj nodeStats start) (edgesOf adj start) acc
  end.

Definition detectShellNetworks (adj : AdjList) (nodeStats : JSMap.t NodeStats)
    (allNodes : JSSet.t) : list (list string) :=
  snd (fold_left (shellStart adj nodeStats) allNodes ([], [])).

(** ** FalsePositiveClassifier (detectMerchants, detectPayroll) *)

(** [(Math.max(...ts) - Math.min(...ts)) / 3_600_000 > 168]; with no
    timestamp the difference is -Infinity and the test fails. *)
Definition spansOverWeek (ts : list Z) : bool :=
  match ts with
  | [] => false
  | t :: rest =>
      Qltb (inject_Z 168) (hoursOf (fold_left Z.max rest t - fold_left Z.min rest t))
  end.

Definition isMerchant (transactions : list Transaction) (k : string)
    (stats : NodeStats) : bool :=
  if (inDegree stats <? 20)%nat then false
  else
    let incoming := List.filter (fun t => String.eqb (receiver_id t) k) transactions in
    let uniqueSenders := JSSet.ofList (List.map sender_id incoming) in
    if (15 <=? JSSet.size uniqueSenders)%nat
    then spansOverWeek (List.map timestamp incoming)
    else false.

Definition detectMerchants (nodeStats : JSMap.t NodeStats)
    (transactions : list Transaction) : JSSet.t :=
  fold_left
    (fun merchants kv =>
       if isMerchant transactions (fst kv) (snd kv)
       then JSSet.add merchants (fst kv) else merchants)
    nodeStats [].

(** [amounts.length] as a number. *)
Definition floatOfNat (n : nat) : float :=
  PrimFloat.of_uint63 (Uint63.of_Z (Z.of_nat n)).

Definition outgoingAmounts (transactions : list Transaction) (k : string)
    : list float :=
  List.map amount
    (List.filter (fun t => String.eqb (sender_id t) k) transactions).

(** [amounts.reduce((a, b) => a + b, 0) / amounts.length] *)
Definition meanOf (amounts : list float) : float :=
  (fold_left PrimFloat.add amounts 0 / floatOfNat (length amounts))%float.

(** [amounts.reduce((s, a) => s + (a - mean) ** 2, 0) / amounts.length];
    the square is the rounded product. *)
Definition varianceOf (amounts : list float) (mean : float) : float :=
  (fold_left (fun s a => s + (a - mean) * (a - mean)) amounts 0
   / floatOfNat (length amounts))%float.

(** The literal [0.15]: the nearest binary64 value. *)
Definition cvThreshold : float := 0x1.3333333333333p-3%float.

(** [Math.sqrt(variance) / mean < 0.15] *)
Definition uniformPayout (amounts : list float) : bool :=
  let mean := meanOf amounts in
  let variance := varianceOf amounts mean in
  (PrimFloat.sqrt variance / mean <? cvThreshold)%float.

Definition isPayroll (transactions : list Transaction) (k : string)
    (stats : NodeStats) : bool :=
  if (outDegree stats <? 10)%nat then false
  else uniformPayout (outgoingAmounts transactions k).

Definition detectPayroll (nodeStats : JSMap.t NodeStats)
    (transactions : list Transaction) : JSSet.t :=
  fold_left
    (fun payroll kv =>
       if isPayroll transactions (fst kv) (snd kv)
       then JSSet.add payroll (fst kv) else payroll)
    nodeStats [].

(** The divisors with which [detectPayroll] evaluates the ratio
    [Math.sqrt(variance) / mean]: the mean of every account that passes the
    out-degree test, in the order of the loop. *)
Definition payrollDivisors (nodeStats : JSMap.t NodeStats)
    (transactions : list Transaction) : list float :=
  List.map (fun kv => meanOf (outgoingAmounts transactions (fst kv)))
    (List.filter (fun kv => negb (outDegree (snd kv) <? 10)%nat) nodeStats).

(** ** RingAggregator (addRing) *)

(** [String(n)] *)
Definition stringOfNat (n : nat) : string :=
  NilZero.string_of_uint (Nat.to_uint n).

Fixpoint zeros (n : nat) : string :=
  match n with
  | O => EmptyString
  | S n' => String "0" (zeros n')
  end.

(** [s.padStart(3, '0')] *)
Definition padStart3 (s : string) : string :=
  String.append (zeros (3 - String.length s)) s.

Definition ringIdOf (counter : nat) : string :=
  String.append "RING_" (padStart3 (stringOfNat counter)).

(** The variables [addRing] closes over and updates. *)
Record RingState := mkRingState {
  ringCounter : nat;
  fraudRings : list FraudRing;
  acctRings : JSMap.t (list string);
  acctPatterns : JSMap.t JSSet.t
}.

Definition emptyRings : RingState := mkRingState 0 [] [] [].

(** The body of [for (const id of filtered)]. *)
Definition recordMember (ringId patternTag : string)
    (acc : JSMap.t (list string) * JSMap.t JSSet.t) (k : string)
    : JSMap.t (list string) * JSMap.t JSSet.t :=
  let '(rings, patterns) := acc in
  (JSMap.set rings k (default [] (JSMap.get rings k) ++ [ringId]),
   JSMap.set patterns k (JSSet.add (default [] (JSMap.get patterns k)) patternTag)).

(** [members.filter(id => !legit.has(id))] *)
Definition survivors (legit : JSSet.t) (members : list string) : list string :=
  List.filter (fun k => negb (JSSet.has legit k)) members.

Definition addRing (legit : JSSet.t) (st : RingState) (members : list string)
    (patternType : string) (baseScore : Z) (patternTag : string) : RingState :=
  let filtered := survivors legit members in
  if (length filtered <? 2)%nat then st
  else
    let counter := S (ringCounter st) in
    let ringId := ringIdOf counter in
    let ring := mkFraudRing ringId filtered patternType
                  (Z.min 100 (baseScore + Z.of_nat (length filtered) * 2)) in
    let '(rings, patterns) :=
      fold_left (recordMember ringId patternTag) filtered
        (acctRings st, acctPatterns st) in
    mkRingState counter (fraudRings st ++ [ring]) rings patterns.

Definition cycleBase (cycle : list string) : Z := 75 + Z.of_nat (length cycle) * 3.

Definition cycleTag (cycle : list string) : string :=
  String.append "cycle_length_" (stringOfNat (length cycle)).

Definition addCycle (legit : JSSet.t) (st : RingState) (cycle : list string) :=
  addRing legit st cycle "cycle" (cycleBase cycle) (cycleTag cycle).

Definition addSmurf (legit : JSSet.t) (st : RingState) (p : PatternHit) :=
  addRing legit st (accounts p) (type p) 65 (type p).

Definition addShell (legit : JSSet.t) (st : RingState) (chain : list string) :=
  addRing legit st chain "shell_network" 70 "shell_network".

Definition buildRings (legit : JSSet.t) (cycles : list (list string))
    (smurfing : list PatternHit) (shells : list (list string)) : RingState :=
  fold_left (addShell legit) shells
    (fold_left (addSmurf legit) smurfing
       (fold_left (addCycle legit) cycles emptyRings)).

(** ** AccountScorer *)

(** The score of the pattern tags and of the number of rings. *)
Definition patternScore (patterns : JSSet.t) (ringIds : list string) : Z :=
  (if existsb (String.prefix "cycle_") patterns then 35 else 0)
  + (if JSSet.has patterns "fan_in" then 25 else 0)
  + (if JSSet.has patterns "fan_out" then 25 else 0)
  + (if JSSet.has patterns "shell_network" then 20 else 0)
  + (if (1 <? length ringIds)%nat then 15 else 0).

Definition touching (transactions : list Transaction) (k : string)
    : list Transaction :=
  List.filter
    (fun t => String.eqb (sender_id t) k || String.eqb (receiver_id t) k)
    transactions.

Definition byNumber (a b : Z) : Z := a - b.

(** [if (txs.length > 1) { ... if (spanH < 24 && txs.length > 5) ... }] *)
Definition highVelocity (transactions : list Transaction) (k : string) : bool :=
  let txs := touching transactions k in
  if (1 <? length txs)%nat then
    let sorted := sortBy byNumber (List.map timestamp txs) in
    let spanH := hoursOf (List.last sorted 0 - hd 0 sorted) in
    Qltb spanH (inject_Z 24) && (5 <? length txs)%nat
  else false.

(** One iteration of [for (const [id, ringIds] of acctRings)], for an account
    that is not in [legit].  [score] is an integer, which
    [parseFloat(score.toFixed(1))] returns unchanged. *)
Definition scoreAccount (transactions : list Transaction)
    (acctPatterns : JSMap.t JSSet.t) (k : string) (ringIds : list string)
    : SuspiciousAccount :=
  let patterns := default [] (JSMap.get acctPatterns k) in
  let score := patternScore patterns ringIds in
  let fast := highVelocity transactions k in
  let score := if fast then score + 15 else score in
  let patterns := if fast then JSSet.add patterns "high_velocity" else patterns in
  mkSuspiciousAccount k (Z.min 100 score) patterns (head ringIds).

Definition byScoreDesc (a b : SuspiciousAccount) : Z :=
  suspicion_score b - suspicion_score a.

Definition scoreAccounts (transactions : list Transaction) (legit : JSSet.t)
    (st : RingState) : list SuspiciousAccount :=
  sortBy byScoreDesc
    (fold_left
       (fun out kv =>
          if JSSet.has legit (fst kv) then out
          else out ++ [scoreAccount transactions (acctPatterns st) (fst kv) (snd kv)])
       (acctRings st) []).

(** ** ResultAssembler *)

Definition graphNode (stats : JSMap.t NodeStats) (legit : JSSet.t)
    (st : RingState) (suspiciousAccounts : list SuspiciousAccount) (k : string)
    : option GraphNode :=
  match JSMap.get stats k with
  | None => None
  | Some s =>
      let sa := List.find (fun a => String.eqb (account_id a) k) suspiciousAccounts in
      Some (mkGraphNode k
              (JSMap.has (acctRings st) k && negb (JSSet.has legit k))
              (match sa with Some a => suspicion_score a | None => 0 end)
              (default [] (JSMap.get (acctRings st) k))
              (inDegree s) (outDegree s) (totalAmountIn s) (totalAmountOut s))
  end.

Definition graphEdge (t : Transaction) : GraphEdge :=
  mkGraphEdge (sender_id t) (receiver_id t) (amount t) (transaction_id t)
    (timestamp t).

(** ** analyzeTransactions *)

(** [new Set([...merchants, ...payroll])] *)
Definition legitAccounts (nodeStats : JSMap.t NodeStats)
    (transactions : list Transaction) : JSSet.t :=
  let merchants := detectMerchants nodeStats transactions in
  let payroll := detectPayroll nodeStats transactions in
  JSSet.ofList (merchants ++ payroll).

(** The detectors, the classifiers and the three [addRing] loops. *)
Definition aggregate (transactions : list Transaction) (g : Graph) : RingState :=
  let nodeStats := computeStats g in
  let cycles := findCycles (adjList g) (allNodes g) 3 5 in
  let smurfing := detectSmurfing transactions nodeStats in
  let shells := detectShellNetworks (adjList g) nodeStats (allNodes g) in
  let legit := legitAccounts nodeStats transactions in
  buildRings legit cycles smurfing shells.

(** The analysis of a batch whose adjacency lists were built. *)
Definition analyzeGraph (transactions : list Transaction) (g : Graph)
    : option AnalysisResult :=
  let nodeStats := computeStats g in
  let legit := legitAccounts nodeStats transactions in
  let st := aggregate transactions g in
  let suspiciousAccounts := scoreAccounts transactions legit st in
  match mapM (graphNode nodeStats legit st suspiciousAccounts) (allNodes g) with
  | None => None
  | Some graphNodes =>
      Some (mkAnalysisResult suspiciousAccounts (fraudRings st)
              (mkSummary (JSSet.size (allNodes g)) (length suspiciousAccounts)
                 (length (fraudRings st)))
              (mkGraphData graphNodes (List.map graphEdge transactions)))
  end.

(** [None]: the call throws a [TypeError]. *)
Definition analyzeTransactions (transactions : list Transaction)
    : option AnalysisResult :=
  match buildAdjacency emptyGraph transactions with
  | None => None
  | Some g => analyzeGraph transactions g
  end.

(** ** Notions used in the statements and the proofs *)

(** The adjacency lists without the edges from an account to itself. *)
Definition dropSelfLoops (adj : AdjList) : AdjList :=
  map_imap
    (fun k l => Some (List.filter (fun e => negb (String.eqb (target e) k)) l))
    adj.

(** [t] falls in the 72-hour window that starts at [anchor]. *)
Definition inWindow (anchor t : Transaction) : Prop :=
  timestamp anchor <= timestamp t <= timestamp anchor + WINDOW_MS.

(** [ss] lists, once each, the counterparties (as [other] gives them) of the
    transfers of the batch that [key] attributes to account [k] and that fall
    in the window anchored at [anchor]. *)
Definition windowCounterparties (key other : Transaction -> string)
    (transactions : list Transaction) (k : string) (anchor : Transaction)
    (ss : list string) : Prop :=
  List.NoDup ss
  /\ forall s, In s ss <->
       exists t, In t transactions /\ key t = k /\ other t = s
                 /\ inWindow anchor t.

(** The hits contain a pattern of type [tag] whose first account is [k]. *)
Definition hasHit (tag k : string) (hits : list PatternHit) : Prop :=
  exists hit, In hit hits /\ type hit = tag /\ head (accounts hit) = Some k.

(** [c2] is [c1] started at another of its accounts. *)
Definition isRotation (c1 c2 : list string) : Prop :=
  exists l1 l2, c1 = l1 ++ l2 /\ c2 = l2 ++ l1.


(** The id contains the separator of [cycleKey]. *)
Fixpoint hasSeparator (s : string) : bool :=
  match s with
  | EmptyString => false
  | String c rest => Ascii.eqb c "|" || hasSeparator rest
  end.

(** The risk score of a ring, as line 73 computes it from the base score of
    the pattern and the number of surviving members. *)
Definition riskOf (baseScore : Z) (r : FraudRing) : Z :=
  Z.min 100 (baseScore + 2 * Z.of_nat (length (member_accounts r))).

(** A recorded cycle within the length bounds and without repeated account. *)
Definition boundedCycle (minLen maxLen : nat) (c : list string) : Prop :=
  (minLen <= length c <= maxLen)%nat /\ List.NoDup c.

(** The account has at most 3 transactions in total. *)
Definition low (nodeStats : JSMap.t NodeStats) (k : string) : Prop :=
  lowActivity nodeStats k = true.

(** The shape of an emitted chain. *)
Definition shellChain (nodeStats : JSMap.t NodeStats) (chain : list string) : Prop :=
  (4 <= length chain <= 8)%nat
  /\ (exists s, JSMap.get nodeStats (hd EmptyString chain) = Some s
                /\ (3 < totalTransactions s)%nat)
  /\ Forall (low nodeStats) (removelast (tl chain)).

(** The invariant of the two loops of [detectShellNetworks]. *)
Definition shellAcc (nodeStats : JSMap.t NodeStats)
    (acc : JSSet.t * list (list string)) : Prop :=
  Forall (shellChain nodeStats) (snd acc)
  /\ List.NoDup (snd acc)
  /\ forall c, In c (snd acc) -> In (chainKey c) (fst acc).

(** The transfers that [key] attributes to account [k], in batch order. *)
Definition keyed (key : Transaction -> string) (k : string)
    (transactions : list Transaction) : list Transaction :=
  List.filter (fun t => String.eqb (key t) k) transactions.

(** [m] groups the batch by [key]. *)
Definition grouped (key : Transaction -> string)
    (transactions : list Transaction) (m : JSMap.t (list Transaction)) : Prop :=
  List.NoDup (List.map fst m)
  /\ (forall k l, In (k, l) m -> l = keyed key k transactions)
  /\ (forall t, In t transactions -> exists l, In (key t, l) m).

(** The set that line 201 (resp. 220) builds for one anchor. *)
Definition uniqueOf (other : Transaction -> string) (sorted : list Transaction)
    (anchor : Transaction) : JSSet.t :=
  JSSet.ofList (List.map other (windowTxs sorted anchor)).

(** [a] is not above [b] in the order of [<]. *)
Definition notAbove (a b : string) : Prop := jsLtb b a = false.

(** What [cycleKey] appends after the first id. *)
Definition separatorTail (l : list string) : string :=
  match l with
  | [] => EmptyString
  | _ :: _ => String "|" (cycleKey l)
  end.

(** The sign bit of the float is clear, or it is NaN. *)
Definition signClear (x : spec_float) : Prop :=
  match x with
  | S754_zero s => s = false
  | S754_infinity s => s = false
  | S754_finite s _ _ => s = false
  | S754_nan => True
  end.

(** [0 <= x] holds of the float. *)
Definition nonNegative (x : spec_float) : Prop :=
  match x with
  | S754_zero _ => True
  | S754_infinity s => s = false
  | S754_finite s _ _ => s = false
  | S754_nan => False
  end.

(** No own property is ever created under an inherited name. *)
Definition ownKeysFresh (obj : AdjList) : Prop :=
  forall k, inherited k = true -> obj !! k = None.

(** The ids of the rings, each as often as the ring lists account [k]. *)
Definition ringIdsOf (rings : list FraudRing) (k : string) : list string :=
  flat_map
    (fun r => repeat (ring_id r) (count_occ String.string_dec (member_accounts r) k))
    rings.

(** What [acctRings] records about the rings made so far. *)
Definition ringsRecorded (legit : JSSet.t) (st : RingState) : Prop :=
  (forall k, default [] (JSMap.get (acctRings st) k) = ringIdsOf (fraudRings st) k)
  /\ (forall k, JSMap.has (acctRings st) k = true <->
                exists r, In r (fraudRings st) /\ In k (member_accounts r))
  /\ (forall r k, In r (fraudRings st) -> In k (member_accounts r) ->
        JSSet.has legit k = false).

(** [{ target: tx.receiver_id, ... }] of line 34 and its mirror of line 36. *)
Definition outEdge (t : Transaction) : EdgeInfo :=
  mkEdgeInfo (receiver_id t) (amount t) (timestamp t) (transaction_id t).

Definition inEdge (t : Transaction) : EdgeInfo :=
  mkEdgeInfo (sender_id t) (amount t) (timestamp t) (transaction_id t).

(** The account ids of the batch, in the order [allNodes.add] meets them. *)
Definition accountIds (transactions : list Transaction) : list string :=
  flat_map (fun t => [sender_id t; receiver_id t]) transactions.

(** [list.reduce((s, e) => s + e.amount, 0)] of lines 46 and 47, over the
    transfers behind the edges. *)
Definition transferred (l : list Transaction) : float :=
  fold_left (fun s t => (s + amount t)%float) l 0%float.

(** Reads the counter back from the digits of a ring id. *)
Definition counterOf (ringId : string) : option nat :=
  if String.prefix "RING_" ringId
  then option_map Nat.of_uint
         (NilEmpty.uint_of_string
            (String.substring 5 (String.length ringId - 5) ringId))
  else None.

(** The pattern type that a tag of [acctPatterns] stands for: the tags of
    the cycles carry the length of the cycle. *)
Definition kindOf (tag : string) : string :=
  if String.prefix "cycle_" tag then "cycle" else tag.

(** The pattern types that [addRing] is called with. *)
Definition ringKinds : list string :=
  ["cycle"; "fan_in"; "fan_out"; "shell_network"].

(** The accounts that the rings list, in the order in which they joined
    their first ring. *)
Definition ringMembers (rings : list FraudRing) : list string :=
  JSSet.ofList (flat_map member_accounts rings).

(** The tags that [addRing] is called with. *)
Definition knownTag (tag : string) : Prop :=
  String.prefix "cycle_" tag = true
  \/ In tag ["fan_in"; "fan_out"; "shell_network"].

(** What [acctPatterns] and the keys of [acctRings] record about the rings
    made so far. *)
Definition patternsRecorded (st : RingState) : Prop :=
  List.map fst (acctRings st) = ringMembers (fraudRings st)
  /\ (forall k tag, In tag (default [] (JSMap.get (acctPatterns st) k)) ->
        knownTag tag
        /\ exists r, In r (fraudRings st) /\ In k (member_accounts r)
                     /\ pattern_type r = kindOf tag)
  /\ (forall r k, In r (fraudRings st) -> In k (member_accounts r) ->
        exists tag, In tag (default [] (JSMap.get (acctPatterns st) k))
                    /\ kindOf tag = pattern_type r)
  /\ (forall r, In r (fraudRings st) -> In (pattern_type r) ringKinds)
  /\ (forall k, List.NoDup (default [] (JSMap.get (acctPatterns st) k))).

(** [x] comes before [y] in [l]. *)
Definition before {A} (x y : A) (l : list A) : Prop :=
  exists l1 l2, l = l1 ++ x :: l2 /\ In y l2.

(** The first ring that lists account [k]. *)
Definition firstRingOf (rings : list FraudRing) (k : string) : option FraudRing :=
  List.find (fun r => JSSet.has (member_accounts r) k) rings.

(** Some edge of the adjacency lists goes from [x] to [y]. *)
Definition linked (adj : AdjList) (x y : string) : bool :=
  existsb (fun e => String.eqb (target e) y) (edgesOf adj x).

(** Some transfer of the batch goes from [x] to [y]. *)
Definition pays (transactions : list Transaction) (x y : string) : bool :=
  existsb
    (fun t => String.eqb (sender_id t) x && String.eqb (receiver_id t) y)
    transactions.

(** Every account of [l] is linked to the next one. *)
Fixpoint isPath (link : string -> string -> bool) (l : list string) : bool :=
  match l with
  | [] => true
  | x :: rest =>
      match rest with
      | [] => true
      | y :: _ => link x y && isPath link rest
      end
  end.

(** [c] is a circle: a path whose last account is linked to the first. *)
Definition isCircle (link : string -> string -> bool) (c : list string) : bool :=
  match c with
  | [] => false
  | x :: _ => isPath link (c ++ [x])
  end.

(** [hit] lists the hub [k] and then the distinct counterparties of a
    window of [k] that holds at least 10 of them; no transfer of [k] before
    the anchor of that window anchors such a window. *)
Definition reportsWindow (key other : Transaction -> string)
    (transactions : list Transaction) (hit : PatternHit) : Prop :=
  exists k ss anchor,
    accounts hit = k :: ss /\ (10 <= length ss)%nat
    /\ In anchor transactions /\ key anchor = k
    /\ windowCounterparties key other transactions k anchor ss
    /\ forall a ss', In a transactions -> key a = k ->
         timestamp a < timestamp anchor ->
         windowCounterparties key other transactions k a ss' ->
         (length ss' <= 9)%nat.

(** The number of distinct ids of a list: the size of [new Set(list)]. *)
Definition countDistinct (l : list string) : nat := JSSet.size (JSSet.ofList l).

(** The patterns in the order in which [analyzeTransactions] hands them to
    [addRing], each with its pattern type and its accounts. *)
Definition detectedPatterns (cycles : list (list string))
    (smurfing : list PatternHit) (shells : list (list string))
    : list (string * list string) :=
  List.map (fun c => ("cycle", c)) cycles
  ++ List.map (fun p => (type p, accounts p)) smurfing
  ++ List.map (fun c => ("shell_network", c)) shells.

(** The pattern type and the members of the rings. *)
Definition ringShapes (rings : list FraudRing) : list (string * list string) :=
  List.map (fun r => (pattern_type r, member_accounts r)) rings.

(** The points that [patternScore] gives for a tag of the pattern type. *)
Definition pointsFor (patternType : string) : Z :=
  if String.eqb patternType "cycle" then 35
  else if String.eqb patternType "shell_network" then 20
  else 25.

(** The result has a ring of type [patternType] with the members
    [members], and each member is a suspicious account that carries a tag
    of the pattern type (the type itself, or a tag that starts with
    [cycle_] for a cycle) and has at least the score of that tag. *)
Definition flaggedRing (res : AnalysisResult) (patternType : string)
    (members : list string) : Prop :=
  (exists r, In r (fraud_rings res) /\ pattern_type r = patternType
             /\ member_accounts r = members)
  /\ forall k, In k members ->
       exists sa, In sa (suspicious_accounts res) /\ account_id sa = k
                  /\ pointsFor patternType <= suspicion_score sa
                  /\ exists tag, In tag (detected_patterns sa)
                                 /\ knownTag tag /\ kindOf tag = patternType.

(** ** The page (Index.tsx) *)

(** What the [catch] of [handleUpload] can receive once the file is
    parsed: the [Error] of line 26 or the [TypeError] of the engine. *)
Inductive Thrown :=
  | NoValidTransactions
  | EngineTypeError.

(** The toast at the end of [handleUpload]; [AnalysisComplete n] reports
    [n] processed transactions. *)
Inductive Toast :=
  | AnalysisComplete (processed : nat)
  | ErrorToast (err : Thrown).

(** The state that [handleUpload] writes. *)
Record PageState := mkPageState {
  page_result : option AnalysisResult;
  isProcessing : bool;
  selectedRingId : option string
}.

(** [handleUpload], from the point where [parseCSV] has resolved to
    [transactions]: lines 21 to 23 have reset the state, whatever it was. *)
Definition handleUpload (transactions : list Transaction) (before : PageState)
    : PageState * Toast :=
  let started := mkPageState None true None in
  if (length transactions =? 0)%nat
  then (mkPageState (page_result started) false (selectedRingId started),
        ErrorToast NoValidTransactions)
  else
    match analyzeTransactions transactions with
    | Some analysisResult =>
        (mkPageState (Some analysisResult) false (selectedRingId started),
         AnalysisComplete (length transactions))
    | None =>
        (mkPageState (page_result started) false (selectedRingId started),
         ErrorToast EngineTypeError)
    end.

(** [result.suspicious_accounts.slice(0, 20)], the rows of the table of the
    top suspicious accounts. *)
Definition topAccounts (res : AnalysisResult) : list SuspiciousAccount :=
  firstn 20 (suspicious_accounts res).

(** [result.suspicious_accounts.length > 0 && ...] *)
Definition showsTopAccounts (res : AnalysisResult) : bool :=
  (0 <? length (suspicious_accounts res))%nat.

(** ** The graph view (GraphVisualization.tsx) *)

Record AggregatedEdge := mkAggregatedEdge {
  agg_source : string;
  agg_target : string;
  totalAmount : float;
  count : nat
}.

Definition RING_COLORS : list string :=
  [ "#ff6b6b"; "#ffa36b"; "#ffd93d"; "#6bff6b"; "#6bdfff"; "#a36bff";
    "#ff6bdf"; "#ff9e9e"; "#9effce"; "#9eceff" ].

(** One call of the callback of [rings.forEach((r, i) => ...)]; the
    counter is the index [i]. *)
Definition ringColorStep (acc : nat * JSMap.t string) (r : FraudRing)
    : nat * JSMap.t string :=
  let '(i, map) := acc in
  (S i,
   JSMap.set map (ring_id r)
     (nth (i mod length RING_COLORS) RING_COLORS EmptyString)).

Definition ringColorMap (rings : list FraudRing) : JSMap.t string :=
  snd (fold_left ringColorStep rings (O, [])).

(** The stroke of the outer circle of a flagged node, lines 95 to 98:
    [rColors.get(d.ring_ids[0]) || '#ff6b6b']. *)
Definition strokeOf (rColors : JSMap.t string) (d : GraphNode) : string :=
  match ring_ids d with
  | first :: _ =>
      match JSMap.get rColors first with
      | Some color => if String.eqb color EmptyString then "#ff6b6b" else color
      | None => "#ff6b6b"
      end
  | [] => "#ff6b6b"
  end.

(** [`${e.source}->${e.target}`] *)
Definition edgeKey (e : GraphEdge) : string :=
  String.append (source e) (String.append "->" (edge_target e)).

(** One iteration of the loop of lines 39 to 44. *)
Definition aggregateEdge (edgeMap : JSMap.t AggregatedEdge) (e : GraphEdge)
    : JSMap.t AggregatedEdge :=
  let key := edgeKey e in
  match JSMap.get edgeMap key with
  | Some existing =>
      JSMap.set edgeMap key
        (mkAggregatedEdge (agg_source existing) (agg_target existing)
           (totalAmount existing + edge_amount e) (S (count existing)))
  | None =>
      JSMap.set edgeMap key
        (mkAggregatedEdge (source e) (edge_target e) (edge_amount e) 1)
  end.

Definition edgeMapOf (edges : list GraphEdge) : JSMap.t AggregatedEdge :=
  fold_left aggregateEdge edges [].

(** [[...edgeMap.values()]] *)
Definition aggEdges (edges : list GraphEdge) : list AggregatedEdge :=
  List.map snd (edgeMapOf edges).

(** The edges of the graph that are aggregated under [key], in order. *)
Definition edgesUnder (key : string) (edges : list GraphEdge) : list GraphEdge :=
  List.filter (fun e => String.eqb (edgeKey e) key) edges.

(** ** The table of the rings (FraudRingTable) *)

(** The own properties of the object [patternLabel]. *)
Definition patternLabel : list (string * string) :=
  [ ("cycle", "Circular Routing");
    ("fan_in", "Fan-In (Smurfing)");
    ("fan_out", "Fan-Out (Smurfing)");
    ("shell_network", "Shell Network") ].

(** [patternLabel[ring.pattern_type] || ring.pattern_type]; [None] when the
    lookup finds a property that the object inherits, which is no string. *)
Definition labelOf (patternType : string) : option string :=
  match JSMap.get patternLabel patternType with
  | Some label => Some label
  | None => if inherited patternType then None else Some patternType
  end.

(** The colour class of a risk score in the table of the rings. *)
Definition riskClass (score : Z) : string :=
  if 80 <=? score then "text-suspicious"
  else if 60 <=? score then "text-warning"
  else "text-foreground".

(** ** Scenarios *)

Definition hour : Z := 3600000.

Definition transfer (i s r : string) (a : float) (t : Z) : Transaction :=
  mkTransaction i s r a t.

(** The graph and the result of a batch that the engine accepts. *)
Definition graphOf (transactions : list Transaction) : Graph :=
  default emptyGraph (buildAdjacency emptyGraph transactions).

Definition resultOf (transactions : list Transaction) : AnalysisResult :=
  default (mkAnalysisResult [] [] (mkSummary 0 0 0) (mkGraphData [] []))
    (analyzeTransactions transactions).

(** Three accounts in a circle, one hour apart. *)
Definition cycleBatch : list Transaction :=
  [ transfer "T1" "A" "B" 100 0;
    transfer "T2" "B" "C" 100 hour;
    transfer "T3" "C" "A" 100 (2 * hour) ].

(** Six transfers that touch account A within six hours. *)
Definition burst : list Transaction :=
  [ transfer "T1" "A" "B" 100 0;
    transfer "T3" "C" "A" 100 (2 * hour);
    transfer "T4" "A" "B" 100 (3 * hour);
    transfer "T5" "A" "B" 100 (4 * hour);
    transfer "T6" "A" "B" 100 (5 * hour);
    transfer "T7" "A" "B" 100 (6 * hour) ].

(** The circle A, B, C with four more transfers from A to B. *)
Definition fastBatch : list Transaction :=
  transfer "T2" "B" "C" 100 hour :: burst.

(** The same, and one transfer of A three days later. *)
Definition slowBatch : list Transaction :=
  fastBatch ++ [ transfer "T8" "A" "D" 100 (72 * hour) ].

(** Ten payouts of amount zero from one account. *)
Definition zeroPayoutBatch : list Transaction :=
  List.map
    (fun i => transfer (String.append "Z" (stringOfNat i)) "P" "Q" 0
                (Z.of_nat i * hour))
    (seq 1 10).


(** A circle of three accounts, two of which make ten equal payouts. *)
Definition payrollCycleBatch : list Transaction :=
  List.map
    (fun i => transfer (String.append "X" (stringOfNat i)) "A" "B" 100
                (Z.of_nat i * hour))
    (seq 1 10)
  ++ List.map
       (fun i => transfer (String.append "Y" (stringOfNat i)) "B" "C" 100
                   (Z.of_nat i * hour))
       (seq 1 10)
  ++ [ transfer "W" "C" "A" 100 (11 * hour) ].

(** [n] senders S1 .. Sn pay account R, one hour apart. *)
Definition fanInBatch (n : nat) : list Transaction :=
  List.map
    (fun i => transfer (String.append "F" (stringOfNat i))
                (String.append "S" (stringOfNat i)) "R" 100 (Z.of_nat i * hour))
    (seq 1 n).

(** Nine senders pay R, and R pays itself. *)
Definition selfFanInBatch : list Transaction :=
  transfer "F0" "R" "R" 100 0 :: fanInBatch 9.

(** An origin with four transfers, one of them into a chain of three
    accounts with one or two transfers each. *)
Definition shellBatch : list Transaction :=
  [ transfer "T1" "O" "S1" 100 0;
    transfer "T2" "S1" "S2" 100 hour;
    transfer "T3" "S2" "S3" 100 (2 * hour);
    transfer "T4" "O" "X1" 100 (3 * hour);
    transfer "T5" "O" "X2" 100 (4 * hour);
    transfer "T6" "O" "X3" 100 (5 * hour) ].

(** Twenty senders M1 .. M20 pay account M, ten hours apart. *)
Definition merchantBatch : list Transaction :=
  List.map
    (fun i => transfer (String.append "P" (stringOfNat i))
                (String.append "M" (stringOfNat i)) "M" 100
                (Z.of_nat i * (10 * hour)))
    (seq 1 20).

(** Ids beyond ASCII, by the bytes of their UTF-8 encoding: the fullwidth
    letters U+FF21 and U+FF22, and U+1F600, which is the pair of code units
    0xD83D 0xDE00. *)
Definition idOfBytes (bytes : list N) : string :=
  string_of_list_ascii (List.map ascii_of_N bytes).

Definition wideA : string := idOfBytes [239; 188; 161]%N.
Definition wideB : string := idOfBytes [239; 188; 162]%N.
Definition pairId : string := idOfBytes [240; 159; 152; 128]%N.

(** The three of them in a circle. *)
Definition wideIdBatch : list Transaction :=
  [ transfer "T1" wideA wideB 100 0;
    transfer "T2" wideB pairId 100 hour;
    transfer "T3" pairId wideA 100 (2 * hour) ].

(** * Properties *)

(** ** Containers *)

Lemma fold_left_invariant {A B} (P : A -> Prop) (f : A -> B -> A) (l : list B) :
  forall a, P a -> (forall a b, In b l -> P a -> P (f a b)) -> P (fold_left f l a).
Proof.
  induction l as [|b l IH]; simpl; intros a Ha Hf; [exact Ha|].
  apply IH; [apply Hf; auto | intros; apply Hf; auto].
Qed.

Lemma fold_left_pointwise {A B} (f g : A -> B -> A) (l : list B) :
  (forall a b, In b l -> f a b = g a b) ->
  forall a, fold_left f l a = fold_left g l a.
Proof.
  induction l as [|b l IH]; simpl; intros Hfg a; [reflexivity|].
  rewrite Hfg by auto. apply IH. intros; apply Hfg; auto.
Qed.

Module JSSetFacts.
Import JSSet.

Lemma has_In s x : has s x = true <-> In x s.
Proof.
  unfold has. rewrite existsb_exists. split.
  - intros (y & Hy & E). apply String.eqb_eq in E. now subst.
  - intros Hx. exists x. split; [exact Hx | apply String.eqb_refl].
Qed.

Lemma has_false s x : has s x = false <-> ~ In x s.
Proof.
  rewrite <- has_In. destruct (has s x); split; intros; congruence.
Qed.

Lemma add_In s x y : In y (add s x) <-> In y s \/ y = x.
Proof.
  unfold add. destruct (has s x) eqn:E.
  - apply has_In in E. split; [auto | intros [?| ->]; auto].
  - rewrite in_app_iff. simpl. intuition.
Qed.

Lemma add_NoDup s x : List.NoDup s -> List.NoDup (add s x).
Proof.
  intros Hs. unfold add. destruct (has s x) eqn:E; [exact Hs|].
  apply has_false in E.
  apply NoDup_rev in Hs. rewrite <- (rev_involutive (s ++ [x])).
  apply NoDup_rev. rewrite rev_app_distr. simpl. constructor; [|exact Hs].
  now rewrite <- in_rev.
Qed.

Lemma add_length s x : (length s <= length (add s x))%nat.
Proof.
  unfold add. destruct (has s x); [lia|]. rewrite length_app. simpl. lia.
Qed.

Lemma fold_add_In l : forall s y, In y (fold_left add l s) <-> In y s \/ In y l.
Proof.
  induction l as [|x l IH]; simpl; intros s y; [tauto|].
  rewrite IH, add_In. intuition.
Qed.

Lemma fold_add_NoDup l : forall s, List.NoDup s -> List.NoDup (fold_left add l s).
Proof.
  induction l as [|x l IH]; simpl; intros s Hs; [exact Hs|].
  apply IH, add_NoDup, Hs.
Qed.

Lemma ofList_In l y : In y (ofList l) <-> In y l.
Proof. unfold ofList. rewrite fold_add_In. simpl. tauto. Qed.

Lemma ofList_NoDup l : List.NoDup (ofList l).
Proof. apply fold_add_NoDup. constructor. Qed.
End JSSetFacts.

Module JSMapFacts.
Import JSMap.

Lemma has_get {V} (m : t V) k : has m k = true <-> exists v, get m k = Some v.
Proof.
  unfold has, get. induction m as [|[k' v'] m IH]; simpl.
  - split; [discriminate | intros [v Hv]; discriminate].
  - destruct (String.eqb k k'); simpl; [split; eauto | exact IH].
Qed.

Lemma get_set_same {V} (m : t V) k v : get (set m k v) k = Some v.
Proof.
  unfold get. induction m as [|[k' v'] m IH]; simpl.
  - now rewrite String.eqb_refl.
  - destruct (String.eqb k k') eqn:E; simpl; rewrite E; [reflexivity | exact IH].
Qed.

Lemma get_set_other {V} (m : t V) k v k0 :
  k0 <> k -> get (set m k v) k0 = get m k0.
Proof.
  intros Hne. unfold get. induction m as [|[k' v'] m IH]; simpl.
  - apply String.eqb_neq in Hne. now rewrite Hne.
  - destruct (String.eqb k k') eqn:E; simpl.
    + apply String.eqb_eq in E. subst k'.
      apply String.eqb_neq in Hne. now rewrite Hne.
    + destruct (String.eqb k0 k'); [reflexivity | exact IH].
Qed.

Lemma get_map {V} (f : string -> V) (l : list string) k :
  In k l -> get (List.map (fun x => (x, f x)) l) k = Some (f k).
Proof.
  unfold get. induction l as [|x l IH]; simpl; [tauto|].
  intros [->|Hk].
  - now rewrite String.eqb_refl.
  - destruct (String.eqb k x) eqn:E; simpl.
    + apply String.eqb_eq in E. now subst.
    + auto.
Qed.
End JSMapFacts.

(** ** The stable sort *)

Lemma insertBy_In {A} (cmp : A -> A -> Z) x l y :
  In y (insertBy cmp x l) <-> y = x \/ In y l.
Proof.
  induction l as [|z l IH]; simpl; [intuition|].
  destruct (cmp x z <=? 0); simpl; rewrite ?IH; intuition.
Qed.

Lemma sortBy_In {A} (cmp : A -> A -> Z) l y : In y (sortBy cmp l) <-> In y l.
Proof.
  induction l as [|x l IH]; simpl; [tauto|].
  rewrite insertBy_In, IH. intuition.
Qed.

Lemma insertBy_length {A} (cmp : A -> A -> Z) x l :
  length (insertBy cmp x l) = S (length l).
Proof.
  induction l as [|z l IH]; simpl; [reflexivity|].
  destruct (cmp x z <=? 0); simpl; [reflexivity | now rewrite IH].
Qed.

Lemma sortBy_length {A} (cmp : A -> A -> Z) l : length (sortBy cmp l) = length l.
Proof.
  induction l as [|x l IH]; simpl; [reflexivity|].
  now rewrite insertBy_length, IH.
Qed.

(** ** Adjacency construction *)

Lemma pushEdge_Some obj k e :
  inherited k = false -> exists obj', pushEdge obj k e = Some obj'.
Proof.
  intros Hk. unfold pushEdge. rewrite Hk. destruct (obj !! k); eauto.
Qed.

Lemma pushEdge_inv obj k e obj' :
  ownKeysFresh obj -> pushEdge obj k e = Some obj' ->
  inherited k = false /\ ownKeysFresh obj'.
Proof.
  intros Hfresh. unfold pushEdge.
  destruct (obj !! k) as [l|] eqn:El.
  - intros [= <-].
    assert (Hk : inherited k = false).
    { destruct (inherited k) eqn:E; [|reflexivity].
      rewrite (Hfresh k E) in El. discriminate. }
    split; [exact Hk|]. intros k' Hk'.
    rewrite lookup_insert_ne by congruence. now apply Hfresh.
  - destruct (inherited k) eqn:Hk; [discriminate|]. intros [= <-].
    split; [reflexivity|]. intros k' Hk'.
    rewrite lookup_insert_ne by congruence. now apply Hfresh.
Qed.

Lemma buildAdjacency_Some transactions : forall g,
  Forall (fun t => inherited (sender_id t) = false
                   /\ inherited (receiver_id t) = false) transactions ->
  exists g', buildAdjacency g transactions = Some g'.
Proof.
  induction transactions as [|t rest IH]; intros g Hall; simpl; [eauto|].
  inversion Hall as [|? ? [Hs Hr] Hrest]; subst.
  unfold addTransaction.
  destruct (pushEdge_Some (adjList g) (sender_id t)
              (mkEdgeInfo (receiver_id t) (amount t) (timestamp t)
                 (transaction_id t)) Hs) as [adj1 ->].
  destruct (pushEdge_Some (reverseAdj g) (receiver_id t)
              (mkEdgeInfo (sender_id t) (amount t) (timestamp t)
                 (transaction_id t)) Hr) as [rev1 ->].
  now apply IH.
Qed.

(** The accounts of a batch whose adjacency was built are no inherited
    names: the lookups [obj[k] || []] of the detectors see own properties
    only. *)
Lemma buildAdjacency_not_inherited transactions : forall g g',
  ownKeysFresh (adjList g) -> ownKeysFresh (reverseAdj g) ->
  buildAdjacency g transactions = Some g' ->
  Forall (fun t => inherited (sender_id t) = false
                   /\ inherited (receiver_id t) = false) transactions.
Proof.
  induction transactions as [|t rest IH]; intros g g' Ha Hr; simpl;
    [constructor|].
  unfold addTransaction.
  destruct (pushEdge (adjList g) _ _) as [adj1|] eqn:E1; [|discriminate].
  destruct (pushEdge (reverseAdj g) _ _) as [rev1|] eqn:E2; [|discriminate].
  destruct (pushEdge_inv _ _ _ _ Ha E1) as [Hs Ha1].
  destruct (pushEdge_inv _ _ _ _ Hr E2) as [Hrv Hr1].
  intros Hbuild. constructor; [auto|].
  eapply IH; [| |exact Hbuild]; simpl; assumption.
Qed.

Lemma analyzeGraph_Some transactions g :
  exists res, analyzeGraph transactions g = Some res.
Proof.
  unfold analyzeGraph.
  set (f := graphNode _ _ _ _).
  destruct (mapM f (allNodes g)) as [graphNodes|] eqn:E; [eauto|].
  apply mapM_None in E. apply List.Exists_exists in E.
  destruct E as (k & Hk & Hnone). unfold f, graphNode, computeStats in Hnone.
  rewrite (JSMapFacts.get_map (statsOf g) (allNodes g) k Hk) in Hnone.
  discriminate.
Qed.

(** The analysis returns a result exactly when no account id of the batch
    is a name inherited from [Object.prototype]. *)
Lemma analyzeTransactions_returns transactions :
  (exists res, analyzeTransactions transactions = Some res) <->
  Forall (fun t => inherited (sender_id t) = false
                   /\ inherited (receiver_id t) = false) transactions.
Proof.
  unfold analyzeTransactions. split.
  - intros [res Hres].
    destruct (buildAdjacency emptyGraph transactions) as [g|] eqn:Hg;
      [|discriminate].
    apply (buildAdjacency_not_inherited transactions emptyGraph g);
      [intros k _; apply lookup_empty | intros k _; apply lookup_empty | exact Hg].
  - intros Hall.
    destruct (buildAdjacency_Some transactions emptyGraph Hall) as [g ->].
    apply analyzeGraph_Some.
Qed.

(** ** Ring aggregation *)

Lemma addRing_cases legit st members patternType baseScore patternTag :
  let filtered := survivors legit members in
  let st' := addRing legit st members patternType baseScore patternTag in
  st' = st
  \/ ((2 <= length filtered)%nat
      /\ ringCounter st' = S (ringCounter st)
      /\ fraudRings st' =
           fraudRings st ++
           [mkFraudRing (ringIdOf (S (ringCounter st))) filtered patternType
              (Z.min 100 (baseScore + Z.of_nat (length filtered) * 2))]).
Proof.
  intros filtered st'. subst st'. unfold addRing. fold filtered.
  destruct (length filtered <? 2)%nat eqn:E; [left; reflexivity|].
  right. apply Nat.ltb_ge in E.
  destruct (fold_left _ filtered _) as [rings patterns]. simpl. auto.
Qed.

(** A property of every ring of the final state, from a property of each
    of the three kinds of pattern hit. *)
Lemma buildRings_rings (P : FraudRing -> Prop) legit cycles smurfing shells :
  (forall st cycle, In cycle cycles -> Forall P (fraudRings st) ->
     Forall P (fraudRings (addCycle legit st cycle))) ->
  (forall st p, In p smurfing -> Forall P (fraudRings st) ->
     Forall P (fraudRings (addSmurf legit st p))) ->
  (forall st chain, In chain shells -> Forall P (fraudRings st) ->
     Forall P (fraudRings (addShell legit st chain))) ->
  Forall P (fraudRings (buildRings legit cycles smurfing shells)).
Proof.
  intros Hc Hs Hh. unfold buildRings.
  apply (fold_left_invariant (fun st => Forall P (fraudRings st)));
    [|intros; now apply Hh].
  apply (fold_left_invariant (fun st => Forall P (fraudRings st)));
    [|intros; now apply Hs].
  apply (fold_left_invariant (fun st => Forall P (fraudRings st)));
    [|intros; now apply Hc].
  constructor.
Qed.

Lemma addRing_Forall (P : FraudRing -> Prop) legit st members patternType
    baseScore patternTag :
  (forall rid, (2 <= length (survivors legit members))%nat ->
     P (mkFraudRing rid (survivors legit members) patternType
          (Z.min 100 (baseScore + Z.of_nat (length (survivors legit members)) * 2)))) ->
  Forall P (fraudRings st) ->
  Forall P (fraudRings (addRing legit st members patternType baseScore patternTag)).
Proof.
  intros Hnew Hst.
  destruct (addRing_cases legit st members patternType baseScore patternTag)
    as [-> | (Hlen & _ & ->)]; [exact Hst|].
  apply Forall_app. split; [exact Hst|]. constructor; [|constructor].
  now apply Hnew.
Qed.

Lemma survivors_not_legit legit members k :
  In k (survivors legit members) -> ~ In k legit.
Proof.
  unfold survivors. rewrite filter_In. intros [_ Hk].
  apply negb_true_iff in Hk. now apply JSSetFacts.has_false.
Qed.

Lemma analyzeTransactions_inv transactions res :
  analyzeTransactions transactions = Some res ->
  exists g, buildAdjacency emptyGraph transactions = Some g
            /\ analyzeGraph transactions g = Some res.
Proof.
  unfold analyzeTransactions.
  destruct (buildAdjacency emptyGraph transactions) as [g|]; [|discriminate].
  intros Hres. exists g. auto.
Qed.

Lemma analyzeGraph_rings transactions g res :
  analyzeGraph transactions g = Some res ->
  fraud_rings res =
    fraudRings
      (buildRings (legitAccounts (computeStats g) transactions)
         (findCycles (adjList g) (allNodes g) 3 5)
         (detectSmurfing transactions (computeStats g))
         (detectShellNetworks (adjList g) (computeStats g) (allNodes g))).
Proof.
  unfold analyzeGraph. destruct (mapM _ _); [|discriminate].
  intros [= <-]. reflexivity.
Qed.

(** C1. Every fraud ring of the result has at least two members, and none of
    them is an account that [detectMerchants] or [detectPayroll] classified
    as legitimate. *)
Theorem rings_have_two_members_none_legit transactions g res :
  buildAdjacency emptyGraph transactions = Some g ->
  analyzeTransactions transactions = Some res ->
  forall r, In r (fraud_rings res) ->
    (2 <= length (member_accounts r))%nat
    /\ forall k, In k (member_accounts r) ->
         ~ In k (detectMerchants (computeStats g) transactions)
         /\ ~ In k (detectPayroll (computeStats g) transactions).
Proof.
  intros Hg Hres.
  destruct (analyzeTransactions_inv _ _ Hres) as (g' & Hg' & Hres').
  rewrite Hg in Hg'. injection Hg' as <-.
  rewrite (analyzeGraph_rings _ _ _ Hres').
  set (legit := legitAccounts (computeStats g) transactions).
  apply List.Forall_forall.
  assert (Hnew : forall members patternType baseScore rid,
    (2 <= length (survivors legit members))%nat ->
    (fun r => (2 <= length (member_accounts r))%nat
       /\ forall k, In k (member_accounts r) ->
            ~ In k (detectMerchants (computeStats g) transactions)
            /\ ~ In k (detectPayroll (computeStats g) transactions))
      (mkFraudRing rid (survivors legit members) patternType
         (Z.min 100 (baseScore + Z.of_nat (length (survivors legit members)) * 2)))).
  { intros members patternType baseScore rid Hlen. simpl. split; [exact Hlen|].
    intros k Hk. apply survivors_not_legit in Hk.
    unfold legit, legitAccounts in Hk. rewrite JSSetFacts.ofList_In in Hk.
    rewrite in_app_iff in Hk. tauto. }
  apply buildRings_rings; intros; apply addRing_Forall; auto.
Qed.

Lemma fanStep_types tag other patterns group (P : PatternHit -> Prop) :
  (forall accts, P (mkPatternHit tag accts)) ->
  Forall P patterns -> Forall P (fanStep tag other patterns group).
Proof.
  intros Htag Hp. unfold fanStep.
  destruct (firstWindow other _ _); [|exact Hp].
  apply Forall_app. split; [exact Hp|]. constructor; [apply Htag | constructor].
Qed.

Lemma detectSmurfing_types transactions nodeStats :
  Forall (fun p => type p = "fan_in" \/ type p = "fan_out")
    (detectSmurfing transactions nodeStats).
Proof.
  unfold detectSmurfing.
  apply fold_left_invariant.
  - apply fold_left_invariant; [constructor|].
    intros a b _ Ha. apply fanStep_types; [|exact Ha]. intros; simpl; auto.
  - intros a b _ Ha. apply fanStep_types; [|exact Ha]. intros; simpl; auto.
Qed.


(** C4. The risk score of every fraud ring is
    [min(100, baseScore + 2 * surviving members)], with base score
    [75 + 3 * cycleLength] for a cycle ring (the length of the cycle that
    was found, before the legitimate accounts are removed), 65 for a fan_in
    or fan_out ring and 70 for a shell_network ring; a cycle of length 3
    with 3 surviving members scores 90. *)
Theorem ring_risk_score transactions g res :
  buildAdjacency emptyGraph transactions = Some g ->
  analyzeTransactions transactions = Some res ->
  forall r, In r (fraud_rings res) ->
    (pattern_type r = "cycle"
     /\ exists cycle,
          In cycle (findCycles (adjList g) (allNodes g) 3 5)
          /\ member_accounts r =
               survivors (legitAccounts (computeStats g) transactions) cycle
          /\ risk_score r = riskOf (75 + 3 * Z.of_nat (length cycle)) r
          /\ (length cycle = 3%nat -> length (member_accounts r) = 3%nat ->
              risk_score r = 90))
    \/ ((pattern_type r = "fan_in" \/ pattern_type r = "fan_out")
        /\ risk_score r = riskOf 65 r)
    \/ (pattern_type r = "shell_network" /\ risk_score r = riskOf 70 r).
Proof.
  intros Hg Hres.
  destruct (analyzeTransactions_inv _ _ Hres) as (g' & Hg' & Hres').
  rewrite Hg in Hg'. injection Hg' as <-.
  rewrite (analyzeGraph_rings _ _ _ Hres').
  set (legit := legitAccounts (computeStats g) transactions).
  apply List.Forall_forall.
  apply buildRings_rings.
  - intros st cycle Hin Hst. apply addRing_Forall; [|exact Hst].
    intros rid _. left. split; [reflexivity|]. exists cycle.
    unfold riskOf, cycleBase. simpl.
    repeat split; auto.
    + f_equal. lia.
    + intros Hc Hm. rewrite Hc, Hm. reflexivity.
  - intros st p Hin Hst. apply addRing_Forall; [|exact Hst].
    intros rid _. right; left. unfold riskOf. simpl. split.
    + pose proof (detectSmurfing_types transactions (computeStats g)) as Ht.
      rewrite List.Forall_forall in Ht. now apply Ht.
    + f_equal. lia.
  - intros st chain Hin Hst. apply addRing_Forall; [|exact Hst].
    intros rid _. right; right. unfold riskOf. simpl. split; [reflexivity|].
    f_equal. lia.
Qed.

(** C9. On the empty batch the analysis returns a result (no error) whose
    three counters are zero and whose lists of suspicious accounts, fraud
    rings, graph nodes and graph edges are empty. *)
Theorem empty_batch_result :
  analyzeTransactions [] =
    Some (mkAnalysisResult [] [] (mkSummary 0 0 0) (mkGraphData [] [])).
Proof. reflexivity. Qed.

(** ** Cycle search *)

Lemma delete_add_fresh s x : ~ In x s -> JSSet.delete (JSSet.add s x) x = s.
Proof.
  intros Hx. unfold JSSet.add.
  rewrite (proj2 (JSSetFacts.has_false s x) Hx).
  unfold JSSet.delete. rewrite List.filter_app. simpl.
  rewrite String.eqb_refl. simpl. rewrite app_nil_r.
  induction s as [|y s IH]; simpl; [reflexivity|].
  destruct (String.eqb x y) eqn:E.
  - apply String.eqb_eq in E. subst. exfalso. apply Hx. now left.
  - simpl. f_equal. apply IH. intros H. apply Hx. now right.
Qed.

Section DfsFacts.
Variable adj : AdjList.
Variable start : string.
Variable processed : JSSet.t.
Variables minLen maxLen : nat.

Local Abbreviation dfs' := (dfs adj start processed minLen maxLen).
Local Abbreviation dfsEdge' := (dfsEdge start processed minLen maxLen).

(** What one loop iteration does, once the recursive call is known to put
    [path] and [inPath] back. *)
Lemma dfsEdge_restores rec depth st edge :
  (forall k d s, path (rec k d s) = path s /\ inPath (rec k d s) = inPath s) ->
  path (dfsEdge' rec depth st edge) = path st
  /\ inPath (dfsEdge' rec depth st edge) = inPath st.
Proof.
  intros Hrec. unfold dfsEdge.
  destruct (_ && _ && _); [simpl; auto|].
  destruct (negb (JSSet.has (inPath st) (target edge))) eqn:Efresh;
    simpl; [|auto].
  destruct (negb (JSSet.has processed (target edge)) && _); simpl; [|auto].
  destruct (Hrec (target edge) (depth + 1)%nat
              (mkDfsState (path st ++ [target edge])
                 (JSSet.add (inPath st) (target edge)) (allCycles st)))
    as [-> ->]. simpl.
  split; [apply removelast_last|].
  apply delete_add_fresh. apply JSSetFacts.has_false.
  now apply negb_true_iff.
Qed.

(** [path.pop()] and [inPath.delete(...)] undo the push: a call of [dfs]
    returns with [path] and [inPath] as it found them. *)
Lemma dfs_restores fuel : forall current depth st,
  path (dfs' fuel current depth st) = path st
  /\ inPath (dfs' fuel current depth st) = inPath st.
Proof.
  induction fuel as [|fuel IH]; intros current depth st; simpl; [auto|].
  apply (fold_left_invariant
           (fun s => path s = path st /\ inPath s = inPath st)); [auto|].
  intros a e _ [Hp Hi].
  destruct (dfsEdge_restores (dfs' fuel) depth a e IH) as [-> ->]. auto.
Qed.

(** The fuel of [searchFrom] is never used up: any two amounts above
    [maxLen - depth] give the same run. *)
Lemma dfs_fuel fuel1 : forall fuel2 current depth st,
  (depth <= maxLen)%nat ->
  (maxLen < fuel1 + depth)%nat -> (maxLen < fuel2 + depth)%nat ->
  dfs' fuel1 current depth st = dfs' fuel2 current depth st.
Proof.
  induction fuel1 as [|fuel1 IH]; intros fuel2 current depth st Hd H1 H2;
    [lia|].
  destruct fuel2 as [|fuel2]; [lia|]. simpl.
  apply fold_left_pointwise. intros a e _. unfold dfsEdge.
  destruct (_ && _ && _); [reflexivity|].
  destruct (negb (JSSet.has (inPath a) (target e))); simpl; [|reflexivity].
  destruct (negb (JSSet.has processed (target e))); simpl; [|reflexivity].
  destruct (depth + 1 <? maxLen)%nat eqn:E; [|reflexivity].
  apply Nat.ltb_lt in E.
  rewrite (IH fuel2) by lia. reflexivity.
Qed.


(** Every path recorded as a cycle has between [minLen] and [maxLen]
    accounts, all distinct. *)
Lemma dfs_bounded fuel : forall current depth st,
  length (path st) = (depth + 1)%nat ->
  List.NoDup (path st) ->
  (forall x, In x (path st) -> In x (inPath st)) ->
  Forall (boundedCycle minLen maxLen) (allCycles st) ->
  Forall (boundedCycle minLen maxLen) (allCycles (dfs' fuel current depth st)).
Proof.
  induction fuel as [|fuel IH]; intros current depth st Hlen Hnd Hsub Hall;
    simpl; [exact Hall|].
  apply (fold_left_invariant
           (fun s => (path s = path st /\ inPath s = inPath st)
                     /\ Forall (boundedCycle minLen maxLen) (allCycles s))
           (dfsEdge' (dfs' fuel) depth) (edgesOf adj current) st);
    [auto|].
  intros a e _ [[Hp Hi] Ha]. split.
  { destruct (dfsEdge_restores (dfs' fuel) depth a e (dfs_restores fuel))
      as [-> ->]. auto. }
  unfold dfsEdge.
  destruct (_ && _ && _) eqn:E1.
  - simpl. apply Forall_app. split; [exact Ha|]. constructor; [|constructor].
    apply andb_true_iff in E1. destruct E1 as [E1 E3].
    apply andb_true_iff in E1. destruct E1 as [_ E2].
    apply Nat.leb_le in E2, E3. rewrite Hp. split; [lia | exact Hnd].
  - destruct (negb (JSSet.has (inPath a) (target e))) eqn:E2; simpl;
      [|exact Ha].
    destruct (negb (JSSet.has processed (target e)) && _); simpl; [|exact Ha].
    apply negb_true_iff, JSSetFacts.has_false in E2. rewrite Hi in E2.
    apply IH; simpl; rewrite ?Hp, ?Hi.
    + rewrite length_app. simpl. lia.
    + apply NoDup_rev in Hnd. rewrite <- (rev_involutive (path st ++ _)).
      apply NoDup_rev. rewrite rev_app_distr. simpl.
      constructor; [|exact Hnd]. rewrite <- in_rev. auto.
    + intros x Hx. apply JSSetFacts.add_In. apply in_app_iff in Hx.
      destruct Hx as [Hx|[<-|[]]]; auto.
    + exact Ha.
Qed.
End DfsFacts.

(** [searchFrom] gives [dfs] enough fuel. *)
Lemma searchFrom_fuel adj start processed minLen maxLen fuel st :
  (maxLen < fuel)%nat ->
  dfs adj start processed minLen maxLen fuel start 0 st
  = dfs adj start processed minLen maxLen (S maxLen) start 0 st.
Proof.
  intros Hfuel. apply dfs_fuel; lia.
Qed.

Lemma discoveredCycles_bounded adj nodes minLen maxLen :
  Forall (boundedCycle minLen maxLen) (discoveredCycles adj nodes minLen maxLen).
Proof.
  unfold discoveredCycles.
  apply (fold_left_invariant
           (fun acc => Forall (boundedCycle minLen maxLen) (fst acc)));
    [constructor|].
  intros [found processed] start _ Hfound.
  unfold searchFrom. cbv zeta. cbn [fst] in *.
  apply dfs_bounded; cbn [path inPath allCycles]; auto.
  repeat constructor. intros [].
Qed.

Lemma normalize_split cycle :
  exists i, normalize cycle = skipn i cycle ++ firstn i cycle.
Proof.
  exists (match indexOf (minMember cycle) cycle with
          | Some i => i
          | None => (length cycle - 1)%nat
          end).
  reflexivity.
Qed.

Lemma normalize_length cycle : length (normalize cycle) = length cycle.
Proof.
  destruct (normalize_split cycle) as [i ->].
  rewrite <- (firstn_skipn i cycle) at 3. rewrite !length_app. lia.
Qed.

Lemma normalize_Permutation cycle : Permutation cycle (normalize cycle).
Proof.
  destruct (normalize_split cycle) as [i ->].
  rewrite <- (firstn_skipn i cycle) at 1. apply Permutation_app_comm.
Qed.

Lemma dedupeCycles_from cycles :
  Forall (fun u => exists c, In c cycles /\ u = normalize c) (dedupeCycles cycles).
Proof.
  unfold dedupeCycles.
  apply (fold_left_invariant
    (fun acc => Forall (fun u => exists c, In c cycles /\ u = normalize c) (snd acc)));
    [constructor|].
  intros [seen unique] c Hc Hu. unfold dedupeStep.
  destruct (JSSet.has seen _); simpl in *; [exact Hu|].
  apply Forall_app. split; [exact Hu|]. constructor; [|constructor]. eauto.
Qed.

Lemma findCycles_bounded adj nodes minLen maxLen :
  Forall (boundedCycle minLen maxLen) (findCycles adj nodes minLen maxLen).
Proof.
  unfold findCycles.
  pose proof (discoveredCycles_bounded adj nodes minLen maxLen) as Hd.
  rewrite List.Forall_forall in Hd.
  eapply List.Forall_impl; [|apply dedupeCycles_from].
  intros u (c & Hc & ->). destruct (Hd c Hc) as [Hlen Hnd].
  split; [now rewrite normalize_length|].
  eapply Permutation_NoDup; [apply normalize_Permutation | exact Hnd].
Qed.

Lemma edgesOf_dropSelfLoops adj k :
  edgesOf (dropSelfLoops adj) k =
    List.filter (fun e => negb (String.eqb (target e) k)) (edgesOf adj k).
Proof.
  unfold edgesOf, dropSelfLoops. rewrite map_lookup_imap.
  destruct (adj !! k); reflexivity.
Qed.

Section SelfLoops.
Variable adj : AdjList.
Variable start : string.
Variable processed : JSSet.t.
Variables minLen maxLen : nat.
Hypothesis minLen_ge_2 : (2 <= minLen)%nat.

Local Abbreviation dfsEdge' := (dfsEdge start processed minLen maxLen).

(** An edge from the current account to itself changes nothing: it closes
    no cycle of [minLen] accounts, and its target is on the path. *)
Lemma dfsEdge_self_loop rec current depth st edge :
  In current (inPath st) -> (current = start -> depth = 0%nat) ->
  target edge = current ->
  dfsEdge' rec depth st edge = st.
Proof.
  intros Hin H0 Ht. unfold dfsEdge. rewrite Ht.
  destruct (String.eqb current start) eqn:E.
  - apply String.eqb_eq in E. rewrite (H0 E).
    replace (minLen <=? 0 + 1)%nat with false
      by (symmetry; apply Nat.leb_gt; lia).
    simpl. apply JSSetFacts.has_In in Hin. rewrite Hin. reflexivity.
  - simpl. apply JSSetFacts.has_In in Hin. rewrite Hin. reflexivity.
Qed.

Lemma dfs_dropSelfLoops fuel : forall current depth st,
  In current (inPath st) -> In start (inPath st) ->
  (current = start -> depth = 0%nat) ->
  dfs (dropSelfLoops adj) start processed minLen maxLen fuel current depth st
  = dfs adj start processed minLen maxLen fuel current depth st.
Proof.
  induction fuel as [|fuel IH]; intros current depth st Hcur Hstart H0;
    simpl; [reflexivity|].
  rewrite edgesOf_dropSelfLoops.
  revert st Hcur Hstart.
  induction (edgesOf adj current) as [|e l IHl]; intros st Hcur Hstart;
    simpl; [reflexivity|].
  destruct (String.eqb (target e) current) eqn:E; simpl.
  - apply String.eqb_eq in E.
    rewrite (dfsEdge_self_loop _ current depth st e Hcur H0 E).
    now apply IHl.
  - assert (Hsame :
      dfsEdge' (dfs (dropSelfLoops adj) start processed minLen maxLen fuel)
        depth st e
      = dfsEdge' (dfs adj start processed minLen maxLen fuel) depth st e).
    { unfold dfsEdge.
      destruct (_ && _ && _); [reflexivity|].
      destruct (negb (JSSet.has (inPath st) (target e))) eqn:Ef; simpl;
        [|reflexivity].
      destruct (negb (JSSet.has processed (target e)) && _); simpl;
        [|reflexivity].
      apply negb_true_iff, JSSetFacts.has_false in Ef.
      rewrite IH; simpl; [reflexivity | | |].
      - apply JSSetFacts.add_In. now right.
      - apply JSSetFacts.add_In. now left.
      - intros Heq. rewrite Heq in Ef. contradiction. }
    rewrite Hsame.
    destruct (dfsEdge_restores start processed minLen maxLen
                (dfs adj start processed minLen maxLen fuel) depth st e
                (dfs_restores adj start processed minLen maxLen fuel))
      as [_ Hi].
    apply IHl; rewrite Hi; assumption.
Qed.
End SelfLoops.

Lemma discoveredCycles_dropSelfLoops adj nodes minLen maxLen :
  (2 <= minLen)%nat ->
  discoveredCycles (dropSelfLoops adj) nodes minLen maxLen
  = discoveredCycles adj nodes minLen maxLen.
Proof.
  intros Hmin. unfold discoveredCycles. f_equal.
  apply fold_left_pointwise. intros [found processed] start _.
  unfold searchFrom.
  rewrite dfs_dropSelfLoops; cbn [inPath]; auto; now left.
Qed.

(** C6. With [minLen = 3] and [maxLen = 5] every cycle that [findCycles]
    returns has at least 3 and at most 5 accounts (all distinct), and a
    transfer from an account to itself produces no cycle: [findCycles]
    returns the same cycles with and without the self-loop edges. *)
Theorem cycles_have_3_to_5_accounts adj nodes :
  Forall (fun c => (3 <= length c <= 5)%nat /\ List.NoDup c)
    (findCycles adj nodes 3 5)
  /\ findCycles (dropSelfLoops adj) nodes 3 5 = findCycles adj nodes 3 5.
Proof.
  split.
  - apply (findCycles_bounded adj nodes 3 5).
  - unfold findCycles. rewrite discoveredCycles_dropSelfLoops by lia.
    reflexivity.
Qed.

(** ** Shell chains *)

Lemma Forall_removelast {A} (P : A -> Prop) (l : list A) :
  Forall P l -> Forall P (removelast l).
Proof.
  induction 1 as [|x l Hx Hl IH]; simpl; [constructor|].
  destruct l; [constructor | constructor; assumption].
Qed.

Lemma tl_snoc {A} (l : list A) (x : A) : l <> [] -> tl (l ++ [x]) = tl l ++ [x].
Proof. destruct l; [congruence | reflexivity]. Qed.

Lemma hd_snoc {A} (d : A) (l : list A) (x : A) : l <> [] -> hd d (l ++ [x]) = hd d l.
Proof. destruct l; [congruence | reflexivity]. Qed.

Lemma nth_error_removelast {A} (l : list A) : forall i x,
  nth_error l i = Some x -> (S i < length l)%nat -> In x (removelast l).
Proof.
  induction l as [|y l IH]; intros i x Hi Hlt; simpl in *; [lia|].
  destruct l as [|z l]; [simpl in Hlt; lia|].
  destruct i as [|i]; simpl in Hi.
  - injection Hi as ->. now left.
  - right. apply (IH i); [exact Hi | simpl in *; lia].
Qed.

Section ShellFacts.
Variable adj : AdjList.
Variable nodeStats : JSMap.t NodeStats.

Lemma extendChain_spec fuel : forall chain visited current,
  chain <> [] -> Forall (low nodeStats) (tl chain) -> (length chain <= 8)%nat ->
  let r := extendChain fuel adj nodeStats chain visited current in
  (length chain <= length r <= 8)%nat
  /\ hd EmptyString r = hd EmptyString chain
  /\ Forall (low nodeStats) (removelast (tl r)).
Proof.
  induction fuel as [|fuel IH]; intros chain visited current Hne Hlow Hlen;
    simpl.
  { repeat split; auto. now apply Forall_removelast. }
  destruct (length chain <? 8)%nat eqn:E;
    [|repeat split; auto; now apply Forall_removelast].
  apply Nat.ltb_lt in E.
  destruct (List.find _ _) as [nextShell|] eqn:Efind.
  - apply find_some in Efind. destruct Efind as [_ Hshell].
    destruct (IH (chain ++ [target nextShell])
                (JSSet.add visited (target nextShell)) (target nextShell))
      as (Hl & Hh & Hi).
    + now destruct chain.
    + rewrite tl_snoc by assumption. apply Forall_app. split; [exact Hlow|].
      constructor; [exact Hshell | constructor].
    + rewrite length_app. simpl. lia.
    + rewrite length_app in Hl. simpl in Hl.
      rewrite hd_snoc in Hh by assumption.
      repeat split; auto; lia.
  - destruct (List.filter _ _) as [|e rest].
    + repeat split; auto. now apply Forall_removelast.
    + rewrite length_app, hd_snoc, tl_snoc by assumption. simpl.
      rewrite removelast_last. repeat split; auto; lia.
Qed.

(** The loop of [extendChain] stops by itself within 8 iterations. *)
Lemma extendChain_fuel fuel1 : forall fuel2 chain visited current,
  (8 <= fuel1 + length chain)%nat -> (8 <= fuel2 + length chain)%nat ->
  extendChain fuel1 adj nodeStats chain visited current
  = extendChain fuel2 adj nodeStats chain visited current.
Proof.
  induction fuel1 as [|fuel1 IH]; intros fuel2 chain visited current H1 H2.
  - simpl in H1. destruct fuel2 as [|fuel2]; [reflexivity|]. simpl.
    replace (length chain <? 8)%nat with false; [reflexivity|].
    symmetry. apply Nat.ltb_ge. lia.
  - destruct fuel2 as [|fuel2].
    + simpl in H2. simpl.
      replace (length chain <? 8)%nat with false; [reflexivity|].
      symmetry. apply Nat.ltb_ge. lia.
    + simpl. destruct (length chain <? 8)%nat; [|reflexivity].
      destruct (List.find _ _); [|reflexivity].
      apply IH; rewrite length_app; simpl; lia.
Qed.



Lemma shellEdge_inv start startStats acc edge :
  JSMap.get nodeStats start = Some startStats ->
  (3 < totalTransactions startStats)%nat ->
  shellAcc nodeStats acc -> shellAcc nodeStats (shellEdge adj nodeStats start acc edge).
Proof.
  intros Hs Hbig Hacc. unfold shellEdge. destruct acc as [seen chains].
  destruct (JSMap.get nodeStats (target edge)) as [firstStats|] eqn:Ef;
    [|exact Hacc].
  destruct (3 <? totalTransactions firstStats)%nat eqn:E3; [exact Hacc|].
  apply Nat.ltb_ge in E3. cbv zeta.
  set (chain := extendChain 8 adj nodeStats _ _ _).
  destruct (4 <=? length chain)%nat eqn:E4; [|exact Hacc].
  apply Nat.leb_le in E4.
  destruct (JSSet.has seen (chainKey chain)) eqn:Eseen; [exact Hacc|].
  apply JSSetFacts.has_false in Eseen.
  destruct Hacc as (Hall & Hnd & Hkeys). cbn [fst snd] in *.
  destruct (extendChain_spec 8 [start; target edge]
              (JSSet.ofList [start; target edge]) (target edge))
    as (Hl & Hh & Hi).
  { discriminate. }
  { cbn [tl]. constructor; [|constructor]. unfold low, lowActivity.
    rewrite Ef. apply Nat.leb_le. exact E3. }
  { cbn [length]. lia. }
  fold chain in Hl, Hh, Hi. cbn [hd length] in Hh, Hl.
  split; [|split].
  - apply Forall_app. split; [exact Hall|]. constructor; [|constructor].
    split; [lia|]. split; [|exact Hi]. rewrite Hh. eauto.
  - apply NoDup_rev in Hnd. rewrite <- (rev_involutive (chains ++ _)).
    apply NoDup_rev. rewrite rev_app_distr. simpl.
    constructor; [|exact Hnd]. rewrite <- in_rev. intros Hc.
    apply Eseen. now apply Hkeys.
  - intros c Hc. apply JSSetFacts.add_In. apply in_app_iff in Hc.
    destruct Hc as [Hc|[<-|[]]]; auto.
Qed.

Lemma detectShellNetworks_inv allNodes :
  shellAcc nodeStats (fold_left (shellStart adj nodeStats) allNodes ([], [])).
Proof.
  apply fold_left_invariant.
  - repeat split; simpl; [constructor | constructor | intros c []].
  - intros acc start _ Hacc. unfold shellStart.
    destruct (JSMap.get nodeStats start) as [startStats|] eqn:Es;
      [|exact Hacc].
    destruct (totalTransactions startStats <=? 3)%nat eqn:E; [exact Hacc|].
    apply Nat.leb_gt in E.
    apply fold_left_invariant; [exact Hacc|].
    intros a e _ Ha. now apply (shellEdge_inv start startStats).
Qed.
End ShellFacts.

(** C8. Every chain that [detectShellNetworks] emits has between 4 and 8
    accounts; its first account has more than 3 transactions in total; every
    account strictly between the first and the last has at most 3; and no
    account sequence is emitted twice. *)
Theorem shell_chains_shape adj nodeStats allNodes :
  let chains := detectShellNetworks adj nodeStats allNodes in
  List.NoDup chains
  /\ forall chain, In chain chains ->
       (4 <= length chain <= 8)%nat
       /\ (exists s, JSMap.get nodeStats (hd EmptyString chain) = Some s
                     /\ (3 < totalTransactions s)%nat)
       /\ forall i k, (0 < i)%nat -> (S i < length chain)%nat ->
            nth_error chain i = Some k ->
            exists s, JSMap.get nodeStats k = Some s
                      /\ (totalTransactions s <= 3)%nat.
Proof.
  intros chains.
  destruct (detectShellNetworks_inv adj nodeStats allNodes) as (Hall & Hnd & _).
  fold (detectShellNetworks adj nodeStats allNodes) in Hall, Hnd.
  split; [exact Hnd|].
  intros chain Hin. rewrite List.Forall_forall in Hall.
  destruct (Hall chain Hin) as (Hlen & Hfirst & Hmid).
  split; [exact Hlen|]. split; [exact Hfirst|].
  intros i k Hi Hlt Hk.
  destruct chain as [|a l]; [simpl in Hlt; lia|].
  destruct i as [|j]; [lia|]. simpl in Hk, Hlt, Hmid.
  rewrite List.Forall_forall in Hmid.
  assert (Hlow : low nodeStats k).
  { apply Hmid. apply (nth_error_removelast l j); [exact Hk | lia]. }
  unfold low, lowActivity in Hlow.
  destruct (JSMap.get nodeStats k) as [s|]; [|discriminate].
  exists s. split; [reflexivity | now apply Nat.leb_le].
Qed.

(** ** Smurfing *)

Lemma filter_none {A} (f : A -> bool) (l : list A) :
  (forall x, In x l -> f x = false) -> List.filter f l = [].
Proof.
  induction l as [|x l IH]; simpl; intros Hf; [reflexivity|].
  rewrite Hf by auto. apply IH. intros; apply Hf; auto.
Qed.

Module GroupFacts.
Import JSMap.

Lemma get_In {V} (m : t V) k v : get m k = Some v -> In (k, v) m.
Proof.
  unfold get. destruct (List.find _ m) as [[k' v']|] eqn:E; [|discriminate].
  intros [= <-]. apply find_some in E. destruct E as [Hin Hk].
  apply String.eqb_eq in Hk. simpl in Hk. now subst.
Qed.

Lemma get_None {V} (m : t V) k v : get m k = None -> ~ In (k, v) m.
Proof.
  unfold get. destruct (List.find _ m) as [kv|] eqn:E; [discriminate|].
  intros _ Hin. apply (find_none _ _ E) in Hin. simpl in Hin.
  now rewrite String.eqb_refl in Hin.
Qed.

Lemma set_keys {V} (m : t V) k v x :
  In x (List.map fst (set m k v)) <-> x = k \/ In x (List.map fst m).
Proof.
  induction m as [|[k' v'] m IH]; simpl; [intuition|].
  destruct (String.eqb k k') eqn:E; simpl.
  - apply String.eqb_eq in E. subst. intuition.
  - rewrite IH. intuition.
Qed.

Lemma set_NoDup {V} (m : t V) k v :
  List.NoDup (List.map fst m) -> List.NoDup (List.map fst (set m k v)).
Proof.
  induction m as [|[k' v'] m IH]; simpl; intros Hnd.
  - constructor; [intros [] | constructor].
  - inversion Hnd as [|? ? Hk' Hm]; subst.
    destruct (String.eqb k k') eqn:E; simpl; [constructor; assumption|].
    constructor; [|now apply IH].
    rewrite set_keys. intros [->|Hin]; [|contradiction].
    now rewrite String.eqb_refl in E.
Qed.

Lemma set_In {V} (m : t V) k v k0 v0 :
  List.NoDup (List.map fst m) ->
  In (k0, v0) (set m k v) <->
  (k0 = k /\ v0 = v) \/ (k0 <> k /\ In (k0, v0) m).
Proof.
  induction m as [|[k' v'] m IH]; simpl; intros Hnd.
  - split; [intros [[= <- <-]|[]]; auto | intros [[-> ->]|[_ []]]; auto].
  - inversion Hnd as [|? ? Hk' Hm]; subst.
    destruct (String.eqb k k') eqn:E; simpl.
    + apply String.eqb_eq in E. subst k'. split.
      * intros [[= <- <-]|Hin]; [auto|]. right. split; [|auto].
        intros ->. apply Hk'. apply (in_map fst) in Hin. exact Hin.
      * intros [[-> ->]|[Hne [[= -> ->]|Hin]]]; auto. congruence.
    + apply String.eqb_neq in E. rewrite (IH Hm). split.
      * intros [[= <- <-]|[?|[? ?]]]; auto.
      * intros [?|[Hne [[= <- <-]|Hin]]]; auto.
Qed.
End GroupFacts.

Section Grouping.
Variable key : Transaction -> string.



(** Every group of [groupBy] holds the transfers of its key, in the order
    of the batch, and every transfer is in the group of its key. *)
Lemma groupBy_grouped transactions : grouped key transactions (groupBy key transactions).
Proof.
  unfold groupBy.
  induction transactions as [|tx txs IH] using rev_ind.
  - simpl. repeat split; [constructor | intros k l [] | intros t []].
  - rewrite fold_left_app. simpl.
    destruct IH as (Hnd & Hgrp & Hall).
    match goal with
    | |- context [JSMap.set ?m0 _ _] => set (m := m0) in *
    end.
    split; [now apply GroupFacts.set_NoDup|]. split.
    + intros k l Hin. apply GroupFacts.set_In in Hin; [|exact Hnd].
      unfold keyed. rewrite List.filter_app. simpl.
      destruct Hin as [[-> ->]|[Hne Hin]].
      * rewrite String.eqb_refl.
        destruct (JSMap.get m (key tx)) as [l0|] eqn:Eg; simpl.
        -- apply GroupFacts.get_In in Eg. now rewrite (Hgrp _ _ Eg).
        -- replace (List.filter _ txs) with (@nil Transaction); [reflexivity|].
           symmetry. apply filter_none. intros t Ht.
           destruct (String.eqb (key t) (key tx)) eqn:E; [|reflexivity].
           apply String.eqb_eq in E. destruct (Hall t Ht) as [l Hl].
           rewrite E in Hl. now apply (GroupFacts.get_None m _ l) in Eg.
      * replace (String.eqb (key tx) k) with false
          by (symmetry; apply String.eqb_neq; congruence).
        rewrite app_nil_r. now apply Hgrp.
    + intros t Ht. apply in_app_iff in Ht.
      destruct (String.eqb (key t) (key tx)) eqn:E.
      * apply String.eqb_eq in E. rewrite E. eexists.
        apply GroupFacts.set_In; [exact Hnd|]. left. split; reflexivity.
      * apply String.eqb_neq in E.
        destruct Ht as [Ht|[<-|[]]]; [|congruence].
        destruct (Hall t Ht) as [l Hl]. exists l.
        apply GroupFacts.set_In; [exact Hnd|]. right. auto.
Qed.
End Grouping.

Section FanFacts.
Variables key other : Transaction -> string.
Variable tag : string.
Variable transactions : list Transaction.


Lemma firstWindow_Some sorted anchors u :
  firstWindow other sorted anchors = Some u ->
  exists anchor, In anchor anchors /\ u = uniqueOf other sorted anchor
                 /\ (10 <= length u)%nat.
Proof.
  induction anchors as [|a rest IH]; cbn [firstWindow]; [discriminate|].
  fold (uniqueOf other sorted a). unfold JSSet.size.
  destruct (10 <=? length (uniqueOf other sorted a))%nat eqn:E.
  - intros [= <-]. apply Nat.leb_le in E. exists a.
    split; [now left | auto].
  - intros Hu. destruct (IH Hu) as (anchor & Hin & Heq & Hlen).
    exists anchor. split; [now right | auto].
Qed.

Lemma firstWindow_reached sorted anchors anchor :
  In anchor anchors -> (10 <= length (uniqueOf other sorted anchor))%nat ->
  exists u, firstWindow other sorted anchors = Some u.
Proof.
  induction anchors as [|a rest IH]; cbn [firstWindow In]; [tauto|].
  fold (uniqueOf other sorted a). unfold JSSet.size.
  intros Hin Hlen.
  destruct (10 <=? length (uniqueOf other sorted a))%nat eqn:E; [eauto|].
  destruct Hin as [->|Hin]; [|auto].
  apply Nat.leb_gt in E. lia.
Qed.

(** The set of an anchor of account [k] is the list of the window's
    distinct counterparties. *)
Lemma uniqueOf_counterparties k anchor :
  windowCounterparties key other transactions k anchor
    (uniqueOf other (sortBy byTimestamp (keyed key k transactions)) anchor).
Proof.
  split; [apply JSSetFacts.ofList_NoDup|].
  intros s. unfold uniqueOf. rewrite JSSetFacts.ofList_In, in_map_iff.
  unfold windowTxs, inWindow. split.
  - intros (t & Hs & Ht). apply filter_In in Ht. destruct Ht as [Ht Hw].
    apply sortBy_In in Ht. unfold keyed in Ht. apply filter_In in Ht.
    destruct Ht as [Ht Hk]. apply String.eqb_eq in Hk.
    apply andb_true_iff in Hw. destruct Hw as [H1 H2].
    apply Z.leb_le in H1, H2. exists t. auto.
  - intros (t & Ht & Hk & Hs & H1 & H2). exists t. split; [exact Hs|].
    apply filter_In. split.
    + apply sortBy_In. unfold keyed. apply filter_In. split; [exact Ht|].
      now apply String.eqb_eq.
    + apply andb_true_iff. split; now apply Z.leb_le.
Qed.

Lemma counterparties_length k anchor ss ss' :
  windowCounterparties key other transactions k anchor ss ->
  windowCounterparties key other transactions k anchor ss' ->
  length ss = length ss'.
Proof.
  intros [Hnd Hin] [Hnd' Hin'].
  apply Nat.le_antisymm; apply NoDup_incl_length; auto;
    intros s Hs; [apply Hin', Hin | apply Hin, Hin']; exact Hs.
Qed.

Lemma fanStep_fold_In groups hit : forall init,
  In hit (fold_left (fanStep tag other) groups init) <->
  In hit init
  \/ exists k l u, In (k, l) groups
       /\ firstWindow other (sortBy byTimestamp l) (sortBy byTimestamp l) = Some u
       /\ hit = mkPatternHit tag (k :: u).
Proof.
  induction groups as [|[k l] groups IH]; intros init; simpl.
  - split; [auto | intros [?|(k & l & u & [] & _)]; auto].
  - rewrite IH. unfold fanStep at 1. simpl.
    destruct (firstWindow other _ _) as [u|] eqn:E.
    + rewrite in_app_iff. simpl. split.
      * intros [[?|[<-|[]]]|(k' & l' & u' & Hin & Hf & ->)]; eauto 10.
      * intros [?|(k' & l' & u' & [[= <- <-]|Hin] & Hf & ->)]; eauto 10.
        rewrite E in Hf. injection Hf as <-. auto.
    + split.
      * intros [?|(k' & l' & u' & Hin & Hf & ->)]; eauto 10.
      * intros [?|(k' & l' & u' & [[= <- <-]|Hin] & Hf & ->)]; eauto 10.
        congruence.
Qed.

(** The hits of one direction: account [k] has a hit exactly when one of
    its transfers anchors a window with 10 or more distinct
    counterparties. *)
Lemma fan_hit_iff init k :
  (exists u, In (mkPatternHit tag (k :: u))
               (fold_left (fanStep tag other) (groupBy key transactions) init))
  <-> (exists u, In (mkPatternHit tag (k :: u)) init)
      \/ exists anchor ss, In anchor transactions /\ key anchor = k
           /\ windowCounterparties key other transactions k anchor ss
           /\ (10 <= length ss)%nat.
Proof.
  destruct (groupBy_grouped key transactions) as (Hnd & Hgrp & Hall).
  split.
  - intros (u & Hu). apply fanStep_fold_In in Hu.
    destruct Hu as [Hu|(k' & l & u' & Hin & Hf & [= <- <-])]; [eauto|].
    right. rewrite (Hgrp _ _ Hin) in Hf.
    apply firstWindow_Some in Hf. destruct Hf as (anchor & Ha & -> & Hlen).
    apply sortBy_In in Ha. unfold keyed in Ha. apply filter_In in Ha.
    destruct Ha as [Ha Hk]. apply String.eqb_eq in Hk.
    exists anchor,
      (uniqueOf other (sortBy byTimestamp (keyed key k transactions)) anchor).
    split; [exact Ha|]. split; [exact Hk|].
    split; [apply uniqueOf_counterparties | exact Hlen].
  - intros [(u & Hu)|(anchor & ss & Ha & Hk & Hss & Hlen)].
    + exists u. apply fanStep_fold_In. auto.
    + destruct (Hall anchor Ha) as [l Hl]. rewrite Hk in Hl.
      pose proof (Hgrp _ _ Hl) as ->.
      destruct (firstWindow_reached
                  (sortBy byTimestamp (keyed key k transactions))
                  (sortBy byTimestamp (keyed key k transactions)) anchor)
        as [u Hu].
      * apply sortBy_In. unfold keyed. apply filter_In.
        split; [exact Ha | now apply String.eqb_eq].
      * rewrite <- (counterparties_length k anchor ss _ Hss
                      (uniqueOf_counterparties k anchor)). exact Hlen.
      * exists u. apply fanStep_fold_In. right. eauto 10.
Qed.
End FanFacts.

Lemma fan_in_hit_iff transactions nodeStats k :
  hasHit "fan_in" k (detectSmurfing transactions nodeStats) <->
  exists anchor ss, In anchor transactions /\ receiver_id anchor = k
    /\ windowCounterparties receiver_id sender_id transactions k anchor ss
    /\ (10 <= length ss)%nat.
Proof.
  pose proof (fan_hit_iff receiver_id sender_id "fan_in" transactions [] k)
    as Hiff.
  unfold detectSmurfing, hasHit. split.
  - intros (hit & Hin & Ht & Hh).
    apply fanStep_fold_In in Hin.
    destruct Hin as [Hin|(k' & l & u & _ & _ & ->)]; [|discriminate].
    pose proof Hin as Hin'. apply fanStep_fold_In in Hin'.
    destruct Hin' as [[]|(k' & l & u & _ & _ & ->)].
    simpl in Hh. injection Hh as ->.
    destruct (proj1 Hiff) as [(u' & [])|Hex]; [eauto | exact Hex].
  - intros Hex. destruct (proj2 Hiff (or_intror Hex)) as [u Hu].
    exists (mkPatternHit "fan_in" (k :: u)).
    split; [|split; reflexivity]. apply fanStep_fold_In. auto.
Qed.

Lemma fan_out_hit_iff transactions nodeStats k :
  hasHit "fan_out" k (detectSmurfing transactions nodeStats) <->
  exists anchor ss, In anchor transactions /\ sender_id anchor = k
    /\ windowCounterparties sender_id receiver_id transactions k anchor ss
    /\ (10 <= length ss)%nat.
Proof.
  unfold detectSmurfing, hasHit.
  set (fanIn := fold_left (fanStep "fan_in" sender_id) _ []).
  pose proof (fan_hit_iff sender_id receiver_id "fan_out" transactions fanIn k)
    as Hiff.
  assert (Hnone : forall u, ~ In (mkPatternHit "fan_out" (k :: u)) fanIn).
  { intros u Hu. apply fanStep_fold_In in Hu.
    destruct Hu as [[]|(k' & l & u' & _ & _ & [=])]. }
  split.
  - intros (hit & Hin & Ht & Hh).
    pose proof Hin as Hin'. apply fanStep_fold_In in Hin'.
    destruct Hin' as [Hin'|(k' & l & u & _ & _ & ->)].
    + apply fanStep_fold_In in Hin'.
      destruct Hin' as [[]|(k' & l & u & _ & _ & ->)]. discriminate.
    + simpl in Hh. injection Hh as ->.
      destruct (proj1 Hiff) as [(u' & Hu')|Hex]; [eauto | | exact Hex].
      now apply Hnone in Hu'.
  - intros Hex. destruct (proj2 Hiff (or_intror Hex)) as [u Hu].
    exists (mkPatternHit "fan_out" (k :: u)). auto.
Qed.

(** C7. The threshold of 10 is inclusive.  A receiver one of whose incoming
    transfers anchors a 72-hour window with exactly 10 distinct senders has a
    fan_in hit; a receiver with at most 9 distinct senders in every such
    window has none.  The same holds for fan_out, over the receivers of a
    sender's outgoing transfers. *)
Theorem smurfing_threshold_inclusive transactions nodeStats k :
  ((exists anchor ss, In anchor transactions /\ receiver_id anchor = k
      /\ windowCounterparties receiver_id sender_id transactions k anchor ss
      /\ length ss = 10%nat) ->
   hasHit "fan_in" k (detectSmurfing transactions nodeStats))
  /\ ((forall anchor ss, In anchor transactions -> receiver_id anchor = k ->
         windowCounterparties receiver_id sender_id transactions k anchor ss ->
         (length ss <= 9)%nat) ->
      ~ hasHit "fan_in" k (detectSmurfing transactions nodeStats))
  /\ ((exists anchor ss, In anchor transactions /\ sender_id anchor = k
         /\ windowCounterparties sender_id receiver_id transactions k anchor ss
         /\ length ss = 10%nat) ->
      hasHit "fan_out" k (detectSmurfing transactions nodeStats))
  /\ ((forall anchor ss, In anchor transactions -> sender_id anchor = k ->
         windowCounterparties sender_id receiver_id transactions k anchor ss ->
         (length ss <= 9)%nat) ->
      ~ hasHit "fan_out" k (detectSmurfing transactions nodeStats)).
Proof.
  repeat split.
  - intros (anchor & ss & Ha & Hk & Hss & Hlen).
    apply fan_in_hit_iff. exists anchor, ss. repeat split; auto; try apply Hss.
    lia.
  - intros Hmax Hhit. apply fan_in_hit_iff in Hhit.
    destruct Hhit as (anchor & ss & Ha & Hk & Hss & Hlen).
    specialize (Hmax anchor ss Ha Hk Hss). lia.
  - intros (anchor & ss & Ha & Hk & Hss & Hlen).
    apply fan_out_hit_iff. exists anchor, ss. repeat split; auto; try apply Hss.
    lia.
  - intros Hmax Hhit. apply fan_out_hit_iff in Hhit.
    destruct Hhit as (anchor & ss & Ha & Hk & Hss & Hlen).
    specialize (Hmax anchor ss Ha Hk Hss). lia.
Qed.

(** ** Canonical rotation *)

(** [<] on ids is a strict total order. *)
Lemma unitRank_inj x y : unitRank x = unitRank y -> x = y.
Proof.
  intros H.
  rewrite <- (ascii_N_embedding x), <- (ascii_N_embedding y). f_equal.
  pose proof (N_ascii_bounded x) as Hx. pose proof (N_ascii_bounded y) as Hy.
  unfold unitRank in H. cbv zeta in H.
  destruct (N.ltb_spec (N_of_ascii x) 238), (N.ltb_spec (N_of_ascii x) 240),
           (N.ltb_spec (N_of_ascii y) 238), (N.ltb_spec (N_of_ascii y) 240); lia.
Qed.

Lemma ltb_irrefl a : jsLtb a a = false.
Proof.
  induction a as [|x a IH]; [reflexivity|].
  cbn [jsLtb]. now rewrite Ascii.eqb_refl.
Qed.

Lemma ltb_trans a b c :
  jsLtb a b = true -> jsLtb b c = true -> jsLtb a c = true.
Proof.
  revert b c. induction a as [|x a IH]; intros [|y b] [|z c]; cbn [jsLtb];
    try congruence.
  destruct (Ascii.eqb_spec x y) as [->|Hxy].
  - destruct (Ascii.eqb y z); [apply IH | auto].
  - destruct (Ascii.eqb_spec y z) as [->|Hyz].
    + destruct (Ascii.eqb_spec x z); [congruence | auto].
    + intros H1 H2. apply N.ltb_lt in H1, H2.
      destruct (Ascii.eqb_spec x z) as [->|Hxz]; [lia|].
      apply N.ltb_lt. lia.
Qed.

Lemma ltb_total a b : jsLtb a b = false -> jsLtb b a = false -> a = b.
Proof.
  revert b. induction a as [|x a IH]; intros [|y b]; cbn [jsLtb];
    try congruence.
  rewrite (Ascii.eqb_sym y x).
  destruct (Ascii.eqb_spec x y) as [->|Hxy].
  - intros H1 H2. f_equal. now apply IH.
  - intros H1 H2. apply N.ltb_ge in H1, H2.
    exfalso. apply Hxy, unitRank_inj. lia.
Qed.

(** On ids whose bytes are all below 0xEE, that is without a character from
    U+E000 on, [<] is the order of the bytes. *)
Lemma jsLtb_bytes_below_EE a b :
  Forall (fun c => (N_of_ascii c < 238)%N) (list_ascii_of_string a) ->
  Forall (fun c => (N_of_ascii c < 238)%N) (list_ascii_of_string b) ->
  jsLtb a b = String.ltb a b.
Proof.
  unfold String.ltb.
  revert b. induction a as [|x a IH]; intros [|y b]; cbn [jsLtb String.compare list_ascii_of_string];
    try reflexivity.
  intros Ha Hb. inversion Ha as [|? ? Hx Ha']; inversion Hb as [|? ? Hy Hb']; subst.
  unfold Ascii.compare.
  destruct (Ascii.eqb_spec x y) as [->|Hxy].
  - rewrite N.compare_refl. now apply IH.
  - unfold unitRank. cbv zeta.
    rewrite (proj2 (N.ltb_lt _ _) Hx), (proj2 (N.ltb_lt _ _) Hy).
    destruct (N.compare_spec (N_of_ascii x) (N_of_ascii y)) as [E|E|E].
    + exfalso. apply Hxy.
      rewrite <- (ascii_N_embedding x), <- (ascii_N_embedding y). now f_equal.
    + now apply N.ltb_lt.
    + apply N.ltb_ge. lia.
Qed.

Lemma ltb_asym a b : jsLtb a b = true -> jsLtb b a = false.
Proof.
  intros Hab. destruct (jsLtb b a) eqn:Hba; [|reflexivity].
  pose proof (ltb_trans _ _ _ Hab Hba) as Habs.
  now rewrite ltb_irrefl in Habs.
Qed.

Lemma notAbove_refl a : notAbove a a.
Proof. apply ltb_irrefl. Qed.

Lemma notAbove_trans a b c : notAbove a b -> notAbove b c -> notAbove a c.
Proof.
  unfold notAbove. intros Hab Hbc.
  destruct (jsLtb c a) eqn:Hca; [|reflexivity].
  destruct (jsLtb a b) eqn:Hlt.
  - now rewrite (ltb_trans _ _ _ Hca Hlt) in Hbc.
  - rewrite (ltb_total _ _ Hlt Hab) in Hca. congruence.
Qed.

Lemma fold_min_spec l : forall m0,
  let m := fold_left (fun m x => if jsLtb x m then x else m) l m0 in
  (m = m0 \/ In m l) /\ notAbove m m0 /\ forall x, In x l -> notAbove m x.
Proof.
  induction l as [|x l IH]; intros m0; simpl.
  - split; [auto|]. split; [apply notAbove_refl | intros x []].
  - destruct (IH (if jsLtb x m0 then x else m0)) as (Hin & Hle & Hall).
    set (m := fold_left _ l _) in *.
    assert (H0 : notAbove (if jsLtb x m0 then x else m0) m0).
    { destruct (jsLtb x m0) eqn:E; [|apply notAbove_refl].
      now apply ltb_asym. }
    assert (Hx : notAbove (if jsLtb x m0 then x else m0) x).
    { destruct (jsLtb x m0) eqn:E; [apply notAbove_refl | exact E]. }
    split; [|split].
    + destruct Hin as [->|Hin]; [|auto].
      destruct (jsLtb x m0); auto.
    + eapply notAbove_trans; eassumption.
    + intros y [<-|Hy]; [|now apply Hall].
      eapply notAbove_trans; eassumption.
Qed.

(** [minMember] is a member that no member is below. *)
Lemma minMember_spec cycle :
  cycle <> [] ->
  In (minMember cycle) cycle /\ forall x, In x cycle -> notAbove (minMember cycle) x.
Proof.
  destruct cycle as [|a l]; [congruence|]. intros _.
  unfold minMember.
  destruct (fold_min_spec (a :: l) a) as (Hin & _ & Hall).
  cbn [hd]. split; [|exact Hall].
  destruct Hin as [->|Hin]; [now left | exact Hin].
Qed.

Lemma minMember_same c1 c2 :
  c1 <> [] -> (forall x, In x c1 <-> In x c2) -> minMember c1 = minMember c2.
Proof.
  intros Hne Hsame.
  assert (Hne2 : c2 <> []).
  { destruct c1 as [|a l]; [congruence|]. intros ->.
    apply (Hsame a). now left. }
  destruct (minMember_spec c1 Hne) as [Hin1 Hall1].
  destruct (minMember_spec c2 Hne2) as [Hin2 Hall2].
  apply ltb_total.
  - apply Hall2, Hsame, Hin1.
  - apply Hall1, Hsame, Hin2.
Qed.

Lemma indexOf_middle a m b : ~ In m a -> indexOf m (a ++ m :: b) = Some (length a).
Proof.
  induction a as [|x a IH]; simpl; intros Hm.
  - now rewrite String.eqb_refl.
  - destruct (String.eqb m x) eqn:E.
    + apply String.eqb_eq in E. subst. exfalso. auto.
    + rewrite IH by auto. reflexivity.
Qed.

Lemma normalize_at cycle a b :
  cycle = a ++ minMember cycle :: b -> ~ In (minMember cycle) a ->
  normalize cycle = minMember cycle :: b ++ a.
Proof.
  intros Hc Hm. unfold normalize.
  set (m := minMember cycle) in *.
  rewrite Hc at 1 2 3. rewrite indexOf_middle by exact Hm.
  rewrite Hc. rewrite skipn_app, firstn_app, Nat.sub_diag, skipn_all, firstn_all.
  simpl. now rewrite app_nil_r.
Qed.

(** Two rotations of a cycle without repeated account have the same
    canonical form. *)
Lemma normalize_rotation c1 c2 :
  List.NoDup c1 -> isRotation c1 c2 -> normalize c1 = normalize c2.
Proof.
  intros Hnd (l1 & l2 & H1 & H2).
  destruct c1 as [|x0 c1'].
  { symmetry in H1. apply app_eq_nil in H1. destruct H1 as [-> ->].
    now subst. }
  assert (Hne : x0 :: c1' <> []) by discriminate.
  set (c1 := x0 :: c1') in *.
  assert (Hsame : forall x, In x c1 <-> In x c2).
  { intros x. rewrite H1, H2, !in_app_iff. tauto. }
  assert (Hnd2 : List.NoDup c2).
  { rewrite H2. rewrite H1 in Hnd.
    eapply Permutation_NoDup; [apply Permutation_app_comm | exact Hnd]. }
  pose proof (minMember_same c1 c2 Hne Hsame) as Hmin.
  destruct (minMember_spec c1 Hne) as [Hin _].
  set (m := minMember c1) in *.
  apply in_split in Hin. destruct Hin as (a & b & Hab).
  assert (Hma : ~ In m a /\ ~ In m b).
  { rewrite Hab in Hnd. apply NoDup_remove_2 in Hnd.
    rewrite in_app_iff in Hnd. tauto. }
  rewrite (normalize_at c1 a b Hab (proj1 Hma)). fold m.
  assert (Hrot : exists a' b', c2 = a' ++ m :: b' /\ b' ++ a' = b ++ a).
  { rewrite Hab in H1. apply app_eq_app in H1.
    destruct H1 as (l & [[Ha Hl2]|[Hl1 Hb]]).
    - exists l, (b ++ l1). split.
      + rewrite H2, Hl2, <- app_assoc. reflexivity.
      + rewrite Ha, <- app_assoc. reflexivity.
    - destruct l as [|y l].
      + simpl in Hb. rewrite app_nil_r in Hl1. exists [], (b ++ a). split.
        * rewrite H2, <- Hb, Hl1. reflexivity.
        * now rewrite app_nil_r.
      + simpl in Hb. injection Hb as <- Hb.
        exists (l2 ++ a), l. split.
        * rewrite H2, Hl1, <- app_assoc. reflexivity.
        * rewrite Hb, <- app_assoc. reflexivity. }
  destruct Hrot as (a' & b' & Hc2 & Heq).
  assert (Hma' : ~ In m a').
  { rewrite Hc2 in Hnd2. apply NoDup_remove_2 in Hnd2.
    rewrite in_app_iff in Hnd2. tauto. }
  rewrite (normalize_at c2 a' b'); rewrite <- ?Hmin; auto.
  now rewrite Heq.
Qed.


(** The canonical form starts with the account that is below all the others
    in the order of [<]. *)
Lemma normalize_head_least c :
  c <> [] -> List.NoDup c ->
  forall x, In x (tl (normalize c)) ->
    jsLtb (hd EmptyString (normalize c)) x = true.
Proof.
  intros Hne Hnd x Hx.
  destruct (minMember_spec c Hne) as [Hin Hleast].
  set (m := minMember c) in *.
  apply in_split in Hin. destruct Hin as (a & b & Hab).
  assert (Hm : ~ In m (a ++ b)) by (rewrite Hab in Hnd; now apply NoDup_remove_2 in Hnd).
  rewrite (normalize_at c a b Hab) in * by (rewrite in_app_iff in Hm; tauto).
  fold m in Hx |- *. cbn [hd tl] in *.
  assert (Hxc : In x c).
  { rewrite Hab. rewrite in_app_iff in *. simpl. tauto. }
  destruct (jsLtb m x) eqn:E; [reflexivity|].
  exfalso. apply Hm. replace m with x.
  - rewrite in_app_iff in *. tauto.
  - apply ltb_total; [|exact E]. apply (Hleast x Hxc).
Qed.

(** An id that begins with a surrogate pair is below one that begins in
    U+E000..U+FFFF, although its first byte is the larger one. *)
Lemma jsLtb_pair_below_wide :
  jsLtb pairId wideA = true /\ String.ltb pairId wideA = false
  /\ normalize [wideA; wideB; pairId] = [pairId; wideA; wideB].
Proof. repeat split; vm_compute; reflexivity. Qed.

(** ** Deduplication by key *)

Lemma dedupe_fold cycles : forall seen unique,
  seen = List.map cycleKey unique -> List.NoDup seen ->
  let r := fold_left dedupeStep cycles (seen, unique) in
  fst r = List.map cycleKey (snd r)
  /\ List.NoDup (fst r)
  /\ (forall k, In k seen -> In k (fst r))
  /\ (forall c, In c cycles -> In (cycleKey (normalize c)) (fst r)).
Proof.
  induction cycles as [|c cycles IH]; intros seen unique Hseen Hnd; simpl.
  - repeat split; auto. intros c [].
  - unfold dedupeStep at 2.
    destruct (JSSet.has seen (cycleKey (normalize c))) eqn:E.
    + destruct (IH seen unique Hseen Hnd) as (H1 & H2 & H3 & H4).
      repeat split; auto. intros c' [<-|Hc']; [|auto].
      apply H3. now apply JSSetFacts.has_In.
    + destruct (IH (JSSet.add seen (cycleKey (normalize c)))
                  (unique ++ [normalize c])) as (H1 & H2 & H3 & H4).
      * unfold JSSet.add. rewrite E, map_app, Hseen. reflexivity.
      * now apply JSSetFacts.add_NoDup.
      * repeat split; auto.
        -- intros k Hk. apply H3, JSSetFacts.add_In. now left.
        -- intros c' [<-|Hc']; [|auto]. apply H3, JSSetFacts.add_In. now right.
Qed.

Lemma dedupeCycles_keys cycles :
  List.NoDup (List.map cycleKey (dedupeCycles cycles))
  /\ forall c, In c cycles ->
       In (cycleKey (normalize c)) (List.map cycleKey (dedupeCycles cycles)).
Proof.
  unfold dedupeCycles.
  destruct (dedupe_fold cycles [] [] eq_refl (List.NoDup_nil _))
    as (H1 & H2 & _ & H4).
  rewrite <- H1. auto.
Qed.



Lemma append_String c x t :
  String.append (String c x) t = String c (String.append x t).
Proof. reflexivity. Qed.

Lemma append_empty t : String.append EmptyString t = t.
Proof. reflexivity. Qed.

Lemma cycleKey_cons x l : cycleKey (x :: l) = String.append x (separatorTail l).
Proof.
  unfold cycleKey. destruct l as [|y l]; [|reflexivity].
  cbn [String.concat separatorTail].
  induction x as [|c x IH]; [reflexivity|].
  rewrite append_String. f_equal. exact IH.
Qed.

Lemma append_tail_inj x : forall y l1 l2,
  hasSeparator x = false -> hasSeparator y = false ->
  String.append x (separatorTail l1) = String.append y (separatorTail l2) ->
  x = y /\ separatorTail l1 = separatorTail l2.
Proof.
  induction x as [|c x IH]; intros y l1 l2 Hx Hy Heq.
  - destruct y as [|d y]; [auto|].
    rewrite append_empty, append_String in Heq. simpl in Hy.
    apply orb_false_iff in Hy. destruct Hy as [Hd _].
    destruct l1; simpl in Heq; [discriminate|].
    injection Heq as <- _. discriminate.
  - simpl in Hx. apply orb_false_iff in Hx. destruct Hx as [Hc Hx].
    rewrite append_String in Heq.
    destruct y as [|d y].
    + rewrite append_empty in Heq.
      destruct l2; simpl in Heq; [discriminate|].
      injection Heq as -> _. discriminate.
    + rewrite append_String in Heq.
      simpl in Hy. apply orb_false_iff in Hy. destruct Hy as [_ Hy].
      injection Heq as -> Heq.
      destruct (IH y l1 l2 Hx Hy Heq) as [-> Ht]. auto.
Qed.

(** Without the separator in the ids, the key determines the sequence. *)
Lemma cycleKey_inj l1 : forall l2,
  l1 <> [] -> l2 <> [] ->
  Forall (fun k => hasSeparator k = false) l1 ->
  Forall (fun k => hasSeparator k = false) l2 ->
  cycleKey l1 = cycleKey l2 -> l1 = l2.
Proof.
  induction l1 as [|x l1 IH]; intros l2 Hne1 Hne2 Hs1 Hs2 Heq; [congruence|].
  destruct l2 as [|y l2]; [congruence|].
  inversion Hs1 as [|? ? Hx Hl1]; inversion Hs2 as [|? ? Hy Hl2]; subst.
  rewrite !cycleKey_cons in Heq.
  destruct (append_tail_inj x y l1 l2 Hx Hy Heq) as [-> Ht].
  f_equal. destruct l1 as [|a l1], l2 as [|b l2]; simpl in Ht;
    try reflexivity; try discriminate.
  injection Ht as Ht. apply IH; auto; discriminate.
Qed.


(** ** Account scoring *)

Lemma analyzeGraph_accounts transactions g res :
  analyzeGraph transactions g = Some res ->
  suspicious_accounts res =
    scoreAccounts transactions (legitAccounts (computeStats g) transactions)
      (aggregate transactions g).
Proof.
  unfold analyzeGraph. destruct (mapM _ _); [|discriminate].
  intros [= <-]. reflexivity.
Qed.

Lemma scoreAccounts_In transactions legit st sa :
  In sa (scoreAccounts transactions legit st) ->
  exists k ringIds, In (k, ringIds) (acctRings st)
    /\ sa = scoreAccount transactions (acctPatterns st) k ringIds.
Proof.
  unfold scoreAccounts. rewrite sortBy_In.
  apply (fold_left_invariant
    (fun out => In sa out ->
       exists k ringIds, In (k, ringIds) (acctRings st)
         /\ sa = scoreAccount transactions (acctPatterns st) k ringIds)).
  - intros [].
  - intros out [k ringIds] Hin Hout. simpl.
    destruct (JSSet.has legit k); [exact Hout|].
    rewrite in_app_iff. intros [Hsa|[<-|[]]]; eauto.
Qed.

Lemma hd_In {A} (d : A) (l : list A) : l <> [] -> In (hd d l) l.
Proof. destruct l; [congruence | now left]. Qed.

Lemma last_In {A} (d : A) (l : list A) : l <> [] -> In (List.last l d) l.
Proof.
  induction l as [|x l IH]; [congruence|]. intros _.
  destruct l as [|y l]; [now left|]. right. apply IH. discriminate.
Qed.

(** The test of line 103, in terms of the transfers that touch the
    account. *)
Lemma highVelocity_true transactions k :
  (5 < length (touching transactions k))%nat ->
  (forall t1 t2, In t1 (touching transactions k) ->
     In t2 (touching transactions k) ->
     timestamp t2 - timestamp t1 < 24 * 3600000) ->
  highVelocity transactions k = true.
Proof.
  intros Hmany Hspan. unfold highVelocity.
  replace (1 <? length (touching transactions k))%nat with true
    by (symmetry; apply Nat.ltb_lt; lia).
  replace (5 <? length (touching transactions k))%nat with true
    by (symmetry; apply Nat.ltb_lt; lia).
  rewrite andb_true_r.
  set (sorted := sortBy byNumber (List.map timestamp (touching transactions k))).
  assert (Hne : sorted <> []).
  { intros Hnil. apply (f_equal (@length Z)) in Hnil. unfold sorted in Hnil.
    rewrite sortBy_length, length_map in Hnil. simpl in Hnil. lia. }
  assert (Hmem : forall z, In z sorted ->
            exists t, In t (touching transactions k) /\ timestamp t = z).
  { intros z Hz. unfold sorted in Hz. apply sortBy_In, in_map_iff in Hz.
    destruct Hz as (t & Ht & Hin). eauto. }
  destruct (Hmem _ (last_In 0 sorted Hne)) as (t2 & Ht2 & <-).
  destruct (Hmem _ (hd_In 0 sorted Hne)) as (t1 & Ht1 & <-).
  specialize (Hspan t1 t2 Ht1 Ht2).
  unfold Qltb, hoursOf, Qle_bool. simpl.
  apply negb_true_iff, Z.leb_gt. lia.
Qed.

(** C2 (amended). For every account of the suspicious-accounts output with
    more than 5 transfers touching it, all of them less than 24 hours apart
    (latest minus earliest), the score is the pattern score plus the
    velocity bonus of 15, capped at 100, and [detected_patterns] contains
    [high_velocity]. *)
Theorem velocity_bonus_when_all_transfers_within_24h transactions g res sa :
  buildAdjacency emptyGraph transactions = Some g ->
  analyzeTransactions transactions = Some res ->
  In sa (suspicious_accounts res) ->
  (5 < length (touching transactions (account_id sa)))%nat ->
  (forall t1 t2, In t1 (touching transactions (account_id sa)) ->
     In t2 (touching transactions (account_id sa)) ->
     timestamp t2 - timestamp t1 < 24 * 3600000) ->
  In "high_velocity" (detected_patterns sa)
  /\ exists ringIds,
       In (account_id sa, ringIds) (acctRings (aggregate transactions g))
       /\ suspicion_score sa =
            Z.min 100
              (patternScore
                 (default [] (JSMap.get (acctPatterns (aggregate transactions g))
                                (account_id sa)))
                 ringIds + 15).
Proof.
  intros Hg Hres Hsa Hmany Hspan.
  destruct (analyzeTransactions_inv _ _ Hres) as (g' & Hg' & Hres').
  rewrite Hg in Hg'. injection Hg' as <-.
  rewrite (analyzeGraph_accounts _ _ _ Hres') in Hsa.
  apply scoreAccounts_In in Hsa. destruct Hsa as (k & ringIds & Hin & ->).
  unfold scoreAccount in *. cbn [account_id detected_patterns suspicion_score] in *.
  rewrite (highVelocity_true transactions k Hmany Hspan).
  split; [apply JSSetFacts.add_In; now right|].
  exists ringIds. split; [exact Hin | reflexivity].
Qed.

(** ** Payroll classification: the ratio on a zero mean *)

Module FloatFacts.

Lemma round_aux_plus m e l : signClear (binary_round_aux prec emax false m e l).
Proof.
  unfold binary_round_aux.
  destruct (shr_fexp prec emax m e l) as [mrs' e'].
  destruct (shr_fexp prec emax _ e' loc_Exact) as [mrs'' e''].
  destruct (shr_m mrs''); simpl; auto.
  destruct (Z.leb e'' _); simpl; auto.
Qed.

Lemma round_plus m e : signClear (binary_round prec emax false m e).
Proof.
  unfold binary_round. destruct (shl_align _ _ _). apply round_aux_plus.
Qed.

Lemma leb_zero_nonneg a : (0 <=? a)%float = true -> nonNegative (Prim2SF a).
Proof.
  rewrite FloatAxioms.leb_spec. change (Prim2SF 0) with (S754_zero false).
  unfold SFleb. destruct (Prim2SF a) as [s|s| |s m e]; simpl; auto;
    try discriminate; destruct s; simpl; congruence.
Qed.

Lemma add_plus x y : signClear x -> nonNegative y -> signClear (SF64add x y).
Proof.
  unfold SF64add, SFadd.
  destruct x as [sx|sx| |sx mx ex], y as [sy|sy| |sy my ey]; simpl;
    intros Hx Hy; subst; auto; try contradiction;
    first [ reflexivity
          | destruct sy; reflexivity
          | apply round_plus
          | unfold binary_normalize; apply round_plus ].
Qed.

Lemma div_plus x y : signClear x -> signClear y -> signClear (SF64div x y).
Proof.
  unfold SF64div, SFdiv.
  destruct x as [sx|sx| |sx mx ex], y as [sy|sy| |sy my ey]; simpl;
    intros Hx Hy; subst; auto.
  destruct (SFdiv_core_binary _ _ _ _ _ _) as [[mz ez] lz].
  apply round_aux_plus.
Qed.

Lemma floatOfNat_plus n : signClear (Prim2SF (floatOfNat n)).
Proof.
  unfold floatOfNat. rewrite of_uint63_spec.
  pose proof (Uint63.to_Z_bounded (Uint63.of_Z (Z.of_nat n))) as [Hpos _].
  unfold binary_normalize.
  destruct (Uint63.to_Z _); [reflexivity | apply round_plus | lia].
Qed.

Lemma sum_plus amounts : forall s,
  signClear (Prim2SF s) ->
  Forall (fun a => (0 <=? a)%float = true) amounts ->
  signClear (Prim2SF (fold_left PrimFloat.add amounts s)).
Proof.
  induction amounts as [|a amounts IH]; intros s Hs Hall; simpl; [exact Hs|].
  inversion Hall as [|? ? Ha Hrest]; subst.
  apply IH; [|exact Hrest].
  rewrite FloatAxioms.add_spec. apply add_plus; [exact Hs | now apply leb_zero_nonneg].
Qed.

(** The mean of non-negative amounts is never the negative zero. *)
Lemma mean_plus amounts :
  Forall (fun a => (0 <=? a)%float = true) amounts ->
  signClear (Prim2SF (meanOf amounts)).
Proof.
  intros Hall. unfold meanOf. rewrite FloatAxioms.div_spec.
  apply div_plus; [|apply floatOfNat_plus].
  apply sum_plus; [reflexivity | exact Hall].
Qed.

Lemma eqb_zero_plus x :
  (x =? 0)%float = true -> signClear (Prim2SF x) -> x = 0%float.
Proof.
  rewrite FloatAxioms.eqb_spec. change (Prim2SF 0) with (S754_zero false).
  intros Heq Hp. apply Prim2SF_inj. change (Prim2SF 0) with (S754_zero false).
  unfold SFeqb in Heq.
  destruct (Prim2SF x) as [s|s| |s m e]; simpl in *; subst;
    try reflexivity; discriminate.
Qed.

(** [Math.sqrt(v) / 0] is NaN or +Infinity, and [< 0.15] fails on both. *)
Lemma ratio_on_zero v : (PrimFloat.sqrt v / 0 <? cvThreshold)%float = false.
Proof.
  rewrite FloatAxioms.ltb_spec, FloatAxioms.div_spec, FloatAxioms.sqrt_spec.
  change (Prim2SF 0) with (S754_zero false).
  assert (Hthr : exists m e, Prim2SF cvThreshold = S754_finite false m e).
  { eexists. eexists. vm_compute. reflexivity. }
  destruct Hthr as (m & e & ->).
  assert (Hs : signClear (SF64sqrt (Prim2SF v))
               \/ exists s, SF64sqrt (Prim2SF v) = S754_zero s).
  { unfold SF64sqrt, SFsqrt.
    destruct (Prim2SF v) as [s|s| |s mx ex]; simpl; eauto.
    - destruct s; simpl; auto.
    - destruct s; simpl; auto.
      destruct (SFsqrt_core_binary _ _ _ _) as [[mz ez] lz].
      left. apply round_aux_plus. }
  destruct Hs as [Hs|[s ->]]; [|reflexivity].
  destruct (SF64sqrt (Prim2SF v)) as [s|s| |s mx ex]; simpl in Hs; subst;
    reflexivity.
Qed.
End FloatFacts.

Lemma detectPayroll_In nodeStats transactions k :
  In k (detectPayroll nodeStats transactions) ->
  exists stats, In (k, stats) nodeStats /\ isPayroll transactions k stats = true.
Proof.
  unfold detectPayroll.
  apply (fold_left_invariant
    (fun payroll => In k payroll ->
       exists stats, In (k, stats) nodeStats
                     /\ isPayroll transactions k stats = true)).
  - intros [].
  - intros payroll [k' stats] Hin Hp. simpl.
    destruct (isPayroll transactions k' stats) eqn:E; [|exact Hp].
    intros Hk. apply JSSetFacts.add_In in Hk.
    destruct Hk as [Hk| ->]; [auto | eauto].
Qed.

(** C3 (amended). An account whose outgoing amounts are all non-negative and
    whose mean outgoing amount is 0 is never added to the payroll set.  No
    guard skips it: when its out-degree is at least 10 the ratio is
    evaluated with the zero mean as divisor, and the comparison with 0.15
    fails on the result (NaN or +Infinity). *)
Theorem zero_mean_is_not_payroll nodeStats transactions k :
  (forall t, In t transactions -> sender_id t = k ->
     (0 <=? amount t)%float = true) ->
  (meanOf (outgoingAmounts transactions k) =? 0)%float = true ->
  ~ In k (detectPayroll nodeStats transactions)
  /\ (forall stats, In (k, stats) nodeStats -> (10 <= outDegree stats)%nat ->
        In 0%float (payrollDivisors nodeStats transactions)).
Proof.
  intros Hpos Hmean.
  assert (Hzero : meanOf (outgoingAmounts transactions k) = 0%float).
  { apply FloatFacts.eqb_zero_plus; [exact Hmean|].
    apply FloatFacts.mean_plus. unfold outgoingAmounts.
    apply List.Forall_forall. intros a Ha. apply in_map_iff in Ha.
    destruct Ha as (t & <- & Ht). apply filter_In in Ht.
    destruct Ht as [Ht Hk]. apply String.eqb_eq in Hk. now apply Hpos. }
  split.
  - intros Hin. apply detectPayroll_In in Hin.
    destruct Hin as (stats & _ & Hpay). unfold isPayroll in Hpay.
    destruct (outDegree stats <? 10)%nat; [discriminate|].
    unfold uniformPayout in Hpay. rewrite Hzero in Hpay.
    now rewrite FloatFacts.ratio_on_zero in Hpay.
  - intros stats Hin Hdeg. unfold payrollDivisors. apply in_map_iff.
    exists (k, stats). split; [exact Hzero|]. apply filter_In.
    split; [exact Hin|]. simpl. apply negb_true_iff, Nat.ltb_ge. exact Hdeg.
Qed.

(** ** Ring membership of the graph nodes *)

Lemma has_set {V} (m : JSMap.t V) k v k0 :
  JSMap.has (JSMap.set m k v) k0 = true <-> JSMap.has m k0 = true \/ k0 = k.
Proof.
  rewrite !JSMapFacts.has_get.
  destruct (String.string_dec k0 k) as [->|Hne].
  - rewrite JSMapFacts.get_set_same. split; eauto.
  - rewrite JSMapFacts.get_set_other by exact Hne. split; [auto|].
    intros [H|H]; [exact H | contradiction].
Qed.

Lemma recordMember_fold ringId tag l : forall rings patterns k,
  let rings' := fst (fold_left (recordMember ringId tag) l (rings, patterns)) in
  default [] (JSMap.get rings' k)
  = default [] (JSMap.get rings k)
    ++ repeat ringId (count_occ String.string_dec l k)
  /\ (JSMap.has rings' k = true <-> JSMap.has rings k = true \/ In k l).
Proof.
  induction l as [|x l IH]; intros rings patterns k; simpl.
  - rewrite app_nil_r. tauto.
  - destruct (IH (JSMap.set rings x (default [] (JSMap.get rings x) ++ [ringId]))
                (JSMap.set patterns x
                   (JSSet.add (default [] (JSMap.get patterns x)) tag)) k)
      as [Hget Hhas].
    split.
    + rewrite Hget. destruct (String.string_dec x k) as [->|Hne].
      * rewrite JSMapFacts.get_set_same. simpl. now rewrite <- app_assoc.
      * rewrite JSMapFacts.get_set_other by congruence. reflexivity.
    + rewrite Hhas, has_set. intuition.
Qed.

Lemma ringIdsOf_snoc rings r k :
  ringIdsOf (rings ++ [r]) k
  = ringIdsOf rings k
    ++ repeat (ring_id r) (count_occ String.string_dec (member_accounts r) k).
Proof.
  unfold ringIdsOf. rewrite flat_map_app. simpl. now rewrite app_nil_r.
Qed.

Lemma addRing_recorded legit st members patternType baseScore patternTag :
  ringsRecorded legit st ->
  ringsRecorded legit (addRing legit st members patternType baseScore patternTag).
Proof.
  intros (Hids & Hhas & Hlegit). unfold addRing.
  set (filtered := survivors legit members).
  destruct (length filtered <? 2)%nat;
    [exact (conj Hids (conj Hhas Hlegit))|].
  set (ringId := ringIdOf (S (ringCounter st))).
  pose proof (recordMember_fold ringId patternTag filtered (acctRings st)
                (acctPatterns st)) as Hfold.
  destruct (fold_left _ filtered _) as [rings patterns]. simpl in Hfold.
  unfold ringsRecorded. cbn [acctRings fraudRings]. split; [|split].
  - intros k. rewrite ringIdsOf_snoc. cbn [ring_id member_accounts].
    rewrite (proj1 (Hfold k)), Hids. reflexivity.
  - intros k. rewrite (proj2 (Hfold k)), Hhas. split.
    + intros [(r & Hr & Hk)|Hk].
      * exists r. split; [apply in_app_iff; now left | exact Hk].
      * eexists. split; [apply in_app_iff; right; now left | exact Hk].
    + intros (r & Hr & Hk). apply in_app_iff in Hr.
      destruct Hr as [Hr|[<-|[]]]; [left; eauto | right; exact Hk].
  - intros r k Hr Hk. apply in_app_iff in Hr.
    destruct Hr as [Hr|[<-|[]]]; [eauto|].
    cbn [member_accounts] in Hk. unfold filtered, survivors in Hk.
    apply filter_In in Hk. now apply negb_true_iff.
Qed.

Lemma buildRings_recorded legit cycles smurfing shells :
  ringsRecorded legit (buildRings legit cycles smurfing shells).
Proof.
  unfold buildRings.
  repeat (apply fold_left_invariant;
          [|intros; now apply addRing_recorded]).
  repeat split; try reflexivity.
  - intros H. discriminate H.
  - intros (r & [] & _).
  - intros r k [].
Qed.

(** A graph node is flagged exactly when a ring lists its account, and its
    [ring_ids] holds the id of every ring as often as the ring lists the
    account: once per ring when no member list repeats an account. *)
Lemma graph_node_rings transactions res n :
  analyzeTransactions transactions = Some res ->
  In n (nodes (graph res)) ->
  (suspicious n = true <->
     exists r, In r (fraud_rings res) /\ In (id n) (member_accounts r))
  /\ ring_ids n = ringIdsOf (fraud_rings res) (id n).
Proof.
  intros Hres Hn.
  destruct (analyzeTransactions_inv _ _ Hres) as (g & Hg & Hres').
  unfold analyzeGraph in Hres'.
  set (legit := legitAccounts (computeStats g) transactions) in *.
  pose proof (buildRings_recorded legit
                (findCycles (adjList g) (allNodes g) 3 5)
                (detectSmurfing transactions (computeStats g))
                (detectShellNetworks (adjList g) (computeStats g) (allNodes g)))
    as Hrec.
  change (ringsRecorded legit (aggregate transactions g)) in Hrec.
  destruct Hrec as (Hids & Hhas & Hlegit).
  destruct (mapM _ (allNodes g)) as [graphNodes|] eqn:Hmap; [|discriminate].
  injection Hres' as <-. cbn [graph nodes fraud_rings] in *.
  apply mapM_Some_1 in Hmap.
  assert (Hk : exists k, graphNode (computeStats g) legit
                 (aggregate transactions g)
                 (scoreAccounts transactions legit (aggregate transactions g)) k
               = Some n).
  { clear -Hmap Hn. induction Hmap as [|k n' ks ns Hkn _ IH]; [destruct Hn|].
    destruct Hn as [->|Hn]; [eauto | auto]. }
  destruct Hk as [k Hk]. unfold graphNode in Hk.
  destruct (JSMap.get (computeStats g) k) as [s|]; [|discriminate].
  injection Hk as <-. cbn [suspicious id ring_ids].
  split; [|apply Hids].
  rewrite andb_true_iff, Hhas, negb_true_iff. split; [tauto|].
  intros (r & Hr & Hin). split; [eauto | exact (Hlegit r k Hr Hin)].
Qed.

(** ** The scenarios *)

Lemma pairwise_span (bound : Z) (l : list Transaction) :
  forallb
    (fun t1 => forallb (fun t2 => timestamp t2 - timestamp t1 <? bound) l) l
  = true ->
  forall t1 t2, In t1 l -> In t2 l -> timestamp t2 - timestamp t1 < bound.
Proof.
  intros Hall t1 t2 H1 H2. rewrite forallb_forall in Hall.
  specialize (Hall t1 H1). rewrite forallb_forall in Hall.
  apply Z.ltb_lt. now apply Hall.
Qed.

Lemma rings_have_two_members_none_legit_witness :
  buildAdjacency emptyGraph cycleBatch = Some (graphOf cycleBatch)
  /\ analyzeTransactions cycleBatch = Some (resultOf cycleBatch)
  /\ In (mkFraudRing "RING_001" ["A"; "B"; "C"] "cycle" 90)
       (fraud_rings (resultOf cycleBatch))
  /\ (2 <= 3)%nat
  /\ ~ In "A" (detectMerchants (computeStats (graphOf cycleBatch)) cycleBatch)
  /\ ~ In "A" (detectPayroll (computeStats (graphOf cycleBatch)) cycleBatch).
Proof.
  assert (Hg : buildAdjacency emptyGraph cycleBatch = Some (graphOf cycleBatch))
    by (vm_compute; reflexivity).
  assert (Hres : analyzeTransactions cycleBatch = Some (resultOf cycleBatch))
    by (vm_compute; reflexivity).
  assert (Hin : In (mkFraudRing "RING_001" ["A"; "B"; "C"] "cycle" 90)
                  (fraud_rings (resultOf cycleBatch)))
    by (vm_compute; left; reflexivity).
  destruct (rings_have_two_members_none_legit cycleBatch (graphOf cycleBatch)
              (resultOf cycleBatch) Hg Hres _ Hin) as [Hlen Hlegit].
  destruct (Hlegit "A" (or_introl eq_refl)) as [Hm Hp].
  repeat split; assumption.
Defined.

Lemma ring_risk_score_witness :
  buildAdjacency emptyGraph cycleBatch = Some (graphOf cycleBatch)
  /\ analyzeTransactions cycleBatch = Some (resultOf cycleBatch)
  /\ In (mkFraudRing "RING_001" ["A"; "B"; "C"] "cycle" 90)
       (fraud_rings (resultOf cycleBatch))
  /\ exists cycle,
       In cycle (findCycles (adjList (graphOf cycleBatch))
                   (allNodes (graphOf cycleBatch)) 3 5)
       /\ 90 = Z.min 100 (75 + 3 * Z.of_nat (length cycle) + 2 * 3).
Proof.
  assert (Hg : buildAdjacency emptyGraph cycleBatch = Some (graphOf cycleBatch))
    by (vm_compute; reflexivity).
  assert (Hres : analyzeTransactions cycleBatch = Some (resultOf cycleBatch))
    by (vm_compute; reflexivity).
  assert (Hin : In (mkFraudRing "RING_001" ["A"; "B"; "C"] "cycle" 90)
                  (fraud_rings (resultOf cycleBatch)))
    by (vm_compute; left; reflexivity).
  repeat split; try assumption.
  destruct (ring_risk_score cycleBatch (graphOf cycleBatch)
              (resultOf cycleBatch) Hg Hres _ Hin)
    as [(_ & cycle & Hc & _ & Hrisk & _)|[([Ht|Ht] & _)|(Ht & _)]];
    try discriminate Ht.
  exists cycle. split; [exact Hc | exact Hrisk].
Defined.

Lemma velocity_bonus_when_all_transfers_within_24h_witness :
  buildAdjacency emptyGraph fastBatch = Some (graphOf fastBatch)
  /\ analyzeTransactions fastBatch = Some (resultOf fastBatch)
  /\ In (mkSuspiciousAccount "A" 50 ["cycle_length_3"; "high_velocity"]
           (Some "RING_001"))
       (suspicious_accounts (resultOf fastBatch))
  /\ (5 < length (touching fastBatch "A"))%nat
  /\ In "high_velocity" ["cycle_length_3"; "high_velocity"].
Proof.
  assert (Hg : buildAdjacency emptyGraph fastBatch = Some (graphOf fastBatch))
    by (vm_compute; reflexivity).
  assert (Hres : analyzeTransactions fastBatch = Some (resultOf fastBatch))
    by (vm_compute; reflexivity).
  assert (Hin : In (mkSuspiciousAccount "A" 50
                      ["cycle_length_3"; "high_velocity"] (Some "RING_001"))
                  (suspicious_accounts (resultOf fastBatch)))
    by (vm_compute; left; reflexivity).
  assert (Hmany : (5 < length (touching fastBatch "A"))%nat)
    by (vm_compute; lia).
  assert (Hspan : forall t1 t2, In t1 (touching fastBatch "A") ->
                    In t2 (touching fastBatch "A") ->
                    timestamp t2 - timestamp t1 < 24 * 3600000)
    by (apply pairwise_span; vm_compute; reflexivity).
  pose proof (velocity_bonus_when_all_transfers_within_24h fastBatch
                (graphOf fastBatch) (resultOf fastBatch) _ Hg Hres Hin Hmany
                Hspan) as [Htag _].
  split; [exact Hg|]. split; [exact Hres|]. split; [exact Hin|].
  split; [exact Hmany | exact Htag].
Defined.

(** C2 fails as stated: in [slowBatch] six transfers that touch account A
    lie within six hours, a seventh follows three days later, and A gets no
    velocity bonus and no [high_velocity] tag. *)
Lemma velocity_bonus_counterexample :
  analyzeTransactions slowBatch = Some (resultOf slowBatch)
  /\ List.filter (fun t => timestamp t <=? 6 * hour) (touching slowBatch "A")
     = burst
  /\ (5 < length burst)%nat
  /\ (forall t1 t2, In t1 burst -> In t2 burst ->
        timestamp t2 - timestamp t1 < 24 * hour)
  /\ exists sa, In sa (suspicious_accounts (resultOf slowBatch))
       /\ account_id sa = "A"
       /\ ~ In "high_velocity" (detected_patterns sa)
       /\ suspicion_score sa = 35.
Proof.
  split; [vm_compute; reflexivity|].
  split; [vm_compute; reflexivity|].
  split; [vm_compute; lia|].
  split; [apply pairwise_span; vm_compute; reflexivity|].
  exists (mkSuspiciousAccount "A" 35 ["cycle_length_3"] (Some "RING_001")).
  split; [vm_compute; right; left; reflexivity|].
  split; [reflexivity|]. split; [|reflexivity].
  simpl. intros [H|[]]. discriminate H.
Qed.

Lemma zero_mean_is_not_payroll_witness :
  (meanOf (outgoingAmounts zeroPayoutBatch "P") =? 0)%float = true
  /\ ~ In "P" (detectPayroll (computeStats (graphOf zeroPayoutBatch))
                 zeroPayoutBatch)
  /\ In 0%float (payrollDivisors (computeStats (graphOf zeroPayoutBatch))
                   zeroPayoutBatch).
Proof.
  assert (Hmean : (meanOf (outgoingAmounts zeroPayoutBatch "P") =? 0)%float = true)
    by (vm_compute; reflexivity).
  assert (Hpos : forall t, In t zeroPayoutBatch -> sender_id t = "P" ->
                   (0 <=? amount t)%float = true).
  { intros t Ht _. revert t Ht. apply List.Forall_forall.
    unfold zeroPayoutBatch. simpl. repeat constructor. }
  destruct (zero_mean_is_not_payroll (computeStats (graphOf zeroPayoutBatch))
              zeroPayoutBatch "P" Hpos Hmean) as [Hnot Hdiv].
  repeat split; try assumption.
  apply (Hdiv (statsOf (graphOf zeroPayoutBatch) "P")).
  - vm_compute. left. reflexivity.
  - vm_compute. lia.
Defined.

(** C3 fails as stated: the ten zero payouts of account P pass the
    out-degree test and the ratio is evaluated with their mean, 0, as
    divisor.  (P is not added to the payroll set.) *)
Lemma zero_divisor_counterexample :
  buildAdjacency emptyGraph zeroPayoutBatch = Some (graphOf zeroPayoutBatch)
  /\ meanOf (outgoingAmounts zeroPayoutBatch "P") = 0%float
  /\ payrollDivisors (computeStats (graphOf zeroPayoutBatch)) zeroPayoutBatch
     = [0%float]
  /\ detectPayroll (computeStats (graphOf zeroPayoutBatch)) zeroPayoutBatch = [].
Proof. repeat split; vm_compute; reflexivity. Qed.



Lemma smurfing_threshold_inclusive_witness :
  hasHit "fan_in" "R" (detectSmurfing (fanInBatch 10) [])
  /\ ~ hasHit "fan_in" "R" (detectSmurfing (fanInBatch 9) []).
Proof.
  split.
  - apply (proj1 (smurfing_threshold_inclusive (fanInBatch 10) [] "R")).
    exists (transfer "F1" "S1" "R" 100 hour),
      (uniqueOf sender_id
         (sortBy byTimestamp (keyed receiver_id "R" (fanInBatch 10)))
         (transfer "F1" "S1" "R" 100 hour)).
    split; [vm_compute; left; reflexivity|]. split; [reflexivity|].
    split; [apply uniqueOf_counterparties | vm_compute; reflexivity].
  - apply (proj1 (proj2 (smurfing_threshold_inclusive (fanInBatch 9) [] "R"))).
    intros anchor ss Hin _ Hss.
    rewrite (counterparties_length receiver_id sender_id (fanInBatch 9) "R"
               anchor ss _ Hss
               (uniqueOf_counterparties receiver_id sender_id (fanInBatch 9)
                  "R" anchor)).
    clear Hss. revert anchor Hin. apply List.Forall_forall.
    unfold fanInBatch. simpl List.map.
    repeat (constructor; [vm_compute; lia|]). constructor.
Defined.

Lemma shell_chains_shape_witness :
  In ["O"; "S1"; "S2"; "S3"]
    (detectShellNetworks (adjList (graphOf shellBatch))
       (computeStats (graphOf shellBatch)) (allNodes (graphOf shellBatch)))
  /\ (4 <= 4 <= 8)%nat
  /\ exists s, JSMap.get (computeStats (graphOf shellBatch)) "S1" = Some s
               /\ (totalTransactions s <= 3)%nat.
Proof.
  assert (Hin : In ["O"; "S1"; "S2"; "S3"]
                  (detectShellNetworks (adjList (graphOf shellBatch))
                     (computeStats (graphOf shellBatch))
                     (allNodes (graphOf shellBatch))))
    by (vm_compute; left; reflexivity).
  destruct (shell_chains_shape (adjList (graphOf shellBatch))
              (computeStats (graphOf shellBatch))
              (allNodes (graphOf shellBatch))) as [_ Hall].
  destruct (Hall _ Hin) as (Hlen & _ & Hmid).
  split; [exact Hin|]. split; [exact Hlen|].
  apply (Hmid 1%nat "S1"); [lia | simpl; lia | reflexivity].
Defined.

(** C10 fails on [selfFanInBatch]: the batch yields one ring, RING_001, in
    which R is listed twice (as the receiver and as one of its ten senders),
    and the graph node of R carries the id of that ring twice. *)
Theorem self_transfer_repeats_ring_id :
  exists res, analyzeTransactions selfFanInBatch = Some res
    /\ List.map ring_id (fraud_rings res) = ["RING_001"]
    /\ List.map member_accounts (fraud_rings res)
       = [["R"; "R"; "S1"; "S2"; "S3"; "S4"; "S5"; "S6"; "S7"; "S8"; "S9"]]
    /\ exists n, In n (nodes (graph res)) /\ id n = "R"
         /\ suspicious n = true
         /\ ring_ids n = ["RING_001"; "RING_001"].
Proof.
  exists (resultOf selfFanInBatch).
  split; [vm_compute; reflexivity|].
  split; [vm_compute; reflexivity|].
  split; [vm_compute; reflexivity|].
  exists (mkGraphNode "R" true 55 ["RING_001"; "RING_001"] 10 1 1000 100).
  split; [vm_compute; left; reflexivity|]. repeat split.
Qed.

(** * The rest of the engine and its callers *)

(** ** Graph construction: lookups after the build *)

Lemma pushEdge_edgesOf obj k e obj' k' :
  pushEdge obj k e = Some obj' ->
  edgesOf obj' k' = if String.eqb k' k then edgesOf obj k ++ [e] else edgesOf obj k'.
Proof.
  unfold pushEdge, edgesOf. intros Hpush.
  assert (Hobj : obj' = <[k := default [] (obj !! k) ++ [e]]> obj).
  { revert Hpush. destruct (obj !! k); [simpl; congruence|].
    destruct (inherited k); [discriminate | simpl; congruence]. }
  subst obj'. destruct (String.eqb k' k) eqn:E.
  - apply String.eqb_eq in E. subst k'. now rewrite lookup_insert_eq.
  - apply String.eqb_neq in E. now rewrite lookup_insert_ne by congruence.
Qed.

Lemma buildAdjacency_lookup transactions : forall g g',
  buildAdjacency g transactions = Some g' ->
  (forall k, edgesOf (adjList g') k
             = edgesOf (adjList g) k
               ++ List.map outEdge (keyed sender_id k transactions))
  /\ (forall k, edgesOf (reverseAdj g') k
                = edgesOf (reverseAdj g) k
                  ++ List.map inEdge (keyed receiver_id k transactions))
  /\ allNodes g' = fold_left JSSet.add (accountIds transactions) (allNodes g).
Proof.
  induction transactions as [|t rest IH]; intros g g'; simpl.
  - intros [= <-]. repeat split; intros; rewrite ?app_nil_r; reflexivity.
  - unfold addTransaction.
    destruct (pushEdge (adjList g) _ _) as [adj1|] eqn:E1; [|discriminate].
    destruct (pushEdge (reverseAdj g) _ _) as [rev1|] eqn:E2; [|discriminate].
    intros Hbuild. destruct (IH _ _ Hbuild) as (Ha & Hr & Hn).
    cbn [adjList reverseAdj allNodes] in *. split; [|split].
    + intros k. rewrite Ha, (pushEdge_edgesOf _ _ _ _ k E1).
      unfold keyed. simpl. rewrite (String.eqb_sym k).
      destruct (String.eqb (sender_id t) k) eqn:E; simpl; [|reflexivity].
      apply String.eqb_eq in E. subst k. now rewrite <- app_assoc.
    + intros k. rewrite Hr, (pushEdge_edgesOf _ _ _ _ k E2).
      unfold keyed. simpl. rewrite (String.eqb_sym k).
      destruct (String.eqb (receiver_id t) k) eqn:E; simpl; [|reflexivity].
      apply String.eqb_eq in E. subst k. now rewrite <- app_assoc.
    + exact Hn.
Qed.

Lemma buildAdjacency_edges transactions g k :
  buildAdjacency emptyGraph transactions = Some g ->
  edgesOf (adjList g) k = List.map outEdge (keyed sender_id k transactions)
  /\ edgesOf (reverseAdj g) k
     = List.map inEdge (keyed receiver_id k transactions).
Proof.
  intros Hg. destruct (buildAdjacency_lookup _ _ _ Hg) as (Ha & Hr & _).
  rewrite Ha, Hr. split; reflexivity.
Qed.

(** X1. After the build the forward list of an account holds one edge for
    each transfer it sent, in batch order, and its reverse list one edge for
    each transfer it received; an account that sent (received) nothing has
    the empty list. *)
Theorem adjacency_lists_hold_the_transfers transactions g k :
  buildAdjacency emptyGraph transactions = Some g ->
  edgesOf (adjList g) k = List.map outEdge (keyed sender_id k transactions)
  /\ edgesOf (reverseAdj g) k
     = List.map inEdge (keyed receiver_id k transactions).
Proof.
  apply buildAdjacency_edges.
Qed.

Lemma adjacency_lists_hold_the_transfers_witness :
  buildAdjacency emptyGraph cycleBatch = Some (graphOf cycleBatch)
  /\ edgesOf (adjList (graphOf cycleBatch)) "A"
     = [mkEdgeInfo "B" 100 0 "T1"]
  /\ edgesOf (reverseAdj (graphOf cycleBatch)) "A"
     = [mkEdgeInfo "C" 100 (2 * hour) "T3"].
Proof.
  assert (Hg : buildAdjacency emptyGraph cycleBatch = Some (graphOf cycleBatch))
    by (vm_compute; reflexivity).
  destruct (adjacency_lists_hold_the_transfers cycleBatch _ "A" Hg) as [Ha Hr].
  split; [exact Hg|]. split; [exact Ha | exact Hr].
Defined.

Lemma graph_nodes_of transactions g res :
  buildAdjacency emptyGraph transactions = Some g ->
  analyzeTransactions transactions = Some res ->
  Forall2
    (fun k n =>
       graphNode (computeStats g) (legitAccounts (computeStats g) transactions)
         (aggregate transactions g)
         (scoreAccounts transactions
            (legitAccounts (computeStats g) transactions)
            (aggregate transactions g)) k = Some n)
    (allNodes g) (nodes (graph res)).
Proof.
  intros Hg Hres.
  destruct (analyzeTransactions_inv _ _ Hres) as (g' & Hg' & Hres').
  rewrite Hg in Hg'. injection Hg' as <-.
  unfold analyzeGraph in Hres'.
  destruct (mapM _ (allNodes g)) as [graphNodes|] eqn:Hmap; [|discriminate].
  injection Hres' as <-. cbn [graph nodes].
  now apply mapM_Some_1.
Qed.

Lemma graph_node_ids transactions g res :
  buildAdjacency emptyGraph transactions = Some g ->
  analyzeTransactions transactions = Some res ->
  List.map id (nodes (graph res)) = allNodes g.
Proof.
  intros Hg Hres. pose proof (graph_nodes_of _ _ _ Hg Hres) as Hall.
  induction Hall as [|k n ks ns Hkn _ IH]; [reflexivity|].
  simpl. rewrite IH. f_equal. unfold graphNode in Hkn.
  destruct (JSMap.get _ k); [|discriminate]. now injection Hkn as <-.
Qed.

Lemma analyzeGraph_summary transactions g res :
  analyzeGraph transactions g = Some res ->
  summary res
  = mkSummary (length (allNodes g)) (length (suspicious_accounts res))
      (length (fraud_rings res)).
Proof.
  unfold analyzeGraph. destruct (mapM _ _); [|discriminate].
  intros [= <-]. reflexivity.
Qed.

Lemma accountIds_In transactions k :
  In k (accountIds transactions) <->
  exists t, In t transactions /\ (sender_id t = k \/ receiver_id t = k).
Proof.
  unfold accountIds. rewrite in_flat_map. split.
  - intros (t & Ht & [Hk|[Hk|[]]]); eauto.
  - intros (t & Ht & [Hk|Hk]); exists t; simpl; auto.
Qed.

(** X2. The graph of the result has one node per account of the batch: the
    node ids are the sender and receiver ids in the order of their first
    appearance, without repetition, and [total_accounts_analyzed] counts
    them. *)
Theorem graph_has_one_node_per_account transactions res :
  analyzeTransactions transactions = Some res ->
  List.map id (nodes (graph res)) = JSSet.ofList (accountIds transactions)
  /\ List.NoDup (List.map id (nodes (graph res)))
  /\ (forall k, In k (List.map id (nodes (graph res))) <->
        exists t, In t transactions /\ (sender_id t = k \/ receiver_id t = k))
  /\ total_accounts_analyzed (summary res) = length (nodes (graph res)).
Proof.
  intros Hres.
  destruct (analyzeTransactions_inv _ _ Hres) as (g & Hg & Hres').
  rewrite (graph_node_ids _ _ _ Hg Hres).
  destruct (buildAdjacency_lookup _ _ _ Hg) as (_ & _ & Hn).
  change (allNodes g = JSSet.ofList (accountIds transactions)) in Hn.
  rewrite Hn.
  split; [reflexivity|]. split; [apply JSSetFacts.ofList_NoDup|].
  split.
  - intros k. now rewrite JSSetFacts.ofList_In, accountIds_In.
  - rewrite (analyzeGraph_summary _ _ _ Hres'). cbn [total_accounts_analyzed].
    rewrite <- (graph_node_ids _ _ _ Hg Hres). now rewrite length_map.
Qed.

Lemma graph_has_one_node_per_account_witness :
  analyzeTransactions cycleBatch = Some (resultOf cycleBatch)
  /\ List.map id (nodes (graph (resultOf cycleBatch))) = ["A"; "B"; "C"]
  /\ total_accounts_analyzed (summary (resultOf cycleBatch)) = 3%nat.
Proof.
  assert (Hres : analyzeTransactions cycleBatch = Some (resultOf cycleBatch))
    by (vm_compute; reflexivity).
  destruct (graph_has_one_node_per_account cycleBatch _ Hres)
    as (Hids & _ & _ & Hcount).
  split; [exact Hres|]. split; [rewrite Hids; vm_compute; reflexivity|].
  rewrite Hcount. vm_compute. reflexivity.
Defined.

Lemma sumAmounts_map (f : Transaction -> EdgeInfo) l :
  (forall t, info_amount (f t) = amount t) ->
  sumAmounts (List.map f l) = transferred l.
Proof.
  intros Hf. unfold sumAmounts, transferred. generalize 0%float.
  induction l as [|t l IH]; intros s; simpl; [reflexivity|].
  rewrite Hf. apply IH.
Qed.

(** X3. The statistics of a graph node are those of its account in the
    batch: [in_degree] and [out_degree] count the transfers it received and
    sent, and the two amounts are the sums, in batch order and starting
    from 0, of the amounts received and sent. *)
Theorem node_statistics_of_the_batch transactions res n :
  analyzeTransactions transactions = Some res ->
  In n (nodes (graph res)) ->
  in_degree n = length (keyed receiver_id (id n) transactions)
  /\ out_degree n = length (keyed sender_id (id n) transactions)
  /\ total_amount_in n = transferred (keyed receiver_id (id n) transactions)
  /\ total_amount_out n = transferred (keyed sender_id (id n) transactions).
Proof.
  intros Hres Hn.
  destruct (analyzeTransactions_inv _ _ Hres) as (g & Hg & _).
  pose proof (graph_nodes_of _ _ _ Hg Hres) as Hall.
  assert (Hk : exists k, In k (allNodes g)
                 /\ graphNode (computeStats g)
                      (legitAccounts (computeStats g) transactions)
                      (aggregate transactions g)
                      (scoreAccounts transactions
                         (legitAccounts (computeStats g) transactions)
                         (aggregate transactions g)) k = Some n).
  { clear -Hall Hn. induction Hall as [|k n' ks ns Hkn _ IH]; [destruct Hn|].
    destruct Hn as [->|Hn].
    - exists k. split; [now left | exact Hkn].
    - destruct (IH Hn) as (k' & Hk' & Hn'). exists k'. split; [now right | exact Hn']. }
  destruct Hk as (k & Hin & Hk). unfold graphNode, computeStats in Hk.
  rewrite (JSMapFacts.get_map (statsOf g) (allNodes g) k Hin) in Hk.
  injection Hk as <-. cbn [in_degree out_degree total_amount_in total_amount_out id].
  unfold statsOf. cbn [inDegree outDegree totalAmountIn totalAmountOut].
  destruct (buildAdjacency_edges transactions g k Hg) as [Ha Hr].
  rewrite Ha, Hr, !length_map.
  rewrite !sumAmounts_map by reflexivity. repeat split.
Qed.

Lemma node_statistics_of_the_batch_witness :
  analyzeTransactions cycleBatch = Some (resultOf cycleBatch)
  /\ List.map out_degree (nodes (graph (resultOf cycleBatch))) = [1; 1; 1]%nat.
Proof.
  assert (Hres : analyzeTransactions cycleBatch = Some (resultOf cycleBatch))
    by (vm_compute; reflexivity).
  split; [exact Hres|].
  assert (Hall : Forall (fun n => out_degree n
                   = length (keyed sender_id (id n) cycleBatch))
                   (nodes (graph (resultOf cycleBatch)))).
  { apply List.Forall_forall. intros n Hn.
    exact (proj1 (proj2 (node_statistics_of_the_batch cycleBatch _ n Hres Hn))). }
  vm_compute in Hall. vm_compute.
  repeat match goal with H : Forall _ (_ :: _) |- _ => inversion H; clear H; subst end.
  congruence.
Defined.

(** ** Ring ids *)

Lemma substring_all s : String.substring 0 (String.length s) s = s.
Proof. induction s as [|c s IH]; simpl; [reflexivity | now rewrite IH]. Qed.

Lemma uint_of_zeros k s :
  NilEmpty.uint_of_string (String.append (zeros k) s)
  = option_map (Nat.iter k Decimal.D0) (NilEmpty.uint_of_string s).
Proof.
  induction k as [|k IH]; cbn [zeros Nat.iter nat_rect].
  - rewrite append_empty. now destruct (NilEmpty.uint_of_string s).
  - rewrite append_String. cbn [NilEmpty.uint_of_string].
    rewrite IH. now destruct (NilEmpty.uint_of_string s).
Qed.

Lemma of_uint_zeros k d : Nat.of_uint (Nat.iter k Decimal.D0 d) = Nat.of_uint d.
Proof.
  induction k as [|k IH]; [reflexivity|].
  rewrite <- IH. reflexivity.
Qed.

Lemma stringOfNat_digits n :
  exists d, NilEmpty.uint_of_string (stringOfNat n) = Some d
            /\ Nat.of_uint d = n.
Proof.
  unfold stringOfNat, NilZero.string_of_uint.
  pose proof (DecimalNat.Unsigned.of_to n) as Hn.
  destruct (Nat.to_uint n) eqn:E;
    try (eexists; split; [apply NilEmpty.usu | exact Hn]).
  exists (Decimal.D0 Decimal.Nil). split; [reflexivity | exact Hn].
Qed.

(** The counter of a ring can be read back from its id. *)
Lemma counterOf_ringIdOf n : counterOf (ringIdOf n) = Some n.
Proof.
  unfold counterOf, ringIdOf.
  set (s := padStart3 (stringOfNat n)).
  rewrite !append_String, append_empty. simpl.
  replace (String.length s - 0)%nat with (String.length s) by lia.
  rewrite substring_all. unfold s, padStart3.
  destruct (stringOfNat_digits n) as (d & Hd & Hn).
  rewrite uint_of_zeros, Hd. cbn [option_map].
  rewrite of_uint_zeros, Hn.
  now destruct (String.append _ _).
Qed.

Lemma ringIdOf_inj n m : ringIdOf n = ringIdOf m -> n = m.
Proof.
  intros H. apply (f_equal counterOf) in H.
  rewrite !counterOf_ringIdOf in H. congruence.
Qed.

Lemma addRing_counter legit st members patternType baseScore patternTag :
  ringCounter st = length (fraudRings st) ->
  List.map ring_id (fraudRings st)
  = List.map ringIdOf (seq 1 (length (fraudRings st))) ->
  let st' := addRing legit st members patternType baseScore patternTag in
  ringCounter st' = length (fraudRings st')
  /\ List.map ring_id (fraudRings st')
     = List.map ringIdOf (seq 1 (length (fraudRings st'))).
Proof.
  intros Hc Hids st'. subst st'.
  destruct (addRing_cases legit st members patternType baseScore patternTag)
    as [->|(_ & Hc' & ->)]; [auto|].
  rewrite Hc', length_app, Nat.add_comm. cbn [length plus].
  split; [now rewrite Hc|].
  rewrite seq_S, !map_app, Hids, Hc. reflexivity.
Qed.

Lemma buildRings_counter legit cycles smurfing shells :
  let st := buildRings legit cycles smurfing shells in
  ringCounter st = length (fraudRings st)
  /\ List.map ring_id (fraudRings st)
     = List.map ringIdOf (seq 1 (length (fraudRings st))).
Proof.
  unfold buildRings.
  repeat (apply (fold_left_invariant
            (fun st => ringCounter st = length (fraudRings st)
                       /\ List.map ring_id (fraudRings st)
                          = List.map ringIdOf (seq 1 (length (fraudRings st)))));
          [|intros st x _ [Hc Hi]; now apply addRing_counter]).
  split; reflexivity.
Qed.

(** X4. Ring ids are assigned in sequence: the n-th ring of the result has
    the id made of [RING_] and n, zero-padded to three digits; the ids are
    pairwise distinct, and [fraud_rings_detected] is their number. *)
Theorem ring_ids_are_sequential transactions res :
  analyzeTransactions transactions = Some res ->
  List.map ring_id (fraud_rings res)
  = List.map ringIdOf (seq 1 (length (fraud_rings res)))
  /\ List.NoDup (List.map ring_id (fraud_rings res))
  /\ fraud_rings_detected (summary res) = length (fraud_rings res).
Proof.
  intros Hres.
  destruct (analyzeTransactions_inv _ _ Hres) as (g & Hg & Hres').
  rewrite (analyzeGraph_summary _ _ _ Hres'). cbn [fraud_rings_detected].
  rewrite (analyzeGraph_rings _ _ _ Hres').
  destruct (buildRings_counter
              (legitAccounts (computeStats g) transactions)
              (findCycles (adjList g) (allNodes g) 3 5)
              (detectSmurfing transactions (computeStats g))
              (detectShellNetworks (adjList g) (computeStats g) (allNodes g)))
    as [_ Hids].
  split; [exact Hids|]. split; [|reflexivity].
  rewrite Hids. apply Finite.Injective_map_NoDup; [|apply seq_NoDup].
  intros n m. apply ringIdOf_inj.
Qed.

Lemma ring_ids_are_sequential_witness :
  analyzeTransactions selfFanInBatch = Some (resultOf selfFanInBatch)
  /\ List.map ring_id (fraud_rings (resultOf selfFanInBatch)) = ["RING_001"].
Proof.
  assert (Hres : analyzeTransactions selfFanInBatch
                 = Some (resultOf selfFanInBatch))
    by (vm_compute; reflexivity).
  destruct (ring_ids_are_sequential selfFanInBatch _ Hres) as (Hids & _ & _).
  split; [exact Hres|]. rewrite Hids. vm_compute. reflexivity.
Defined.

(** ** The stable sort: order and stability *)

Lemma before_cons {A} (a b z : A) l :
  before a b (z :: l) <-> (a = z /\ In b l) \/ before a b l.
Proof.
  split.
  - intros (l1 & l2 & Hl & Hb). destruct l1 as [|z' l1]; simpl in Hl.
    + injection Hl as -> ->. now left.
    + injection Hl as -> ->. right. now exists l1, l2.
  - intros [[-> Hb]|(l1 & l2 & -> & Hb)].
    + now exists [], l.
    + now exists (z :: l1), l2.
Qed.

Lemma before_nil {A} (a b : A) : ~ before a b [].
Proof. intros (l1 & l2 & Hl & _). now destruct l1. Qed.

Lemma before_app {A} (a b : A) s1 s2 :
  before a b (s1 ++ s2) <->
  before a b s1 \/ (In a s1 /\ In b s2) \/ before a b s2.
Proof.
  induction s1 as [|z s1 IH]; simpl.
  - split; [auto|]. intros [H|[[[] _]|H]]; [now apply before_nil in H | exact H].
  - rewrite !before_cons, IH, in_app_iff. intuition.
Qed.

Lemma before_map {A B} (f : A -> B) (a b : A) l :
  before a b l -> before (f a) (f b) (List.map f l).
Proof.
  intros (l1 & l2 & -> & Hb). exists (List.map f l1), (List.map f l2).
  rewrite map_app. split; [reflexivity | now apply in_map].
Qed.

Lemma insertBy_split {A} (cmp : A -> A -> Z) x l :
  exists l1 l2, l = l1 ++ l2 /\ insertBy cmp x l = l1 ++ x :: l2
                /\ Forall (fun y => 0 < cmp x y) l1.
Proof.
  induction l as [|y l (l1 & l2 & Hl & Hins & Hall)]; simpl.
  - exists [], []. repeat split. constructor.
  - destruct (cmp x y <=? 0) eqn:E.
    + exists [], (y :: l). repeat split. constructor.
    + exists (y :: l1), l2. simpl. rewrite Hins, <- Hl. repeat split.
      constructor; [|exact Hall]. apply Z.leb_gt in E. exact E.
Qed.

Lemma sortBy_Permutation {A} (cmp : A -> A -> Z) l : Permutation l (sortBy cmp l).
Proof.
  induction l as [|x l IH]; simpl; [constructor|].
  destruct (insertBy_split cmp x (sortBy cmp l)) as (l1 & l2 & Hl & -> & _).
  rewrite Hl in IH. rewrite IH. apply Permutation_middle.
Qed.

(** Two elements that the comparison does not put in the other order keep
    the order of the input. *)
Lemma sortBy_stable {A} (cmp : A -> A -> Z) l a b :
  before a b (sortBy cmp l) -> cmp b a <= 0 -> before a b l.
Proof.
  intros Hbefore Hcmp. revert Hbefore.
  induction l as [|x l IH]; simpl; [auto|]. intros Hbefore.
  apply before_cons.
  destruct (insertBy_split cmp x (sortBy cmp l)) as (l1 & l2 & Hl & Hins & Hall).
  rewrite Hins in Hbefore. apply before_app in Hbefore.
  assert (Hin : forall y, In y (l1 ++ l2) -> In y l)
    by (intros y; rewrite <- Hl; apply sortBy_In).
  destruct Hbefore as [H|[[Ha [<-|Hb]]|H]].
  - right. apply IH. rewrite Hl. apply before_app. now left.
  - rewrite List.Forall_forall in Hall. specialize (Hall a Ha). lia.
  - right. apply IH. rewrite Hl. apply before_app. right. left. now split.
  - apply before_cons in H. destruct H as [[-> Hb]|H].
    + left. split; [reflexivity|]. apply Hin, in_app_iff. now right.
    + right. apply IH. rewrite Hl. apply before_app. now right; right.
Qed.

Section SortedBy.
Context {A : Type} (cmp : A -> A -> Z).
Hypothesis cmp_total : forall a b, 0 < cmp a b -> cmp b a <= 0.
Hypothesis cmp_trans : forall a b c, cmp a b <= 0 -> cmp b c <= 0 -> cmp a c <= 0.

Lemma insertBy_sorted x l :
  Sorted.StronglySorted (fun a b => cmp a b <= 0) l ->
  Sorted.StronglySorted (fun a b => cmp a b <= 0) (insertBy cmp x l).
Proof.
  induction l as [|y l IH]; simpl; intros Hs.
  - constructor; constructor.
  - inversion Hs as [|? ? Hl Hy]; subst.
    destruct (cmp x y <=? 0) eqn:E.
    + apply Z.leb_le in E. constructor; [exact Hs|].
      constructor; [exact E|].
      eapply List.Forall_impl; [|exact Hy]. intros z Hz. eauto.
    + apply Z.leb_gt in E. constructor; [now apply IH|].
      apply List.Forall_forall. intros z Hz. apply insertBy_In in Hz.
      destruct Hz as [->|Hz]; [now apply cmp_total|].
      rewrite List.Forall_forall in Hy. now apply Hy.
Qed.

Lemma sortBy_sorted l :
  Sorted.StronglySorted (fun a b => cmp a b <= 0) (sortBy cmp l).
Proof.
  induction l as [|x l IH]; simpl; [constructor | now apply insertBy_sorted].
Qed.
End SortedBy.

Lemma StronglySorted_weaken {A} (R S : A -> A -> Prop) l :
  (forall a b, R a b -> S a b) ->
  Sorted.StronglySorted R l -> Sorted.StronglySorted S l.
Proof.
  intros HRS. induction 1 as [|a l _ IH Hall]; constructor; [exact IH|].
  eapply List.Forall_impl; [|exact Hall]. intros b. apply HRS.
Qed.

(** ** What the aggregator records about the accounts *)

Lemma set_keys_add {V} (m : JSMap.t V) k v :
  List.map fst (JSMap.set m k v) = JSSet.add (List.map fst m) k.
Proof.
  unfold JSSet.add, JSSet.has.
  induction m as [|[k' v'] m IH]; simpl; [reflexivity|].
  destruct (String.eqb k k') eqn:E; simpl; [reflexivity|].
  rewrite IH. now destruct (existsb (String.eqb k) (List.map fst m)).
Qed.

Lemma get_of_In {V} (m : JSMap.t V) k v :
  List.NoDup (List.map fst m) -> In (k, v) m -> JSMap.get m k = Some v.
Proof.
  unfold JSMap.get. induction m as [|[k' v'] m IH]; simpl; [intros _ []|].
  intros Hnd Hin. inversion Hnd as [|? ? Hk' Hm]; subst.
  destruct Hin as [[= -> ->]|Hin]; [now rewrite String.eqb_refl|].
  destruct (String.eqb k k') eqn:E; [|now apply IH].
  apply String.eqb_eq in E. subst k'. exfalso. apply Hk'.
  now apply (in_map fst) in Hin.
Qed.

Lemma keys_has {V} (m : JSMap.t V) k :
  JSMap.has m k = true <-> In k (List.map fst m).
Proof.
  unfold JSMap.has. rewrite existsb_exists, in_map_iff. split.
  - intros (kv & Hin & Hk). apply String.eqb_eq in Hk. eauto.
  - intros (kv & <- & Hin). exists kv. split; [exact Hin | apply String.eqb_refl].
Qed.

Lemma ofList_app l1 l2 :
  JSSet.ofList (l1 ++ l2) = fold_left JSSet.add l2 (JSSet.ofList l1).
Proof. unfold JSSet.ofList. apply fold_left_app. Qed.

Lemma ringMembers_snoc rings r :
  ringMembers (rings ++ [r])
  = fold_left JSSet.add (member_accounts r) (ringMembers rings).
Proof.
  unfold ringMembers. rewrite flat_map_app, ofList_app. simpl.
  now rewrite app_nil_r.
Qed.

Lemma ringMembers_In rings k :
  In k (ringMembers rings) <-> exists r, In r rings /\ In k (member_accounts r).
Proof.
  unfold ringMembers. rewrite JSSetFacts.ofList_In, in_flat_map. reflexivity.
Qed.

Lemma recordMember_keys ringId tag l : forall rings patterns,
  List.map fst (fst (fold_left (recordMember ringId tag) l (rings, patterns)))
  = fold_left JSSet.add l (List.map fst rings).
Proof.
  induction l as [|x l IH]; intros rings patterns; simpl; [reflexivity|].
  rewrite IH, set_keys_add. reflexivity.
Qed.

Lemma recordMember_patterns ringId tag l : forall rings patterns k,
  let patterns' := snd (fold_left (recordMember ringId tag) l (rings, patterns)) in
  (forall x, In x (default [] (JSMap.get patterns' k)) <->
             In x (default [] (JSMap.get patterns k)) \/ (x = tag /\ In k l))
  /\ (List.NoDup (default [] (JSMap.get patterns k)) ->
      List.NoDup (default [] (JSMap.get patterns' k))).
Proof.
  induction l as [|x l IH]; intros rings patterns k; simpl.
  - split; [|auto]. intros y. tauto.
  - destruct (IH (JSMap.set rings x (default [] (JSMap.get rings x) ++ [ringId]))
                (JSMap.set patterns x
                   (JSSet.add (default [] (JSMap.get patterns x)) tag)) k)
      as [Hin Hnd].
    destruct (String.string_dec x k) as [->|Hne].
    + rewrite JSMapFacts.get_set_same in Hin, Hnd. simpl in Hin, Hnd. split.
      * intros y. rewrite Hin, JSSetFacts.add_In. intuition.
      * intros H. now apply Hnd, JSSetFacts.add_NoDup.
    + rewrite JSMapFacts.get_set_other in Hin, Hnd by congruence. split.
      * intros y. rewrite Hin. intuition.
      * exact Hnd.
Qed.

Lemma knownTag_kind tag : knownTag tag -> In (kindOf tag) ringKinds.
Proof.
  unfold knownTag, kindOf, ringKinds.
  intros [->|Hin]; [now left|].
  destruct Hin as [<-|[<-|[<-|[]]]]; simpl; auto.
Qed.

Lemma addRing_patterns legit st members patternType baseScore patternTag :
  knownTag patternTag -> kindOf patternTag = patternType ->
  patternsRecorded st ->
  patternsRecorded (addRing legit st members patternType baseScore patternTag).
Proof.
  intros Hknown Hkind (Hkeys & Htags & Hrings & Hkinds & Hnd). unfold addRing.
  set (filtered := survivors legit members).
  destruct (length filtered <? 2)%nat;
    [exact (conj Hkeys (conj Htags (conj Hrings (conj Hkinds Hnd))))|].
  set (ringId := ringIdOf (S (ringCounter st))).
  pose proof (recordMember_keys ringId patternTag filtered (acctRings st)
                (acctPatterns st)) as Hk.
  pose proof (recordMember_patterns ringId patternTag filtered (acctRings st)
                (acctPatterns st)) as Hp.
  destruct (fold_left _ filtered _) as [rings patterns]. simpl in Hk, Hp.
  unfold patternsRecorded. cbn [acctRings acctPatterns fraudRings].
  split; [|split; [|split; [|split]]].
  - rewrite Hk, Hkeys, ringMembers_snoc. reflexivity.
  - intros k tag Hin. apply (proj1 (Hp k)) in Hin.
    destruct Hin as [Hin|[-> Hin]].
    + destruct (Htags k tag Hin) as (Hkn & r & Hr & Hm & Ht).
      split; [exact Hkn|]. exists r. split; [apply in_app_iff; now left | auto].
    + split; [exact Hknown|]. eexists. split; [apply in_app_iff; right; now left|].
      cbn [member_accounts pattern_type]. split; [exact Hin | now symmetry].
  - intros r k Hr Hm. apply in_app_iff in Hr. destruct Hr as [Hr|[<-|[]]].
    + destruct (Hrings r k Hr Hm) as (tag & Hin & Ht).
      exists tag. split; [apply (proj1 (Hp k)); now left | exact Ht].
    + exists patternTag. cbn [member_accounts pattern_type] in *.
      split; [apply (proj1 (Hp k)); now right | exact Hkind].
  - intros r Hr. apply in_app_iff in Hr. destruct Hr as [Hr|[<-|[]]]; [auto|].
    cbn [pattern_type]. rewrite <- Hkind. now apply knownTag_kind.
  - intros k. apply (proj2 (Hp k)), Hnd.
Qed.

Lemma cycleTag_known cycle :
  knownTag (cycleTag cycle) /\ kindOf (cycleTag cycle) = "cycle".
Proof.
  assert (H : String.prefix "cycle_" (cycleTag cycle) = true).
  { unfold cycleTag. rewrite !append_String. reflexivity. }
  split; [now left|]. unfold kindOf. now rewrite H.
Qed.

Lemma buildRings_patterns legit cycles smurfing shells :
  Forall (fun p => type p = "fan_in" \/ type p = "fan_out") smurfing ->
  patternsRecorded (buildRings legit cycles smurfing shells).
Proof.
  intros Hsm. unfold buildRings.
  apply fold_left_invariant.
  - apply fold_left_invariant.
    + apply fold_left_invariant.
      * unfold patternsRecorded. cbn.
        repeat split; intros; try contradiction; constructor.
      * intros st c _ Hst. apply addRing_patterns; [| |exact Hst];
          apply cycleTag_known.
    + intros st p Hp Hst. rewrite List.Forall_forall in Hsm.
      apply addRing_patterns; [| |exact Hst].
      * right. destruct (Hsm p Hp) as [->| ->]; simpl; auto.
      * unfold kindOf. now destruct (Hsm p Hp) as [->| ->].
  - intros st c _ Hst. apply addRing_patterns; [| |exact Hst].
    + right. simpl. auto.
    + reflexivity.
Qed.

(** ** The suspicious accounts of the result *)

Lemma scoreAccounts_unfiltered transactions legit st :
  (forall k, JSMap.has (acctRings st) k = true -> JSSet.has legit k = false) ->
  scoreAccounts transactions legit st
  = sortBy byScoreDesc
      (List.map (fun kv => scoreAccount transactions (acctPatterns st)
                             (fst kv) (snd kv))
         (acctRings st)).
Proof.
  intros Hlegit. unfold scoreAccounts. f_equal.
  assert (Hall : forall kv, In kv (acctRings st) -> JSSet.has legit (fst kv) = false).
  { intros kv Hin. apply Hlegit, keys_has. now apply in_map. }
  clear Hlegit.
  enough (H : forall l out,
             (forall kv, In kv l -> JSSet.has legit (fst kv) = false) ->
             fold_left
               (fun out kv =>
                  if JSSet.has legit (fst kv) then out
                  else out ++ [scoreAccount transactions (acctPatterns st)
                                 (fst kv) (snd kv)]) l out
             = out ++ List.map (fun kv => scoreAccount transactions
                                  (acctPatterns st) (fst kv) (snd kv)) l)
    by (apply (H _ [] Hall)).
  clear Hall. induction l as [|kv l IH]; intros out Hl; simpl.
  - now rewrite app_nil_r.
  - rewrite (Hl kv (or_introl eq_refl)), IH by (intros; apply Hl; now right).
    now rewrite <- app_assoc.
Qed.

(** The suspicious accounts are the scored ring members, sorted. *)
Lemma suspicious_accounts_of transactions res :
  analyzeTransactions transactions = Some res ->
  exists st,
    fraud_rings res = fraudRings st
    /\ patternsRecorded st
    /\ suspicious_accounts res
       = sortBy byScoreDesc
           (List.map (fun k => scoreAccount transactions (acctPatterns st) k
                                 (ringIdsOf (fraud_rings res) k))
              (ringMembers (fraud_rings res))).
Proof.
  intros Hres.
  destruct (analyzeTransactions_inv _ _ Hres) as (g & Hg & Hres').
  exists (aggregate transactions g).
  pose proof (analyzeGraph_rings _ _ _ Hres') as Hrings.
  change (fraud_rings res = fraudRings (aggregate transactions g)) in Hrings.
  pose proof (buildRings_recorded (legitAccounts (computeStats g) transactions)
                (findCycles (adjList g) (allNodes g) 3 5)
                (detectSmurfing transactions (computeStats g))
                (detectShellNetworks (adjList g) (computeStats g) (allNodes g)))
    as (Hids & Hhas & Hlegit).
  pose proof (buildRings_patterns (legitAccounts (computeStats g) transactions)
                (findCycles (adjList g) (allNodes g) 3 5)
                (detectSmurfing transactions (computeStats g))
                (detectShellNetworks (adjList g) (computeStats g) (allNodes g))
                (detectSmurfing_types _ _)) as Hpat.
  change (buildRings _ _ _ _) with (aggregate transactions g) in Hids, Hhas, Hlegit, Hpat.
  split; [exact Hrings|]. split; [exact Hpat|].
  rewrite (analyzeGraph_accounts _ _ _ Hres'), scoreAccounts_unfiltered.
  2:{ intros k Hk. apply Hhas in Hk. destruct Hk as (r & Hr & Hm). eauto. }
  f_equal. rewrite Hrings. destruct Hpat as (Hkeys & _).
  rewrite <- Hkeys, map_map. apply map_ext_in. intros [k ids] Hin.
  cbn [fst snd]. f_equal. rewrite <- Hids.
  rewrite (get_of_In _ k ids); [reflexivity| |exact Hin].
  rewrite Hkeys. apply JSSetFacts.ofList_NoDup.
Qed.

Lemma suspicious_account_inv transactions res sa :
  analyzeTransactions transactions = Some res ->
  In sa (suspicious_accounts res) ->
  exists st,
    fraud_rings res = fraudRings st /\ patternsRecorded st
    /\ In (account_id sa) (ringMembers (fraud_rings res))
    /\ sa = scoreAccount transactions (acctPatterns st) (account_id sa)
              (ringIdsOf (fraud_rings res) (account_id sa)).
Proof.
  intros Hres Hsa.
  destruct (suspicious_accounts_of _ _ Hres) as (st & Hrings & Hpat & Hacc).
  exists st. split; [exact Hrings|]. split; [exact Hpat|].
  rewrite Hacc in Hsa. apply sortBy_In, in_map_iff in Hsa.
  destruct Hsa as (k & <- & Hk). cbn [account_id scoreAccount]. auto.
Qed.

Lemma suspicious_account_ids transactions res :
  analyzeTransactions transactions = Some res ->
  Permutation (ringMembers (fraud_rings res))
    (List.map account_id (suspicious_accounts res)).
Proof.
  intros Hres.
  destruct (suspicious_accounts_of _ _ Hres) as (st & _ & _ & ->).
  rewrite <- sortBy_Permutation, map_map. cbn [account_id scoreAccount].
  now rewrite map_id.
Qed.

(** X5. The suspicious accounts are the accounts that the fraud rings of
    the result list, each of them once, and [suspicious_accounts_flagged]
    is their number. *)
Theorem suspicious_accounts_are_the_ring_members transactions res :
  analyzeTransactions transactions = Some res ->
  (forall k, In k (List.map account_id (suspicious_accounts res)) <->
             exists r, In r (fraud_rings res) /\ In k (member_accounts r))
  /\ List.NoDup (List.map account_id (suspicious_accounts res))
  /\ suspicious_accounts_flagged (summary res)
     = length (suspicious_accounts res).
Proof.
  intros Hres. pose proof (suspicious_account_ids _ _ Hres) as Hperm.
  split; [|split].
  - intros k. rewrite <- ringMembers_In. split; apply Permutation_in;
      [now apply Permutation_sym | exact Hperm].
  - eapply Permutation_NoDup; [exact Hperm|]. apply JSSetFacts.ofList_NoDup.
  - destruct (analyzeTransactions_inv _ _ Hres) as (g & Hg & Hres').
    now rewrite (analyzeGraph_summary _ _ _ Hres').
Qed.

Lemma suspicious_accounts_are_the_ring_members_witness :
  analyzeTransactions cycleBatch = Some (resultOf cycleBatch)
  /\ length (suspicious_accounts (resultOf cycleBatch)) = 3%nat.
Proof.
  assert (Hres : analyzeTransactions cycleBatch = Some (resultOf cycleBatch))
    by (vm_compute; reflexivity).
  destruct (suspicious_accounts_are_the_ring_members cycleBatch _ Hres)
    as (_ & _ & Hn).
  split; [exact Hres|]. rewrite <- Hn. vm_compute. reflexivity.
Defined.

(** X6. The suspicious accounts come in descending order of score, and
    accounts of equal score in the order in which they joined their first
    ring. *)
Theorem suspicious_accounts_by_descending_score transactions res :
  analyzeTransactions transactions = Some res ->
  Sorted.StronglySorted (fun a b => suspicion_score b <= suspicion_score a)
    (suspicious_accounts res)
  /\ forall a b, before a b (suspicious_accounts res) ->
       suspicion_score a = suspicion_score b ->
       before (account_id a) (account_id b) (ringMembers (fraud_rings res)).
Proof.
  intros Hres.
  destruct (suspicious_accounts_of _ _ Hres) as (st & _ & _ & Hacc).
  rewrite Hacc. split.
  - eapply StronglySorted_weaken; [|apply (sortBy_sorted byScoreDesc)].
    + unfold byScoreDesc. intros a b. lia.
    + unfold byScoreDesc. intros a b. lia.
    + unfold byScoreDesc. intros a b c. lia.
  - intros a b Hbefore Hscore. apply sortBy_stable in Hbefore.
    2:{ unfold byScoreDesc. lia. }
    apply (before_map account_id) in Hbefore.
    rewrite map_map in Hbefore. cbn [account_id scoreAccount] in Hbefore.
    now rewrite map_id in Hbefore.
Qed.

Lemma suspicious_accounts_by_descending_score_witness :
  analyzeTransactions cycleBatch = Some (resultOf cycleBatch)
  /\ Sorted.StronglySorted (fun a b => suspicion_score b <= suspicion_score a)
       (suspicious_accounts (resultOf cycleBatch)).
Proof.
  assert (Hres : analyzeTransactions cycleBatch = Some (resultOf cycleBatch))
    by (vm_compute; reflexivity).
  split; [exact Hres|].
  exact (proj1 (suspicious_accounts_by_descending_score cycleBatch _ Hres)).
Defined.

Lemma head_ringIdsOf rings k :
  head (ringIdsOf rings k) = option_map ring_id (firstRingOf rings k).
Proof.
  unfold ringIdsOf, firstRingOf.
  induction rings as [|r rings IH]; simpl; [reflexivity|].
  destruct (JSSet.has (member_accounts r) k) eqn:E.
  - apply JSSetFacts.has_In in E.
    apply (count_occ_In String.string_dec) in E.
    destruct (count_occ String.string_dec (member_accounts r) k);
      [lia | reflexivity].
  - apply JSSetFacts.has_false in E.
    apply (count_occ_not_In String.string_dec) in E. rewrite E. exact IH.
Qed.

(** X7. The [ring_id] of a suspicious account is the id of the first ring
    of the result that lists the account. *)
Theorem account_ring_id_is_its_first_ring transactions res sa :
  analyzeTransactions transactions = Some res ->
  In sa (suspicious_accounts res) ->
  exists r, firstRingOf (fraud_rings res) (account_id sa) = Some r
            /\ sa_ring_id sa = Some (ring_id r).
Proof.
  intros Hres Hsa.
  destruct (suspicious_account_inv _ _ _ Hres Hsa) as (st & _ & _ & Hk & Heq).
  apply ringMembers_In in Hk. destruct Hk as (r0 & Hr0 & Hm).
  destruct (firstRingOf (fraud_rings res) (account_id sa)) as [r|] eqn:E.
  - exists r. split; [reflexivity|]. rewrite Heq at 1.
    cbn [sa_ring_id scoreAccount]. now rewrite head_ringIdsOf, E.
  - exfalso. unfold firstRingOf in E. apply (find_none _ _ E) in Hr0.
    apply JSSetFacts.has_false in Hr0. contradiction.
Qed.

Lemma account_ring_id_is_its_first_ring_witness :
  analyzeTransactions cycleBatch = Some (resultOf cycleBatch)
  /\ Forall (fun sa => sa_ring_id sa = Some "RING_001")
       (suspicious_accounts (resultOf cycleBatch)).
Proof.
  assert (Hres : analyzeTransactions cycleBatch = Some (resultOf cycleBatch))
    by (vm_compute; reflexivity).
  split; [exact Hres|]. apply List.Forall_forall. intros sa Hsa.
  destruct (account_ring_id_is_its_first_ring cycleBatch _ sa Hres Hsa)
    as (r & Hr & ->).
  f_equal. vm_compute in Hsa.
  destruct Hsa as [<-|[<-|[<-|[]]]]; vm_compute in Hr;
    injection Hr as <-; reflexivity.
Defined.

(** ** Scores and pattern tags *)

Lemma has_snoc s x y : JSSet.has (s ++ [x]) y = JSSet.has s y || String.eqb y x.
Proof. unfold JSSet.has. rewrite existsb_app. simpl. now rewrite orb_false_r. Qed.

Lemma patternScore_velocity patterns ids :
  patternScore (JSSet.add patterns "high_velocity") ids
  = patternScore patterns ids.
Proof.
  unfold JSSet.add. destruct (JSSet.has patterns "high_velocity"); [reflexivity|].
  unfold patternScore. rewrite !has_snoc, existsb_app. simpl.
  now rewrite !orb_false_r.
Qed.

Lemma patternScore_known patterns ids tag :
  In tag patterns -> knownTag tag -> 20 <= patternScore patterns ids.
Proof.
  intros Hin Hknown. unfold patternScore.
  assert (Hcases : existsb (String.prefix "cycle_") patterns = true
                   \/ JSSet.has patterns "fan_in" = true
                   \/ JSSet.has patterns "fan_out" = true
                   \/ JSSet.has patterns "shell_network" = true).
  { destruct Hknown as [Hp|[<-|[<-|[<-|[]]]]].
    - left. apply existsb_exists. eauto.
    - right; left. now apply JSSetFacts.has_In.
    - right; right; left. now apply JSSetFacts.has_In.
    - right; right; right. now apply JSSetFacts.has_In. }
  destruct (existsb _ patterns), (JSSet.has patterns "fan_in"),
    (JSSet.has patterns "fan_out"), (JSSet.has patterns "shell_network"),
    (1 <? length ids)%nat; try lia;
    destruct Hcases as [H|[H|[H|H]]]; discriminate H.
Qed.

Lemma velocity_not_known : ~ knownTag "high_velocity".
Proof.
  intros [H|H]; [discriminate H|].
  simpl in H. intuition discriminate.
Qed.

Lemma has_velocity transactions patterns k ids :
  (forall tag, In tag (default [] (JSMap.get patterns k)) -> knownTag tag) ->
  JSSet.has (detected_patterns (scoreAccount transactions patterns k ids))
    "high_velocity"
  = highVelocity transactions k.
Proof.
  intros Hknown. cbn [detected_patterns scoreAccount].
  destruct (highVelocity transactions k).
  - apply JSSetFacts.has_In, JSSetFacts.add_In. now right.
  - apply JSSetFacts.has_false. intros Hin.
    exact (velocity_not_known (Hknown _ Hin)).
Qed.

(** X8. The score of a suspicious account follows from its reported
    pattern tags and from the number of ring ids of its account: 35 for a
    cycle tag, 25 for [fan_in], 25 for [fan_out], 20 for [shell_network],
    15 for more than one ring id and 15 for [high_velocity], capped at 100;
    it is never below 20. *)
Theorem account_score_from_its_tags transactions res sa :
  analyzeTransactions transactions = Some res ->
  In sa (suspicious_accounts res) ->
  suspicion_score sa
  = Z.min 100
      (patternScore (detected_patterns sa)
         (ringIdsOf (fraud_rings res) (account_id sa))
       + (if JSSet.has (detected_patterns sa) "high_velocity" then 15 else 0))
  /\ 20 <= suspicion_score sa <= 100.
Proof.
  intros Hres Hsa.
  destruct (suspicious_account_inv _ _ _ Hres Hsa)
    as (st & Hrings & Hpat & Hk & Heq).
  destruct Hpat as (_ & Htags & Hmem & _ & _).
  set (k := account_id sa) in *. set (ids := ringIdsOf (fraud_rings res) k) in *.
  assert (Hknown : forall tag,
            In tag (default [] (JSMap.get (acctPatterns st) k)) -> knownTag tag)
    by (intros tag Hin; apply (Htags k tag Hin)).
  pose proof (has_velocity transactions (acctPatterns st) k ids Hknown) as Hv.
  rewrite <- Heq in Hv. rewrite Hv.
  assert (Hlow : 20 <= patternScore (default [] (JSMap.get (acctPatterns st) k)) ids).
  { apply ringMembers_In in Hk. destruct Hk as (r & Hr & Hm).
    rewrite Hrings in Hr. destruct (Hmem r k Hr Hm) as (tag & Hin & _).
    eapply patternScore_known; [exact Hin | now apply Hknown]. }
  rewrite Heq. cbn [suspicion_score detected_patterns scoreAccount].
  destruct (highVelocity transactions k); rewrite ?patternScore_velocity; lia.
Qed.

Lemma account_score_from_its_tags_witness :
  analyzeTransactions cycleBatch = Some (resultOf cycleBatch)
  /\ Forall (fun sa => suspicion_score sa = 35)
       (suspicious_accounts (resultOf cycleBatch)).
Proof.
  assert (Hres : analyzeTransactions cycleBatch = Some (resultOf cycleBatch))
    by (vm_compute; reflexivity).
  split; [exact Hres|]. apply List.Forall_forall. intros sa Hsa.
  destruct (account_score_from_its_tags cycleBatch _ sa Hres Hsa) as [-> _].
  vm_compute in Hsa.
  destruct Hsa as [<-|[<-|[<-|[]]]]; vm_compute; reflexivity.
Defined.

(** X9. The pattern tags of a suspicious account are distinct; each of
    them is [high_velocity] or stands for the pattern type of a ring that
    lists the account, and every ring that lists the account has its
    pattern type among the tags.  [high_velocity] is among them exactly
    when the velocity test of the account succeeds. *)
Theorem account_tags_match_its_rings transactions res sa :
  analyzeTransactions transactions = Some res ->
  In sa (suspicious_accounts res) ->
  List.NoDup (detected_patterns sa)
  /\ (forall tag, In tag (detected_patterns sa) ->
        tag = "high_velocity"
        \/ exists r, In r (fraud_rings res)
                     /\ In (account_id sa) (member_accounts r)
                     /\ pattern_type r = kindOf tag)
  /\ (forall r, In r (fraud_rings res) ->
        In (account_id sa) (member_accounts r) ->
        exists tag, In tag (detected_patterns sa)
                    /\ kindOf tag = pattern_type r)
  /\ JSSet.has (detected_patterns sa) "high_velocity"
     = highVelocity transactions (account_id sa).
Proof.
  intros Hres Hsa.
  destruct (suspicious_account_inv _ _ _ Hres Hsa)
    as (st & Hrings & Hpat & Hk & Heq).
  destruct Hpat as (_ & Htags & Hmem & _ & Hnd).
  set (k := account_id sa) in *. set (ids := ringIdsOf (fraud_rings res) k) in *.
  assert (Hknown : forall tag,
            In tag (default [] (JSMap.get (acctPatterns st) k)) -> knownTag tag)
    by (intros tag Hin; apply (Htags k tag Hin)).
  pose proof (has_velocity transactions (acctPatterns st) k ids Hknown) as Hv.
  rewrite <- Heq in Hv. split; [|split; [|split; [|exact Hv]]].
  - rewrite Heq. cbn [detected_patterns scoreAccount].
    destruct (highVelocity transactions k);
      [apply JSSetFacts.add_NoDup|]; apply Hnd.
  - intros tag Hin. rewrite Heq in Hin. cbn [detected_patterns scoreAccount] in Hin.
    assert (Hcases : tag = "high_velocity"
                     \/ In tag (default [] (JSMap.get (acctPatterns st) k))).
    { destruct (highVelocity transactions k); [|now right].
      apply JSSetFacts.add_In in Hin. tauto. }
    destruct Hcases as [->|Hin']; [now left|]. right.
    destruct (Htags k tag Hin') as (_ & r & Hr & Hm & Ht).
    exists r. now rewrite Hrings.
  - intros r Hr Hm. rewrite Hrings in Hr.
    destruct (Hmem r k Hr Hm) as (tag & Hin & Ht).
    exists tag. split; [|exact Ht].
    rewrite Heq. cbn [detected_patterns scoreAccount].
    destruct (highVelocity transactions k); [|exact Hin].
    apply JSSetFacts.add_In. now left.
Qed.

Lemma account_tags_match_its_rings_witness :
  analyzeTransactions fastBatch = Some (resultOf fastBatch)
  /\ Forall (fun sa => List.NoDup (detected_patterns sa))
       (suspicious_accounts (resultOf fastBatch)).
Proof.
  assert (Hres : analyzeTransactions fastBatch = Some (resultOf fastBatch))
    by (vm_compute; reflexivity).
  split; [exact Hres|]. apply List.Forall_forall. intros sa Hsa.
  exact (proj1 (account_tags_match_its_rings fastBatch _ sa Hres Hsa)).
Defined.

(** ** The graph nodes and the suspicious accounts *)

Lemma graph_node_inv transactions res n :
  analyzeTransactions transactions = Some res ->
  In n (nodes (graph res)) ->
  exists g s,
    JSMap.get (computeStats g) (id n) = Some s
    /\ n = mkGraphNode (id n)
             (JSMap.has (acctRings (aggregate transactions g)) (id n)
              && negb (JSSet.has (legitAccounts (computeStats g) transactions)
                         (id n)))
             (match List.find (fun a => String.eqb (account_id a) (id n))
                      (suspicious_accounts res) with
              | Some a => suspicion_score a
              | None => 0
              end)
             (default [] (JSMap.get (acctRings (aggregate transactions g)) (id n)))
             (inDegree s) (outDegree s) (totalAmountIn s) (totalAmountOut s).
Proof.
  intros Hres Hn.
  destruct (analyzeTransactions_inv _ _ Hres) as (g & Hg & Hres').
  pose proof (graph_nodes_of _ _ _ Hg Hres) as Hall.
  rewrite <- (analyzeGraph_accounts _ _ _ Hres') in Hall.
  exists g.
  induction Hall as [|k n' ks ns Hkn _ IH]; [destruct Hn|].
  destruct Hn as [->|Hn]; [|auto].
  unfold graphNode in Hkn.
  destruct (JSMap.get (computeStats g) k) as [s|] eqn:E; [|discriminate].
  injection Hkn as <-. cbn [id]. eauto.
Qed.

Lemma find_by_key {A} (f : A -> string) (l : list A) a :
  List.NoDup (List.map f l) -> In a l ->
  List.find (fun x => String.eqb (f x) (f a)) l = Some a.
Proof.
  induction l as [|x l IH]; simpl; [intros _ []|].
  intros Hnd Hin. inversion Hnd as [|? ? Hx Hl]; subst.
  destruct Hin as [->|Hin]; [now rewrite String.eqb_refl|].
  destruct (String.eqb (f x) (f a)) eqn:E; [|now apply IH].
  apply String.eqb_eq in E. exfalso. apply Hx. rewrite E. now apply in_map.
Qed.

Lemma find_by_key_None {A} (f : A -> string) (l : list A) k :
  ~ In k (List.map f l) -> List.find (fun x => String.eqb (f x) k) l = None.
Proof.
  intros Hk. destruct (List.find _ l) as [a|] eqn:E; [|reflexivity].
  apply find_some in E. destruct E as [Hin Ha]. apply String.eqb_eq in Ha.
  exfalso. apply Hk. rewrite <- Ha. now apply in_map.
Qed.

(** X10. A graph node is flagged exactly when its account is among the
    suspicious accounts; it then carries the score of that account, and the
    score 0 otherwise. *)
Theorem graph_nodes_mirror_the_accounts transactions res n :
  analyzeTransactions transactions = Some res ->
  In n (nodes (graph res)) ->
  (suspicious n = true <->
     In (id n) (List.map account_id (suspicious_accounts res)))
  /\ (forall sa, In sa (suspicious_accounts res) -> account_id sa = id n ->
        node_suspicion_score n = suspicion_score sa)
  /\ (suspicious n = false -> node_suspicion_score n = 0).
Proof.
  intros Hres Hn.
  pose proof (suspicious_account_ids _ _ Hres) as Hperm.
  assert (Hflag : suspicious n = true <->
                  In (id n) (List.map account_id (suspicious_accounts res))).
  { rewrite (proj1 (graph_node_rings _ _ _ Hres Hn)), <- ringMembers_In.
    split; apply Permutation_in; [exact Hperm | now apply Permutation_sym]. }
  assert (Hnd : List.NoDup (List.map account_id (suspicious_accounts res))).
  { eapply Permutation_NoDup; [exact Hperm | apply JSSetFacts.ofList_NoDup]. }
  destruct (graph_node_inv _ _ _ Hres Hn) as (g & s & _ & Heq).
  split; [exact Hflag|]. split.
  - intros sa Hsa Hid. rewrite Heq. cbn [node_suspicion_score id].
    rewrite <- Hid, (find_by_key account_id _ sa Hnd Hsa). reflexivity.
  - intros Hfalse. rewrite Heq. cbn [node_suspicion_score id].
    rewrite find_by_key_None; [reflexivity|].
    intros Hin. apply Hflag in Hin. congruence.
Qed.

Lemma graph_nodes_mirror_the_accounts_witness :
  analyzeTransactions shellBatch = Some (resultOf shellBatch)
  /\ List.map suspicious (nodes (graph (resultOf shellBatch)))
     = List.map
         (fun n => JSSet.has
                     (List.map account_id (suspicious_accounts (resultOf shellBatch)))
                     (id n))
         (nodes (graph (resultOf shellBatch))).
Proof.
  assert (Hres : analyzeTransactions shellBatch = Some (resultOf shellBatch))
    by (vm_compute; reflexivity).
  split; [exact Hres|]. apply map_ext_in. intros n Hn.
  destruct (graph_nodes_mirror_the_accounts shellBatch _ n Hres Hn)
    as (Hflag & _ & _).
  destruct (suspicious n) eqn:E.
  - symmetry. apply JSSetFacts.has_In, Hflag. reflexivity.
  - symmetry. apply JSSetFacts.has_false. intros Hin. apply Hflag in Hin.
    discriminate Hin.
Defined.

(** ** Cycle search: what is found *)

Lemma last_cons {A} (x d : A) l : List.last (x :: l) d = List.last l x.
Proof.
  revert x d. induction l as [|y l IH]; intros x d; [reflexivity|].
  change (List.last (x :: y :: l) d) with (List.last (y :: l) d).
  now rewrite !IH.
Qed.

Lemma isPath_snoc link p y :
  p <> [] ->
  isPath link (p ++ [y]) = isPath link p && link (List.last p EmptyString) y.
Proof.
  induction p as [|x p IH]; [congruence|]. intros _.
  destruct p as [|z p]; [simpl; now rewrite andb_true_r|].
  change (isPath link ((x :: z :: p) ++ [y]))
    with (link x z && isPath link ((z :: p) ++ [y])).
  rewrite IH by discriminate.
  change (isPath link (x :: z :: p)) with (link x z && isPath link (z :: p)).
  change (List.last (x :: z :: p) EmptyString)
    with (List.last (z :: p) EmptyString).
  now rewrite andb_assoc.
Qed.

Lemma isPath_app link a b :
  a <> [] -> b <> [] ->
  isPath link (a ++ b)
  = isPath link a
    && link (List.last a EmptyString) (hd EmptyString b)
    && isPath link b.
Proof.
  intros Ha Hb. destruct b as [|y b]; [congruence|]. clear Hb.
  induction a as [|x a IH]; [congruence|]. clear Ha.
  destruct a as [|z a]; [reflexivity|].
  change (isPath link ((x :: z :: a) ++ y :: b))
    with (link x z && isPath link ((z :: a) ++ y :: b)).
  rewrite IH by discriminate.
  change (isPath link (x :: z :: a)) with (link x z && isPath link (z :: a)).
  change (List.last (x :: z :: a) EmptyString)
    with (List.last (z :: a) EmptyString).
  now rewrite !andb_assoc.
Qed.

Lemma last_app_right {A} (a b : list A) d :
  b <> [] -> List.last (a ++ b) d = List.last b d.
Proof.
  intros Hb. induction a as [|x a IH]; [reflexivity|].
  cbn [app]. destruct (a ++ b) eqn:E; [apply app_eq_nil in E; tauto|].
  exact IH.
Qed.

Lemma isCircle_app link a b :
  a <> [] -> b <> [] ->
  isCircle link (a ++ b)
  = isPath link a && link (List.last a EmptyString) (hd EmptyString b)
    && isPath link b && link (List.last b EmptyString) (hd EmptyString a).
Proof.
  intros Ha Hb. destruct a as [|x a]; [congruence|].
  unfold isCircle. cbn [app hd].
  change (x :: (a ++ b) ++ [x]) with (((x :: a) ++ b) ++ [x]).
  rewrite isPath_snoc by discriminate.
  rewrite isPath_app by (discriminate || exact Hb).
  now rewrite last_app_right by exact Hb.
Qed.

(** A circle read from another of its accounts is a circle. *)
Lemma isCircle_rotation link l1 l2 :
  isCircle link (l1 ++ l2) = true -> isCircle link (l2 ++ l1) = true.
Proof.
  destruct l1 as [|x l1]; [now rewrite app_nil_r|].
  destruct l2 as [|y l2]; [now rewrite app_nil_r|].
  rewrite !isCircle_app by discriminate.
  rewrite !andb_true_iff. tauto.
Qed.

Lemma isCircle_from link s rest :
  isCircle link (s :: rest)
  = isPath link (s :: rest) && link (List.last rest s) s.
Proof.
  unfold isCircle. change ((s :: rest) ++ [s]) with ((s :: rest) ++ [s]).
  rewrite isPath_snoc by discriminate. now rewrite last_cons.
Qed.

Lemma isPath_ext link1 link2 l :
  (forall x y, link1 x y = link2 x y) -> isPath link1 l = isPath link2 l.
Proof.
  intros Hext. induction l as [|x l IH]; [reflexivity|].
  destruct l as [|y l]; [reflexivity|].
  change (link1 x y && isPath link1 (y :: l)
          = link2 x y && isPath link2 (y :: l)).
  now rewrite IH, Hext.
Qed.

Lemma isCircle_ext link1 link2 c :
  (forall x y, link1 x y = link2 x y) -> isCircle link1 c = isCircle link2 c.
Proof.
  intros Hext. destruct c as [|x c]; [reflexivity|].
  unfold isCircle. now apply isPath_ext.
Qed.

Section DfsPaths.
Variable adj : AdjList.
Variable start : string.
Variable processed : JSSet.t.
Variables minLen maxLen : nat.
Variable good : string -> Prop.
Hypothesis targets_good : forall k e, In e (edgesOf adj k) -> good (target e).

Local Abbreviation dfs' := (dfs adj start processed minLen maxLen).
Local Abbreviation dfsEdge' := (dfsEdge start processed minLen maxLen).

(** A path of the search: it starts at [start], follows the edges and stays
    within the accounts that the edges lead to. *)
Local Abbreviation searchPath p :=
  (hd EmptyString p = start /\ isPath (linked adj) p = true /\ Forall good p).

Lemma linked_edge x e : In e (edgesOf adj x) -> linked adj x (target e) = true.
Proof.
  intros He. apply existsb_exists. exists e. split; [exact He|].
  apply String.eqb_refl.
Qed.

(** Every path recorded as a cycle is a circle through [start]. *)
Lemma dfs_circles fuel : forall current depth st,
  path st <> [] -> List.last (path st) EmptyString = current ->
  searchPath (path st) ->
  Forall (fun c => Forall good c /\ isCircle (linked adj) c = true)
    (allCycles st) ->
  Forall (fun c => Forall good c /\ isCircle (linked adj) c = true)
    (allCycles (dfs' fuel current depth st)).
Proof.
  induction fuel as [|fuel IH]; intros current depth st Hne Hlast Hp Hall;
    simpl; [exact Hall|].
  apply (fold_left_invariant
           (fun s => (path s = path st /\ inPath s = inPath st)
                     /\ Forall (fun c => Forall good c
                                         /\ isCircle (linked adj) c = true)
                          (allCycles s))
           (dfsEdge' (dfs' fuel) depth) (edgesOf adj current) st);
    [auto|].
  intros a e He [[Hpa Hia] Ha]. split.
  { destruct (dfsEdge_restores start processed minLen maxLen
                (dfs' fuel) depth a e
                (dfs_restores adj start processed minLen maxLen fuel))
      as [-> ->]. auto. }
  assert (Hpush : searchPath (path st ++ [target e])).
  { destruct Hp as (Hhd & Hpath & Hnodes). split; [|split].
    - rewrite hd_snoc by exact Hne. exact Hhd.
    - rewrite isPath_snoc, Hpath, Hlast by exact Hne. now apply linked_edge.
    - apply Forall_app. split; [exact Hnodes|]. constructor; [|constructor].
      eapply targets_good, He. }
  unfold dfsEdge.
  destruct (_ && _ && _) eqn:E1.
  - simpl. apply Forall_app. split; [exact Ha|]. constructor; [|constructor].
    rewrite Hpa. split; [apply Hp|].
    apply andb_true_iff in E1. destruct E1 as [E1 _].
    apply andb_true_iff in E1. destruct E1 as [E1 _].
    apply String.eqb_eq in E1.
    destruct (path st) as [|x p] eqn:Epath; [congruence|].
    destruct Hp as (Hhd & Hpath & _). cbn [hd] in Hhd. subst x.
    rewrite isCircle_from, Hpath. cbn [andb].
    rewrite <- (last_cons start EmptyString), Hlast, <- E1.
    now apply linked_edge.
  - destruct (negb (JSSet.has (inPath a) (target e))); simpl; [|exact Ha].
    destruct (negb (JSSet.has processed (target e)) && _); simpl; [|exact Ha].
    apply IH; simpl; rewrite ?Hpa.
    + intros H. apply app_eq_nil in H. destruct H as [_ H]. discriminate H.
    + apply last_last.
    + exact Hpush.
    + exact Ha.
Qed.

(** A call of [dfs] only adds to [allCycles]. *)
Lemma dfs_grows fuel : forall current depth st c,
  In c (allCycles st) -> In c (allCycles (dfs' fuel current depth st)).
Proof.
  induction fuel as [|fuel IH]; intros current depth st c Hc; simpl; [exact Hc|].
  apply (fold_left_invariant (fun s => In c (allCycles s))); [exact Hc|].
  intros a e _ Ha. unfold dfsEdge.
  destruct (_ && _ && _); [simpl; apply in_app_iff; now left|].
  destruct (negb (JSSet.has (inPath a) (target e))); simpl; [|exact Ha].
  destruct (negb (JSSet.has processed (target e)) && _); simpl; [|exact Ha].
  apply IH. exact Ha.
Qed.

Lemma dfsEdge_grows fuel depth a e c :
  In c (allCycles a) -> In c (allCycles (dfsEdge' (dfs' fuel) depth a e)).
Proof.
  intros Ha. unfold dfsEdge.
  destruct (_ && _ && _); [simpl; apply in_app_iff; now left|].
  destruct (negb (JSSet.has (inPath a) (target e))); simpl; [|exact Ha].
  destruct (negb (JSSet.has processed (target e)) && _); simpl; [|exact Ha].
  apply dfs_grows. exact Ha.
Qed.

(** The loop over the edges of [current] reaches every one of them with
    [path] and [inPath] as they were at the start. *)
Lemma edge_loop_reaches fuel current depth st e (P : DfsState -> Prop) :
  In e (edgesOf adj current) ->
  (forall a, path a = path st -> inPath a = inPath st ->
             P (dfsEdge' (dfs' fuel) depth a e)) ->
  (forall a x, P a -> P (dfsEdge' (dfs' fuel) depth a x)) ->
  P (dfs' (S fuel) current depth st).
Proof.
  intros He Hstep Hkeep. simpl.
  assert (H : forall l a, In e l -> path a = path st -> inPath a = inPath st ->
                P (fold_left (dfsEdge' (dfs' fuel) depth) l a)).
  { clear He. induction l as [|x l IH]; intros a He Hp Hi; [destruct He|].
    simpl. destruct He as [->|He].
    - apply (fold_left_invariant P); [now apply Hstep | auto].
    - destruct (dfsEdge_restores start processed minLen maxLen (dfs' fuel)
                  depth a x (dfs_restores adj start processed minLen maxLen fuel))
        as [Hp' Hi'].
      apply IH; [exact He | now rewrite Hp' | now rewrite Hi']. }
  now apply H.
Qed.

(** The search follows every path of fresh accounts that leads back to
    [start] within the length bounds, and records it. *)
Lemma dfs_follows rest : forall fuel current depth st,
  (length rest < fuel)%nat ->
  hd EmptyString (path st) = start ->
  List.last (path st) EmptyString = current ->
  length (path st) = (depth + 1)%nat ->
  List.NoDup (path st ++ rest) ->
  (forall x, In x (inPath st) -> In x (path st)) ->
  (forall x, In x rest -> ~ In x processed) ->
  isPath (linked adj) (current :: rest) = true ->
  linked adj (List.last rest current) start = true ->
  (minLen <= depth + 1 + length rest <= maxLen)%nat ->
  In (path st ++ rest) (allCycles (dfs' fuel current depth st)).
Proof.
  induction rest as [|t rest IH];
    intros fuel current depth st Hfuel Hhd Hlast Hlen Hnd Hsub Hproc Hpath
      Hback Hbound;
    (destruct fuel as [|fuel]; [simpl in Hfuel; lia|]).
  - cbn [List.last] in Hback. apply existsb_exists in Hback.
    destruct Hback as (e & He & Ht). apply String.eqb_eq in Ht.
    apply (edge_loop_reaches fuel current depth st e); [exact He| |].
    + intros a Hp _. unfold dfsEdge. rewrite Ht, String.eqb_refl.
      simpl in Hbound.
      replace (minLen <=? depth + 1)%nat with true
        by (symmetry; apply Nat.leb_le; lia).
      replace (depth + 1 <=? maxLen)%nat with true
        by (symmetry; apply Nat.leb_le; lia).
      simpl. rewrite app_nil_r, Hp. apply in_app_iff. right. now left.
    + intros a x Ha. now apply dfsEdge_grows.
  - assert (Hlink : linked adj current t = true /\
                    isPath (linked adj) (t :: rest) = true).
    { change (linked adj current t && isPath (linked adj) (t :: rest) = true)
        in Hpath. now apply andb_true_iff. }
    destruct Hlink as [Hlink Hpath'].
    apply existsb_exists in Hlink. destruct Hlink as (e & He & Ht).
    apply String.eqb_eq in Ht.
    assert (Hne : path st <> []).
    { intros Hnil. rewrite Hnil in Hlen. simpl in Hlen. lia. }
    assert (Hfresh : ~ In t (path st)).
    { intros Hin. apply NoDup_app_remove_l in Hnd as Hnd'.
      clear Hnd'. revert Hnd Hin. clear. intros Hnd Hin.
      induction (path st) as [|x p IHp]; [destruct Hin|].
      simpl in Hnd. inversion Hnd as [|? ? Hx Hp]; subst.
      destruct Hin as [->|Hin]; [|auto].
      apply Hx. apply in_app_iff. right. now left. }
    assert (Hstart : t <> start).
    { intros ->. apply Hfresh. rewrite <- Hhd. now apply hd_In. }
    apply (edge_loop_reaches fuel current depth st e); [exact He| |].
    + intros a Hp Hi. unfold dfsEdge. rewrite Ht.
      replace (String.eqb t start) with false
        by (symmetry; now apply String.eqb_neq).
      cbn [andb].
      replace (JSSet.has (inPath a) t) with false.
      2:{ symmetry. apply JSSetFacts.has_false. rewrite Hi. auto. }
      replace (JSSet.has processed t) with false.
      2:{ symmetry. apply JSSetFacts.has_false. apply Hproc. now left. }
      simpl in Hbound.
      replace (depth + 1 <? maxLen)%nat with true
        by (symmetry; apply Nat.ltb_lt; lia).
      cbn [negb andb allCycles]. rewrite Hp, Hi.
      replace (path st ++ t :: rest) with ((path st ++ [t]) ++ rest)
        by (now rewrite <- app_assoc).
      apply (IH fuel t (depth + 1)%nat
               (mkDfsState (path st ++ [t]) (JSSet.add (inPath st) t)
                  (allCycles a)));
        cbn [path inPath allCycles].
      * simpl in Hfuel. lia.
      * rewrite hd_snoc by exact Hne. exact Hhd.
      * apply last_last.
      * rewrite length_app. simpl. lia.
      * now rewrite <- app_assoc.
      * intros x Hx. apply JSSetFacts.add_In in Hx. apply in_app_iff.
        destruct Hx as [Hx| ->]; [left; auto | right; now left].
      * intros x Hx. apply Hproc. now right.
      * exact Hpath'.
      * now rewrite <- last_cons with (d := current).
      * simpl. lia.
    + intros a x Ha. now apply dfsEdge_grows.
Qed.
End DfsPaths.

Lemma searchFrom_grows adj minLen maxLen acc s c :
  In c (fst acc) -> In c (fst (searchFrom adj minLen maxLen acc s)).
Proof.
  destruct acc as [found processed]. unfold searchFrom. cbn [fst].
  intros Hc. now apply dfs_grows.
Qed.

Lemma searchFrom_processed adj minLen maxLen l : forall found processed,
  snd (fold_left (searchFrom adj minLen maxLen) l (found, processed))
  = fold_left JSSet.add l processed.
Proof.
  induction l as [|s l IH]; intros found processed; [reflexivity|].
  simpl. unfold searchFrom at 1. cbv zeta. apply IH.
Qed.

(** Every discovered cycle is a circle of the adjacency lists, through
    accounts that are nodes or targets of edges. *)
Lemma discoveredCycles_circles adj nodes minLen maxLen (good : string -> Prop) :
  (forall k e, In e (edgesOf adj k) -> good (target e)) ->
  (forall k, In k nodes -> good k) ->
  Forall (fun c => Forall good c /\ isCircle (linked adj) c = true)
    (discoveredCycles adj nodes minLen maxLen).
Proof.
  intros Htargets Hnodes. unfold discoveredCycles.
  apply (fold_left_invariant
           (fun acc => Forall (fun c => Forall good c
                                        /\ isCircle (linked adj) c = true)
                         (fst acc)));
    [constructor|].
  intros [found processed] s Hs Hfound. unfold searchFrom. cbv zeta.
  cbn [fst] in *.
  apply (dfs_circles adj s processed minLen maxLen good Htargets).
  - discriminate.
  - reflexivity.
  - cbn [path hd]. repeat split. constructor; [auto | constructor].
  - exact Hfound.
Qed.

(** A circle of fresh accounts within the bounds is discovered from its
    first account in the order of the nodes. *)
Lemma discoveredCycles_complete adj nodes minLen maxLen n1 s n2 rest :
  nodes = n1 ++ s :: n2 ->
  List.NoDup (s :: rest) ->
  (forall x, In x rest -> ~ In x n1) ->
  isCircle (linked adj) (s :: rest) = true ->
  (minLen <= S (length rest) <= maxLen)%nat ->
  In (s :: rest) (discoveredCycles adj nodes minLen maxLen).
Proof.
  intros -> Hnd Hfresh Hcircle Hbound. unfold discoveredCycles.
  rewrite fold_left_app. cbn [fold_left].
  apply (fold_left_invariant (fun acc => In (s :: rest) (fst acc)));
    [|intros acc x _; apply searchFrom_grows].
  pose proof (searchFrom_processed adj minLen maxLen n1 [] []) as Hproc.
  destruct (fold_left _ n1 _) as [found processed]. cbn [snd] in Hproc.
  unfold searchFrom. cbv zeta. cbn [fst].
  rewrite isCircle_from in Hcircle. apply andb_true_iff in Hcircle.
  destruct Hcircle as [Hpath Hback].
  apply (dfs_follows adj s processed minLen maxLen rest (S maxLen) s 0%nat
           (mkDfsState [s] (JSSet.ofList [s]) found));
    cbn [path inPath hd List.last length app]; auto; try lia.
  intros x Hx. rewrite Hproc. rewrite JSSetFacts.fold_add_In.
  intros [[]|Hin]. exact (Hfresh x Hx Hin).
Qed.

Lemma first_member (nodes c : list string) :
  (exists x, In x c /\ In x nodes) ->
  exists n1 s n2, nodes = n1 ++ s :: n2 /\ In s c
                  /\ forall x, In x n1 -> ~ In x c.
Proof.
  induction nodes as [|y nodes IH]; intros (x & Hc & Hn); [destruct Hn|].
  destruct (in_dec String.string_dec y c) as [Hy|Hy].
  - exists [], y, nodes. repeat split; auto.
  - destruct Hn as [->|Hn]; [contradiction|].
    destruct (IH (ex_intro _ x (conj Hc Hn))) as (n1 & s & n2 & -> & Hs & Hfresh).
    exists (y :: n1), s, n2. repeat split; auto.
    intros z [<-|Hz]; auto.
Qed.

Lemma linked_pays transactions g x y :
  buildAdjacency emptyGraph transactions = Some g ->
  linked (adjList g) x y = pays transactions x y.
Proof.
  intros Hg. unfold linked, pays.
  rewrite (proj1 (buildAdjacency_edges transactions g x Hg)).
  unfold keyed. clear Hg.
  induction transactions as [|t l IH]; [reflexivity|]. simpl.
  destruct (String.eqb (sender_id t) x); simpl; [now rewrite IH | exact IH].
Qed.

Lemma pays_accounts transactions x y :
  pays transactions x y = true ->
  In x (accountIds transactions) /\ In y (accountIds transactions).
Proof.
  unfold pays. rewrite existsb_exists. intros (t & Ht & Hxy).
  apply andb_true_iff in Hxy. destruct Hxy as [Hx Hy].
  apply String.eqb_eq in Hx, Hy.
  split; apply accountIds_In; exists t; auto.
Qed.

Lemma findCycles_from_batch transactions g c :
  buildAdjacency emptyGraph transactions = Some g ->
  In c (findCycles (adjList g) (allNodes g) 3 5) ->
  exists d, In d (discoveredCycles (adjList g) (allNodes g) 3 5)
            /\ c = normalize d /\ d <> [] /\ List.NoDup d
            /\ (3 <= length d <= 5)%nat
            /\ Forall (fun x => In x (accountIds transactions)) d
            /\ isCircle (pays transactions) d = true.
Proof.
  intros Hg Hc. unfold findCycles in Hc.
  pose proof (dedupeCycles_from (discoveredCycles (adjList g) (allNodes g) 3 5))
    as Hfrom.
  rewrite List.Forall_forall in Hfrom. destruct (Hfrom c Hc) as (d & Hd & ->).
  exists d. split; [exact Hd|]. split; [reflexivity|].
  pose proof (discoveredCycles_bounded (adjList g) (allNodes g) 3 5) as Hb.
  rewrite List.Forall_forall in Hb. destruct (Hb d Hd) as [Hlen Hnd].
  split; [intros ->; simpl in Hlen; lia|]. split; [exact Hnd|].
  split; [exact Hlen|].
  destruct (buildAdjacency_lookup transactions emptyGraph g Hg) as (_ & _ & Hall).
  change (allNodes g = JSSet.ofList (accountIds transactions)) in Hall.
  pose proof (discoveredCycles_circles (adjList g) (allNodes g) 3 5
                (fun x => In x (accountIds transactions))) as Hcirc.
  rewrite List.Forall_forall in Hcirc.
  destruct (Hcirc) with (x := d) as [Hgood Hcircle]; [| |exact Hd|].
  - intros k e He.
    rewrite (proj1 (buildAdjacency_edges transactions g k Hg)) in He.
    apply in_map_iff in He. destruct He as (t & <- & Ht).
    apply filter_In in Ht. destruct Ht as [Ht _].
    apply accountIds_In. exists t. auto.
  - intros k Hk. rewrite Hall in Hk. now apply JSSetFacts.ofList_In.
  - split; [exact Hgood|]. rewrite <- Hcircle. apply isCircle_ext.
    intros x y. symmetry. now apply linked_pays.
Qed.

(** X11. Every cycle that the search reports for a batch is a circle of
    payments of the batch: each account has a transfer to the next one and
    the last has a transfer to the first.  The accounts are accounts of the
    batch, and the first one is below all the others in the order of [<],
    which compares UTF-16 code units ([jsLtb]). *)
Theorem reported_cycles_are_payment_circles transactions g c :
  buildAdjacency emptyGraph transactions = Some g ->
  In c (findCycles (adjList g) (allNodes g) 3 5) ->
  isCircle (pays transactions) c = true
  /\ Forall (fun x => In x (accountIds transactions)) c
  /\ forall x, In x (tl c) -> jsLtb (hd EmptyString c) x = true.
Proof.
  intros Hg Hc.
  destruct (findCycles_from_batch _ _ _ Hg Hc)
    as (d & _ & -> & Hne & Hnd & _ & Hgood & Hcircle).
  split; [|split].
  - destruct (normalize_split d) as (i & ->).
    apply isCircle_rotation. now rewrite firstn_skipn.
  - apply List.Forall_forall. intros x Hx. rewrite List.Forall_forall in Hgood.
    apply Hgood. eapply Permutation_in; [|exact Hx].
    apply Permutation_sym, normalize_Permutation.
  - now apply normalize_head_least.
Qed.

Lemma reported_cycles_are_payment_circles_witness :
  buildAdjacency emptyGraph wideIdBatch = Some (graphOf wideIdBatch)
  /\ findCycles (adjList (graphOf wideIdBatch)) (allNodes (graphOf wideIdBatch))
       3 5 = [[pairId; wideA; wideB]]
  /\ isCircle (pays wideIdBatch) [pairId; wideA; wideB] = true
  /\ jsLtb pairId wideA = true /\ jsLtb pairId wideB = true.
Proof.
  assert (Hg : buildAdjacency emptyGraph wideIdBatch = Some (graphOf wideIdBatch))
    by (vm_compute; reflexivity).
  assert (Hf : findCycles (adjList (graphOf wideIdBatch))
                 (allNodes (graphOf wideIdBatch)) 3 5 = [[pairId; wideA; wideB]])
    by (vm_compute; reflexivity).
  assert (Hc : In [pairId; wideA; wideB]
                 (findCycles (adjList (graphOf wideIdBatch))
                    (allNodes (graphOf wideIdBatch)) 3 5))
    by (rewrite Hf; left; reflexivity).
  pose proof (reported_cycles_are_payment_circles wideIdBatch _ _ Hg Hc)
    as (Hcircle & _ & Hleast).
  split; [exact Hg|]. split; [exact Hf|]. split; [exact Hcircle|].
  split; apply Hleast; simpl; auto.
Defined.

Lemma isPath_successor link l z x :
  isPath link (l ++ [z]) = true -> In x l -> exists y, link x y = true.
Proof.
  induction l as [|a l IH]; [intros _ []|]. intros Hpath Hx.
  destruct l as [|b l].
  - simpl in Hpath. apply andb_true_iff in Hpath.
    destruct Hx as [<-|[]]. exists z. tauto.
  - change (link a b && isPath link ((b :: l) ++ [z]) = true) in Hpath.
    apply andb_true_iff in Hpath. destruct Hpath as [Hab Hpath].
    destruct Hx as [<-|Hx]; [eauto | auto].
Qed.

(** With ids free of the separator, every circle of payments among 3 to 5
    distinct accounts is found, in canonical form. *)
Lemma findCycles_complete transactions g c :
  buildAdjacency emptyGraph transactions = Some g ->
  (forall t, In t transactions ->
     hasSeparator (sender_id t) = false /\ hasSeparator (receiver_id t) = false) ->
  List.NoDup c -> (3 <= length c <= 5)%nat ->
  isCircle (pays transactions) c = true ->
  In (normalize c) (findCycles (adjList g) (allNodes g) 3 5).
Proof.
  intros Hg Hsep Hnd Hlen Hcircle.
  assert (Hfree : forall x, In x (accountIds transactions) ->
                            hasSeparator x = false).
  { intros x Hx. apply accountIds_In in Hx.
    destruct Hx as (t & Ht & [<-|<-]); now apply Hsep. }
  destruct (buildAdjacency_lookup transactions emptyGraph g Hg) as (_ & _ & Hall).
  change (allNodes g = JSSet.ofList (accountIds transactions)) in Hall.
  assert (Hne : c <> []) by (intros ->; simpl in Hlen; lia).
  assert (Hmem : forall x, In x c -> In x (accountIds transactions)).
  { intros x Hx. destruct c as [|x0 c0]; [destruct Hx|].
    unfold isCircle in Hcircle.
    destruct (isPath_successor _ _ _ x Hcircle Hx) as (y & Hy).
    now apply pays_accounts in Hy. }
  destruct (first_member (allNodes g) c) as (n1 & s & n2 & Hnodes & Hs & Hfresh).
  { destruct c as [|x0 c0]; [congruence|]. exists x0. split; [now left|].
    rewrite Hall. apply JSSetFacts.ofList_In, Hmem. now left. }
  apply in_split in Hs. destruct Hs as (l1 & l2 & Hc).
  set (rest := l2 ++ l1).
  assert (Hperm : Permutation c (s :: rest)).
  { rewrite Hc. unfold rest.
    change (s :: l2 ++ l1) with ((s :: l2) ++ l1). apply Permutation_app_comm. }
  assert (Hdisc : In (s :: rest)
                    (discoveredCycles (adjList g) (allNodes g) 3 5)).
  { apply (discoveredCycles_complete _ _ _ _ n1 s n2 rest Hnodes).
    - eapply Permutation_NoDup; [exact Hperm | exact Hnd].
    - intros x Hx Hin. apply (Hfresh x Hin).
      eapply Permutation_in; [apply Permutation_sym, Hperm | now right].
    - rewrite (isCircle_ext _ (pays transactions))
        by (intros; now apply linked_pays).
      change (s :: rest) with ((s :: l2) ++ l1).
      apply isCircle_rotation. now rewrite <- Hc.
    - apply Permutation_length in Hperm. simpl in Hperm. lia. }
  assert (Hnorm : normalize c = normalize (s :: rest)).
  { apply normalize_rotation; [exact Hnd|]. now exists l1, (s :: l2). }
  destruct (dedupeCycles_keys (discoveredCycles (adjList g) (allNodes g) 3 5))
    as [_ Hkeys].
  pose proof (Hkeys _ Hdisc) as Hkey. fold (findCycles (adjList g) (allNodes g) 3 5) in Hkey.
  apply in_map_iff in Hkey. destruct Hkey as (u & Hku & Hu).
  replace (normalize c) with u; [exact Hu|].
  destruct (findCycles_from_batch _ _ _ Hg Hu)
    as (d & _ & Hud & Hdne & _ & _ & Hgood & _).
  rewrite Hnorm. apply cycleKey_inj; [| | | |exact Hku].
  - rewrite Hud. intros Hnil. apply (f_equal (@length string)) in Hnil.
    rewrite normalize_length in Hnil. destruct d; [congruence | discriminate].
  - intros Hnil. apply (f_equal (@length string)) in Hnil.
    rewrite normalize_length in Hnil. discriminate.
  - rewrite Hud. apply List.Forall_forall. intros x Hx. apply Hfree.
    rewrite List.Forall_forall in Hgood. apply Hgood.
    eapply Permutation_in; [|exact Hx].
    apply Permutation_sym, normalize_Permutation.
  - rewrite <- Hnorm. apply List.Forall_forall. intros x Hx. apply Hfree, Hmem.
    eapply Permutation_in; [|exact Hx].
    apply Permutation_sym, normalize_Permutation.
Qed.

(** X12. The search misses no circle: for a batch whose account ids do not
    contain the separator of the cycle keys, every circle of payments among
    3 to 5 distinct accounts is reported, read from its smallest account in
    the order of [<] (UTF-16 code units). *)
Theorem payment_circles_are_reported transactions g c :
  buildAdjacency emptyGraph transactions = Some g ->
  (forall t, In t transactions ->
     hasSeparator (sender_id t) = false /\ hasSeparator (receiver_id t) = false) ->
  List.NoDup c -> (3 <= length c <= 5)%nat ->
  isCircle (pays transactions) c = true ->
  In (normalize c) (findCycles (adjList g) (allNodes g) 3 5).
Proof. apply findCycles_complete. Qed.

Lemma payment_circles_are_reported_witness :
  buildAdjacency emptyGraph wideIdBatch = Some (graphOf wideIdBatch)
  /\ normalize [wideB; pairId; wideA] = [pairId; wideA; wideB]
  /\ In (normalize [wideB; pairId; wideA])
       (findCycles (adjList (graphOf wideIdBatch)) (allNodes (graphOf wideIdBatch))
          3 5).
Proof.
  assert (Hg : buildAdjacency emptyGraph wideIdBatch = Some (graphOf wideIdBatch))
    by (vm_compute; reflexivity).
  split; [exact Hg|]. split; [vm_compute; reflexivity|].
  apply (payment_circles_are_reported wideIdBatch _ [wideB; pairId; wideA] Hg).
  - intros t [<-|[<-|[<-|[]]]]; split; reflexivity.
  - repeat constructor; simpl; intuition discriminate.
  - simpl. lia.
  - vm_compute. reflexivity.
Defined.

(** ** Smurfing: what a hit reports *)

Section WindowFacts.
Variables key other : Transaction -> string.
Variable tag : string.
Variable transactions : list Transaction.

Lemma firstWindow_first sorted anchors u :
  firstWindow other sorted anchors = Some u ->
  exists pre anchor post,
    anchors = pre ++ anchor :: post /\ u = uniqueOf other sorted anchor
    /\ (10 <= length u)%nat
    /\ Forall (fun a => (length (uniqueOf other sorted a) <= 9)%nat) pre.
Proof.
  induction anchors as [|a rest IH]; cbn [firstWindow]; [discriminate|].
  fold (uniqueOf other sorted a). unfold JSSet.size.
  destruct (10 <=? length (uniqueOf other sorted a))%nat eqn:E.
  - intros [= <-]. apply Nat.leb_le in E. exists [], a, rest.
    repeat split; auto.
  - intros Hu. destruct (IH Hu) as (pre & anchor & post & -> & Heq & Hlen & Hpre).
    exists (a :: pre), anchor, post. repeat split; auto.
    constructor; [|exact Hpre]. apply Nat.leb_gt in E. lia.
Qed.

Lemma byTimestamp_sorted l :
  Sorted.StronglySorted (fun a b => timestamp a <= timestamp b)
    (sortBy byTimestamp l).
Proof.
  eapply StronglySorted_weaken; [|apply (sortBy_sorted byTimestamp)];
    unfold byTimestamp; intros; lia.
Qed.

Lemma StronglySorted_app_inv {A} (R : A -> A -> Prop) l1 x l2 :
  Sorted.StronglySorted R (l1 ++ x :: l2) -> Forall (R x) l2.
Proof.
  induction l1 as [|y l1 IH]; simpl; intros Hs;
    inversion Hs as [|? ? Hl Hall]; subst; auto.
Qed.

(** The hit of a group reports the earliest window of the hub that reaches
    the threshold. *)
Lemma group_hit_reports k u :
  firstWindow other (sortBy byTimestamp (keyed key k transactions))
    (sortBy byTimestamp (keyed key k transactions)) = Some u ->
  reportsWindow key other transactions (mkPatternHit tag (k :: u)).
Proof.
  intros Hu. set (sorted := sortBy byTimestamp (keyed key k transactions)) in *.
  destruct (firstWindow_first sorted sorted u Hu)
    as (pre & anchor & post & Hsplit & -> & Hlen & Hpre).
  assert (Hkeyed : forall t, In t sorted <-> In t transactions /\ key t = k).
  { intros t. unfold sorted, keyed. rewrite sortBy_In, filter_In.
    now rewrite String.eqb_eq. }
  assert (Hanchor : In anchor sorted).
  { rewrite Hsplit. apply in_app_iff. right. now left. }
  exists k, (uniqueOf other sorted anchor), anchor.
  split; [reflexivity|]. split; [exact Hlen|].
  split; [apply Hkeyed, Hanchor|]. split; [apply Hkeyed, Hanchor|].
  split; [apply uniqueOf_counterparties|].
  intros a ss' Ha Hk Hbefore Hss'.
  rewrite (counterparties_length key other transactions k a ss'
             (uniqueOf other sorted a) Hss'
             (uniqueOf_counterparties key other transactions k a)).
  assert (Hin : In a sorted) by (apply Hkeyed; auto).
  rewrite Hsplit in Hin. apply in_app_iff in Hin.
  destruct Hin as [Hin|[->|Hin]].
  - rewrite List.Forall_forall in Hpre. now apply Hpre.
  - lia.
  - pose proof (byTimestamp_sorted (keyed key k transactions)) as Hs.
    fold sorted in Hs. rewrite Hsplit in Hs.
    apply StronglySorted_app_inv in Hs. rewrite List.Forall_forall in Hs.
    specialize (Hs a Hin). simpl in Hs. lia.
Qed.

End WindowFacts.

(** X13. Every hit of the smurfing detector lists its hub first and then
    the distinct counterparties, at least 10, of the transfers of the hub in
    a 72-hour window that starts at one of them: the senders to a receiver
    for [fan_in], the receivers of a sender for [fan_out].  The window is
    the earliest one of the hub that reaches 10 counterparties. *)
Theorem smurfing_hits_report_a_window transactions nodeStats hit :
  In hit (detectSmurfing transactions nodeStats) ->
  (type hit = "fan_in"
   /\ reportsWindow receiver_id sender_id transactions hit)
  \/ (type hit = "fan_out"
      /\ reportsWindow sender_id receiver_id transactions hit).
Proof.
  unfold detectSmurfing. intros Hhit.
  destruct (groupBy_grouped sender_id transactions) as (_ & Hout & _).
  destruct (groupBy_grouped receiver_id transactions) as (_ & Hin & _).
  apply fanStep_fold_In in Hhit.
  destruct Hhit as [Hhit|(k & l & u & Hg & Hu & ->)].
  - apply fanStep_fold_In in Hhit.
    destruct Hhit as [[]|(k & l & u & Hg & Hu & ->)].
    left. split; [reflexivity|].
    rewrite (Hin _ _ Hg) in Hu. now apply group_hit_reports.
  - right. split; [reflexivity|].
    rewrite (Hout _ _ Hg) in Hu. now apply group_hit_reports.
Qed.

Lemma smurfing_hits_report_a_window_witness :
  In (mkPatternHit "fan_in"
        ["R"; "S1"; "S2"; "S3"; "S4"; "S5"; "S6"; "S7"; "S8"; "S9"; "S10"])
     (detectSmurfing (fanInBatch 10) [])
  /\ reportsWindow receiver_id sender_id (fanInBatch 10)
       (mkPatternHit "fan_in"
          ["R"; "S1"; "S2"; "S3"; "S4"; "S5"; "S6"; "S7"; "S8"; "S9"; "S10"]).
Proof.
  assert (Hin : In (mkPatternHit "fan_in"
                      ["R"; "S1"; "S2"; "S3"; "S4"; "S5"; "S6"; "S7"; "S8";
                       "S9"; "S10"])
                   (detectSmurfing (fanInBatch 10) []))
    by (vm_compute; left; reflexivity).
  split; [exact Hin|].
  destruct (smurfing_hits_report_a_window _ _ _ Hin) as [[_ H]|[Ht _]];
    [exact H | discriminate Ht].
Defined.

(** ** Shell chains: paths without repeated account *)

Section ShellPaths.
Variable adj : AdjList.
Variable nodeStats : JSMap.t NodeStats.

Lemma NoDup_snoc (l : list string) x :
  List.NoDup l -> ~ In x l -> List.NoDup (l ++ [x]).
Proof.
  intros Hnd Hx. apply NoDup_rev in Hnd.
  rewrite <- (rev_involutive (l ++ [x])). apply NoDup_rev.
  rewrite rev_app_distr. simpl. constructor; [|exact Hnd].
  now rewrite <- in_rev.
Qed.

(** The loop of line 247 extends a path by edges to accounts it has not
    visited. *)
Lemma extendChain_path fuel : forall chain visited current,
  chain <> [] -> List.last chain EmptyString = current ->
  List.NoDup chain -> (forall x, In x chain -> In x visited) ->
  isPath (linked adj) chain = true ->
  let r := extendChain fuel adj nodeStats chain visited current in
  List.NoDup r /\ isPath (linked adj) r = true.
Proof.
  induction fuel as [|fuel IH]; intros chain visited current Hne Hlast Hnd Hsub
    Hpath; simpl; [auto|].
  destruct (length chain <? 8)%nat; [|auto].
  set (nextEdges := List.filter _ (edgesOf adj current)).
  assert (Hnext : forall e, In e nextEdges ->
            List.NoDup (chain ++ [target e])
            /\ isPath (linked adj) (chain ++ [target e]) = true).
  { intros e He. apply filter_In in He. destruct He as [He Hfresh].
    apply negb_true_iff, JSSetFacts.has_false in Hfresh. split.
    - apply NoDup_snoc; auto.
    - rewrite isPath_snoc, Hpath, Hlast by exact Hne.
      now apply linked_edge. }
  destruct (List.find _ nextEdges) as [nextShell|] eqn:Efind.
  - apply find_some in Efind. destruct Efind as [He _].
    destruct (Hnext _ He) as [Hnd' Hpath'].
    apply IH; auto.
    + intros H. apply app_eq_nil in H. destruct H as [_ H]. discriminate H.
    + apply last_last.
    + intros x Hx. apply JSSetFacts.add_In. apply in_app_iff in Hx.
      destruct Hx as [Hx|[<-|[]]]; auto.
  - destruct nextEdges as [|e rest] eqn:En; [auto|].
    apply Hnext. now left.
Qed.

Lemma shellStart_paths allNodes acc start :
  In start allNodes ->
  Forall (fun c => List.NoDup c /\ isPath (linked adj) c = true
                   /\ In (hd EmptyString c) allNodes) (snd acc) ->
  Forall (fun c => List.NoDup c /\ isPath (linked adj) c = true
                   /\ In (hd EmptyString c) allNodes)
    (snd (shellStart adj nodeStats acc start)).
Proof.
  intros Hstart Hacc. unfold shellStart.
  destruct (JSMap.get nodeStats start) as [startStats|] eqn:Es; [|exact Hacc].
  destruct (totalTransactions startStats <=? 3)%nat eqn:E; [exact Hacc|].
  apply Nat.leb_gt in E.
  apply fold_left_invariant; [exact Hacc|].
  intros [seen chains] e He Ha. unfold shellEdge.
  destruct (JSMap.get nodeStats (target e)) as [firstStats|] eqn:Ef;
    [|exact Ha].
  destruct (3 <? totalTransactions firstStats)%nat eqn:E3; [exact Ha|].
  apply Nat.ltb_ge in E3. cbv zeta.
  assert (Hne : start <> target e).
  { intros Heq. rewrite <- Heq, Es in Ef. injection Ef as <-. lia. }
  pose proof (extendChain_path 8 [start; target e]
                (JSSet.ofList [start; target e]) (target e)) as Hext.
  pose proof (extendChain_spec adj nodeStats 8 [start; target e]
                (JSSet.ofList [start; target e]) (target e)) as Hspec.
  set (chain := extendChain 8 adj nodeStats _ _ _) in *.
  destruct (4 <=? length chain)%nat; [|exact Ha].
  destruct (JSSet.has seen (chainKey chain)); [exact Ha|].
  cbn [snd] in *. apply Forall_app. split; [exact Ha|].
  constructor; [|constructor].
  destruct Hext as [Hnd Hpath].
  - discriminate.
  - reflexivity.
  - constructor; [|constructor; [intros [] | constructor]].
    intros [H|[]]. congruence.
  - intros x Hx. now apply JSSetFacts.ofList_In.
  - simpl. rewrite andb_true_r. now apply linked_edge.
  - split; [exact Hnd|]. split; [exact Hpath|].
    destruct Hspec as (_ & Hhd & _).
    + discriminate.
    + constructor; [|constructor]. unfold low, lowActivity. rewrite Ef.
      now apply Nat.leb_le.
    + simpl. lia.
    + rewrite Hhd. exact Hstart.
Qed.
End ShellPaths.

Lemma detectShellNetworks_paths adj nodeStats allNodes :
  Forall (fun c => List.NoDup c /\ isPath (linked adj) c = true
                   /\ In (hd EmptyString c) allNodes)
    (detectShellNetworks adj nodeStats allNodes).
Proof.
  unfold detectShellNetworks.
  apply (fold_left_invariant
           (fun acc => Forall (fun c => List.NoDup c
                                        /\ isPath (linked adj) c = true
                                        /\ In (hd EmptyString c) allNodes)
                         (snd acc))); [constructor|].
  intros acc start Hstart Hacc. now apply shellStart_paths.
Qed.

(** X14. Every chain of the shell detector follows the edges of the
    adjacency lists from a node: each account has an edge to the next one,
    and no account occurs twice in a chain. *)
Theorem shell_chains_are_paths adj nodeStats allNodes chain :
  In chain (detectShellNetworks adj nodeStats allNodes) ->
  isPath (linked adj) chain = true
  /\ List.NoDup chain
  /\ In (hd EmptyString chain) allNodes.
Proof.
  intros Hchain.
  pose proof (detectShellNetworks_paths adj nodeStats allNodes) as Hall.
  rewrite List.Forall_forall in Hall. destruct (Hall chain Hchain) as (? & ? & ?).
  auto.
Qed.

Lemma shell_chains_are_paths_witness :
  In ["O"; "S1"; "S2"; "S3"]
     (detectShellNetworks (adjList (graphOf shellBatch))
        (computeStats (graphOf shellBatch)) (allNodes (graphOf shellBatch)))
  /\ isPath (linked (adjList (graphOf shellBatch))) ["O"; "S1"; "S2"; "S3"] = true.
Proof.
  assert (Hin : In ["O"; "S1"; "S2"; "S3"]
                  (detectShellNetworks (adjList (graphOf shellBatch))
                     (computeStats (graphOf shellBatch))
                     (allNodes (graphOf shellBatch))))
    by (vm_compute; left; reflexivity).
  split; [exact Hin|].
  exact (proj1 (shell_chains_are_paths _ _ _ _ Hin)).
Defined.

(** ** The classifiers on the statistics of the batch *)

Lemma computeStats_In transactions g k stats :
  buildAdjacency emptyGraph transactions = Some g ->
  In (k, stats) (computeStats g) ->
  inDegree stats = length (keyed receiver_id k transactions)
  /\ outDegree stats = length (keyed sender_id k transactions).
Proof.
  intros Hg Hin. unfold computeStats in Hin. apply in_map_iff in Hin.
  destruct Hin as (k' & [= -> <-] & _). unfold statsOf. cbn [inDegree outDegree].
  destruct (buildAdjacency_edges transactions g k Hg) as [-> ->].
  now rewrite !length_map.
Qed.

Lemma computeStats_keys transactions g k :
  buildAdjacency emptyGraph transactions = Some g ->
  (exists stats, In (k, stats) (computeStats g)) <->
  exists t, In t transactions /\ (sender_id t = k \/ receiver_id t = k).
Proof.
  intros Hg.
  destruct (buildAdjacency_lookup transactions emptyGraph g Hg) as (_ & _ & Hall).
  change (allNodes g = JSSet.ofList (accountIds transactions)) in Hall.
  rewrite <- accountIds_In, <- JSSetFacts.ofList_In, <- Hall.
  unfold computeStats. split.
  - intros (stats & Hin). apply in_map_iff in Hin.
    now destruct Hin as (k' & [= -> _] & Hk).
  - intros Hk. exists (statsOf g k). apply in_map_iff. eauto.
Qed.

Lemma classifier_In (test : string -> NodeStats -> bool)
    (nodeStats : JSMap.t NodeStats) k :
  In k (fold_left
          (fun acc kv => if test (fst kv) (snd kv) then JSSet.add acc (fst kv)
                         else acc) nodeStats [])
  <-> exists stats, In (k, stats) nodeStats /\ test k stats = true.
Proof.
  enough (H : forall init,
            In k (fold_left
                    (fun acc kv => if test (fst kv) (snd kv)
                                   then JSSet.add acc (fst kv) else acc)
                    nodeStats init)
            <-> In k init
                \/ exists stats, In (k, stats) nodeStats /\ test k stats = true).
  { rewrite H. simpl. tauto. }
  induction nodeStats as [|[k' s'] l IH]; intros init; simpl.
  - split; [auto | intros [H|(s & [] & _)]; exact H].
  - rewrite IH. destruct (test k' s') eqn:E.
    + rewrite JSSetFacts.add_In. split.
      * intros [[H| ->]|(s & Hs & Ht)]; eauto 6.
      * intros [H|(s & [[= -> ->]|Hs] & Ht)]; eauto 6.
    + split.
      * intros [H|(s & Hs & Ht)]; eauto 6.
      * intros [H|(s & [[= -> ->]|Hs] & Ht)]; eauto 6. congruence.
Qed.

Lemma fold_max_spec l : forall m,
  (fold_left Z.max l m = m \/ In (fold_left Z.max l m) l)
  /\ m <= fold_left Z.max l m
  /\ forall x, In x l -> x <= fold_left Z.max l m.
Proof.
  induction l as [|y l IH]; intros m; simpl.
  - split; [auto|]. split; [lia | intros x []].
  - destruct (IH (Z.max m y)) as (Hin & Hle & Hall). split; [|split].
    + destruct Hin as [Heq|Hin]; [|auto].
      rewrite Heq. destruct (Z.max_spec m y) as [[_ ->]|[_ ->]]; auto.
    + lia.
    + intros x [<-|Hx]; [lia | auto].
Qed.

Lemma fold_min_Z_spec l : forall m,
  (fold_left Z.min l m = m \/ In (fold_left Z.min l m) l)
  /\ fold_left Z.min l m <= m
  /\ forall x, In x l -> fold_left Z.min l m <= x.
Proof.
  induction l as [|y l IH]; intros m; simpl.
  - split; [auto|]. split; [lia | intros x []].
  - destruct (IH (Z.min m y)) as (Hin & Hle & Hall). split; [|split].
    + destruct Hin as [Heq|Hin]; [|auto].
      rewrite Heq. destruct (Z.min_spec m y) as [[_ ->]|[_ ->]]; auto.
    + lia.
    + intros x [<-|Hx]; [lia | auto].
Qed.

(** The test of line 282 succeeds exactly when two of the timestamps are
    more than 168 hours apart. *)
Lemma spansOverWeek_iff ts :
  spansOverWeek ts = true <->
  exists a b, In a ts /\ In b ts /\ 168 * 3600000 < b - a.
Proof.
  destruct ts as [|t rest]; simpl.
  - split; [discriminate | intros (a & b & [] & _)].
  - destruct (fold_max_spec rest t) as (Hmax & Hmax1 & Hmax2).
    destruct (fold_min_Z_spec rest t) as (Hmin & Hmin1 & Hmin2).
    unfold Qltb, hoursOf, Qle_bool. simpl.
    rewrite negb_true_iff, Z.leb_gt. split.
    + intros Hspan. exists (fold_left Z.min rest t), (fold_left Z.max rest t).
      split; [destruct Hmin as [->|H]; auto|].
      split; [destruct Hmax as [->|H]; auto|]. lia.
    + intros (a & b & Ha & Hb & Hab).
      assert (fold_left Z.min rest t <= a) by (destruct Ha as [<-|Ha]; auto).
      assert (b <= fold_left Z.max rest t) by (destruct Hb as [<-|Hb]; auto).
      lia.
Qed.

(** X15. For the statistics of the batch, [detectMerchants] classifies an
    account as merchant exactly when the batch has at least 20 transfers to
    it, from at least 15 distinct senders, and two of these transfers are
    more than 168 hours apart. *)
Theorem merchants_of_the_batch transactions g k :
  buildAdjacency emptyGraph transactions = Some g ->
  In k (detectMerchants (computeStats g) transactions) <->
  (20 <= length (keyed receiver_id k transactions))%nat
  /\ (15 <= countDistinct
              (List.map sender_id (keyed receiver_id k transactions)))%nat
  /\ exists t1 t2, In t1 (keyed receiver_id k transactions)
                   /\ In t2 (keyed receiver_id k transactions)
                   /\ 168 * 3600000 < timestamp t2 - timestamp t1.
Proof.
  intros Hg. unfold detectMerchants.
  rewrite (classifier_In (isMerchant transactions)).
  assert (Htest : forall stats,
            inDegree stats = length (keyed receiver_id k transactions) ->
            isMerchant transactions k stats = true <->
            (20 <= length (keyed receiver_id k transactions))%nat
            /\ (15 <= countDistinct
                        (List.map sender_id (keyed receiver_id k transactions)))%nat
            /\ exists t1 t2, In t1 (keyed receiver_id k transactions)
                             /\ In t2 (keyed receiver_id k transactions)
                             /\ 168 * 3600000 < timestamp t2 - timestamp t1).
  { intros stats Hdeg. unfold isMerchant. rewrite Hdeg.
    fold (keyed receiver_id k transactions).
    fold (countDistinct (List.map sender_id (keyed receiver_id k transactions))).
    destruct (length (keyed receiver_id k transactions) <? 20)%nat eqn:E1.
    { apply Nat.ltb_lt in E1. split; [discriminate | lia]. }
    apply Nat.ltb_ge in E1.
    destruct (15 <=? countDistinct _)%nat eqn:E2.
    2:{ apply Nat.leb_gt in E2. split; [discriminate | lia]. }
    apply Nat.leb_le in E2. rewrite spansOverWeek_iff. split.
    - intros (a & b & Ha & Hb & Hab). apply in_map_iff in Ha, Hb.
      destruct Ha as (t1 & <- & Ht1), Hb as (t2 & <- & Ht2). eauto 10.
    - intros (_ & _ & t1 & t2 & Ht1 & Ht2 & Hspan).
      exists (timestamp t1), (timestamp t2).
      split; [now apply in_map|]. split; [now apply in_map | exact Hspan]. }
  split.
  - intros (stats & Hin & Hm).
    apply Htest in Hm; [exact Hm|]. apply (computeStats_In _ _ _ _ Hg Hin).
  - intros Hk.
    assert (Hex : exists stats, In (k, stats) (computeStats g)).
    { apply (computeStats_keys _ _ _ Hg).
      destruct (keyed receiver_id k transactions) as [|t l] eqn:E;
        [simpl in Hk; lia|].
      assert (Ht : In t (keyed receiver_id k transactions))
        by (rewrite E; now left).
      unfold keyed in Ht. apply filter_In in Ht. destruct Ht as [Ht Hr].
      apply String.eqb_eq in Hr. eauto. }
    destruct Hex as (stats & Hin). exists stats. split; [exact Hin|].
    apply Htest; [|exact Hk]. apply (computeStats_In _ _ _ _ Hg Hin).
Qed.

Lemma merchants_of_the_batch_witness :
  buildAdjacency emptyGraph merchantBatch = Some (graphOf merchantBatch)
  /\ In "M" (detectMerchants (computeStats (graphOf merchantBatch)) merchantBatch).
Proof.
  assert (Hg : buildAdjacency emptyGraph merchantBatch
               = Some (graphOf merchantBatch))
    by (vm_compute; reflexivity).
  split; [exact Hg|].
  apply (proj2 (merchants_of_the_batch merchantBatch _ "M" Hg)).
  split; [vm_compute; lia|]. split; [vm_compute; lia|].
  exists (transfer "P1" "M1" "M" 100 (10 * hour)),
         (transfer "P20" "M20" "M" 100 (200 * hour)).
  split; [vm_compute; left; reflexivity|].
  split; [vm_compute; do 19 right; left; reflexivity|].
  vm_compute. reflexivity.
Defined.

(** ** Payroll classification on the batch; amounts that are no numbers *)

Module NaNFacts.

Lemma is_nan_spec x : PrimFloat.is_nan x = true -> Prim2SF x = S754_nan.
Proof.
  unfold PrimFloat.is_nan. rewrite FloatAxioms.eqb_spec, negb_true_iff.
  unfold SFeqb, SFcompare.
  destruct (Prim2SF x) as [s|s| |s m e]; try (destruct s; discriminate); auto.
  rewrite Z.compare_refl, Pos.compare_cont_refl. destruct s; discriminate.
Qed.

Lemma add_nan_l x y : Prim2SF x = S754_nan -> Prim2SF (x + y)%float = S754_nan.
Proof.
  intros Hx. rewrite FloatAxioms.add_spec, Hx. reflexivity.
Qed.

Lemma add_nan_r x y : Prim2SF y = S754_nan -> Prim2SF (x + y)%float = S754_nan.
Proof.
  intros Hy. rewrite FloatAxioms.add_spec, Hy.
  now destruct (Prim2SF x).
Qed.

Lemma div_nan_l x y : Prim2SF x = S754_nan -> Prim2SF (x / y)%float = S754_nan.
Proof.
  intros Hx. rewrite FloatAxioms.div_spec, Hx. reflexivity.
Qed.

Lemma div_nan_r x y : Prim2SF y = S754_nan -> Prim2SF (x / y)%float = S754_nan.
Proof.
  intros Hy. rewrite FloatAxioms.div_spec, Hy.
  now destruct (Prim2SF x).
Qed.

Lemma ltb_nan_l x y : Prim2SF x = S754_nan -> (x <? y)%float = false.
Proof.
  intros Hx. rewrite FloatAxioms.ltb_spec, Hx. reflexivity.
Qed.

Lemma sum_nan_from amounts : forall s,
  Prim2SF s = S754_nan -> Prim2SF (fold_left PrimFloat.add amounts s) = S754_nan.
Proof.
  induction amounts as [|a l IH]; intros s Hs; simpl; [exact Hs|].
  apply IH. now apply add_nan_l.
Qed.

Lemma sum_nan amounts a : forall s,
  In a amounts -> Prim2SF a = S754_nan ->
  Prim2SF (fold_left PrimFloat.add amounts s) = S754_nan.
Proof.
  induction amounts as [|b l IH]; intros s Hin Ha; [destruct Hin|]. simpl.
  destruct Hin as [->|Hin]; [|now apply IH].
  apply sum_nan_from. now apply add_nan_r.
Qed.

(** One amount that is no number makes the mean, and with it the ratio of
    line 296, no number: the comparison with 0.15 fails. *)
Lemma uniformPayout_nan amounts a :
  In a amounts -> PrimFloat.is_nan a = true -> uniformPayout amounts = false.
Proof.
  intros Hin Ha. unfold uniformPayout. cbv zeta.
  apply ltb_nan_l, div_nan_r. unfold meanOf.
  apply div_nan_l. apply (sum_nan amounts a); [exact Hin|].
  now apply is_nan_spec.
Qed.
End NaNFacts.

(** X16. For the statistics of the batch, [detectPayroll] classifies an
    account as payroll exactly when the batch has at least 10 transfers
    from it and the ratio of the standard deviation to the mean of their
    amounts is below 0.15; an account one of whose outgoing amounts is NaN
    is never classified. *)
Theorem payroll_of_the_batch transactions g k :
  buildAdjacency emptyGraph transactions = Some g ->
  (In k (detectPayroll (computeStats g) transactions) <->
   (10 <= length (keyed sender_id k transactions))%nat
   /\ uniformPayout (List.map amount (keyed sender_id k transactions)) = true)
  /\ ((exists t, In t transactions /\ sender_id t = k
                 /\ PrimFloat.is_nan (amount t) = true) ->
      ~ In k (detectPayroll (computeStats g) transactions)).
Proof.
  intros Hg.
  assert (Hiff : In k (detectPayroll (computeStats g) transactions) <->
            (10 <= length (keyed sender_id k transactions))%nat
            /\ uniformPayout (List.map amount (keyed sender_id k transactions))
               = true).
  { unfold detectPayroll. rewrite (classifier_In (isPayroll transactions)).
    assert (Htest : forall stats,
              outDegree stats = length (keyed sender_id k transactions) ->
              isPayroll transactions k stats = true <->
              (10 <= length (keyed sender_id k transactions))%nat
              /\ uniformPayout
                   (List.map amount (keyed sender_id k transactions)) = true).
    { intros stats Hdeg. unfold isPayroll, outgoingAmounts. rewrite Hdeg.
      fold (keyed sender_id k transactions).
      destruct (length (keyed sender_id k transactions) <? 10)%nat eqn:E.
      - apply Nat.ltb_lt in E. split; [discriminate | lia].
      - apply Nat.ltb_ge in E. tauto. }
    split.
    - intros (stats & Hin & Hp).
      apply Htest in Hp; [exact Hp|]. apply (computeStats_In _ _ _ _ Hg Hin).
    - intros Hk.
      assert (Hex : exists stats, In (k, stats) (computeStats g)).
      { apply (computeStats_keys _ _ _ Hg).
        destruct (keyed sender_id k transactions) as [|t l] eqn:E;
          [simpl in Hk; lia|].
        assert (Ht : In t (keyed sender_id k transactions))
          by (rewrite E; now left).
        unfold keyed in Ht. apply filter_In in Ht. destruct Ht as [Ht Hs].
        apply String.eqb_eq in Hs. eauto. }
      destruct Hex as (stats & Hin). exists stats. split; [exact Hin|].
      apply Htest; [|exact Hk]. apply (computeStats_In _ _ _ _ Hg Hin). }
  split; [exact Hiff|].
  intros (t & Ht & Hs & Hnan) Hk. apply Hiff in Hk. destruct Hk as [_ Hk].
  rewrite (NaNFacts.uniformPayout_nan _ (amount t)) in Hk; [discriminate| |exact Hnan].
  apply in_map. unfold keyed. apply filter_In. split; [exact Ht|].
  now apply String.eqb_eq.
Qed.

Lemma payroll_of_the_batch_witness :
  buildAdjacency emptyGraph payrollCycleBatch = Some (graphOf payrollCycleBatch)
  /\ In "A" (detectPayroll (computeStats (graphOf payrollCycleBatch))
               payrollCycleBatch).
Proof.
  assert (Hg : buildAdjacency emptyGraph payrollCycleBatch
               = Some (graphOf payrollCycleBatch))
    by (vm_compute; reflexivity).
  split; [exact Hg|].
  apply (proj2 (proj1 (payroll_of_the_batch payrollCycleBatch _ "A" Hg))).
  split; [vm_compute; lia | vm_compute; reflexivity].
Defined.

(** ** From the patterns to the rings *)

Lemma addRing_shape legit st members patternType baseScore patternTag :
  ringShapes (fraudRings (addRing legit st members patternType baseScore patternTag))
  = ringShapes (fraudRings st)
    ++ (if (2 <=? length (survivors legit members))%nat
        then [(patternType, survivors legit members)] else []).
Proof.
  unfold addRing. set (filtered := survivors legit members).
  destruct (length filtered <? 2)%nat eqn:E.
  - apply Nat.ltb_lt in E.
    replace (2 <=? length filtered)%nat with false
      by (symmetry; apply Nat.leb_gt; lia).
    now rewrite app_nil_r.
  - apply Nat.ltb_ge in E.
    replace (2 <=? length filtered)%nat with true
      by (symmetry; apply Nat.leb_le; lia).
    destruct (fold_left _ filtered _) as [rings patterns]. cbn [fraudRings].
    unfold ringShapes. now rewrite map_app.
Qed.

Lemma addRing_fold_shape {A} legit (f : RingState -> A -> RingState)
    (shape : A -> string * list string) (l : list A) :
  (forall st x,
     ringShapes (fraudRings (f st x))
     = ringShapes (fraudRings st)
       ++ (if (2 <=? length (survivors legit (snd (shape x))))%nat
           then [(fst (shape x), survivors legit (snd (shape x)))] else [])) ->
  forall st,
    ringShapes (fraudRings (fold_left f l st))
    = ringShapes (fraudRings st)
      ++ List.filter (fun p => (2 <=? length (snd p))%nat)
           (List.map (fun p => (fst p, survivors legit (snd p)))
              (List.map shape l)).
Proof.
  intros Hf. induction l as [|x l IH]; intros st;
    cbn [fold_left List.map List.filter fst snd].
  - now rewrite app_nil_r.
  - rewrite IH, Hf, <- app_assoc. f_equal.
    now destruct (2 <=? length (survivors legit (snd (shape x))))%nat.
Qed.

Lemma buildRings_shape legit cycles smurfing shells :
  ringShapes (fraudRings (buildRings legit cycles smurfing shells))
  = List.filter (fun p => (2 <=? length (snd p))%nat)
      (List.map (fun p => (fst p, survivors legit (snd p)))
         (detectedPatterns cycles smurfing shells)).
Proof.
  unfold buildRings, detectedPatterns.
  rewrite (addRing_fold_shape legit (addShell legit)
             (fun c => ("shell_network", c)))
    by (intros; apply addRing_shape).
  rewrite (addRing_fold_shape legit (addSmurf legit)
             (fun p => (type p, accounts p)))
    by (intros; apply addRing_shape).
  rewrite (addRing_fold_shape legit (addCycle legit) (fun c => ("cycle", c)))
    by (intros; apply addRing_shape).
  cbn [ringShapes fraudRings emptyRings List.map app].
  now rewrite !map_app, !List.filter_app, app_assoc.
Qed.

(** X17. The rings of the result follow the detected patterns in order:
    first the cycles, then the smurfing hits, then the shell chains.  Each
    pattern gives the ring of its pattern type whose members are its
    accounts without the legitimate ones, unless fewer than two accounts
    are left; there are no other rings. *)
Theorem rings_follow_the_patterns transactions g res :
  buildAdjacency emptyGraph transactions = Some g ->
  analyzeTransactions transactions = Some res ->
  ringShapes (fraud_rings res)
  = List.filter (fun p => (2 <=? length (snd p))%nat)
      (List.map
         (fun p => (fst p,
                    survivors (legitAccounts (computeStats g) transactions)
                      (snd p)))
         (detectedPatterns
            (findCycles (adjList g) (allNodes g) 3 5)
            (detectSmurfing transactions (computeStats g))
            (detectShellNetworks (adjList g) (computeStats g) (allNodes g)))).
Proof.
  intros Hg Hres.
  destruct (analyzeTransactions_inv _ _ Hres) as (g' & Hg' & Hres').
  rewrite Hg in Hg'. injection Hg' as <-.
  rewrite (analyzeGraph_rings _ _ _ Hres'). apply buildRings_shape.
Qed.

Lemma rings_follow_the_patterns_witness :
  buildAdjacency emptyGraph payrollCycleBatch = Some (graphOf payrollCycleBatch)
  /\ analyzeTransactions payrollCycleBatch = Some (resultOf payrollCycleBatch)
  /\ ringShapes (fraud_rings (resultOf payrollCycleBatch)) = [].
Proof.
  assert (Hg : buildAdjacency emptyGraph payrollCycleBatch
               = Some (graphOf payrollCycleBatch))
    by (vm_compute; reflexivity).
  assert (Hres : analyzeTransactions payrollCycleBatch
                 = Some (resultOf payrollCycleBatch))
    by (vm_compute; reflexivity).
  split; [exact Hg|]. split; [exact Hres|].
  rewrite (rings_follow_the_patterns payrollCycleBatch _ _ Hg Hres).
  vm_compute. reflexivity.
Defined.

(** ** Legitimate accounts in the result *)

Lemma ringIdsOf_none rings k :
  (forall r, In r rings -> ~ In k (member_accounts r)) -> ringIdsOf rings k = [].
Proof.
  unfold ringIdsOf. induction rings as [|r rings IH]; intros Hk; [reflexivity|].
  simpl. rewrite IH by (intros; apply Hk; now right).
  rewrite (proj1 (count_occ_not_In String.string_dec _ _)); [reflexivity|].
  apply Hk. now left.
Qed.

(** X18. An account that [detectMerchants] or [detectPayroll] classifies as
    legitimate is not among the suspicious accounts, and its graph node is
    not flagged, has the score 0 and no ring ids. *)
Theorem legit_accounts_are_never_flagged transactions g res k :
  buildAdjacency emptyGraph transactions = Some g ->
  analyzeTransactions transactions = Some res ->
  In k (detectMerchants (computeStats g) transactions)
  \/ In k (detectPayroll (computeStats g) transactions) ->
  ~ In k (List.map account_id (suspicious_accounts res))
  /\ forall n, In n (nodes (graph res)) -> id n = k ->
       suspicious n = false /\ node_suspicion_score n = 0 /\ ring_ids n = [].
Proof.
  intros Hg Hres Hlegit.
  destruct (analyzeTransactions_inv _ _ Hres) as (g' & Hg' & Hres').
  rewrite Hg in Hg'. injection Hg' as <-.
  assert (Hk : JSSet.has (legitAccounts (computeStats g) transactions) k = true).
  { apply JSSetFacts.has_In. unfold legitAccounts.
    apply JSSetFacts.ofList_In, in_app_iff. exact Hlegit. }
  assert (Hnone : forall r, In r (fraud_rings res) -> ~ In k (member_accounts r)).
  { intros r Hr Hin. rewrite (analyzeGraph_rings _ _ _ Hres') in Hr.
    destruct (buildRings_recorded
                (legitAccounts (computeStats g) transactions)
                (findCycles (adjList g) (allNodes g) 3 5)
                (detectSmurfing transactions (computeStats g))
                (detectShellNetworks (adjList g) (computeStats g) (allNodes g)))
      as (_ & _ & Hrec).
    rewrite (Hrec r k Hr Hin) in Hk. discriminate Hk. }
  assert (Hacc : ~ In k (List.map account_id (suspicious_accounts res))).
  { intros Hin.
    apply (Permutation_in _ (Permutation_sym (suspicious_account_ids _ _ Hres)))
      in Hin.
    apply ringMembers_In in Hin. destruct Hin as (r & Hr & Hm).
    exact (Hnone r Hr Hm). }
  split; [exact Hacc|]. intros n Hn Hid.
  destruct (graph_node_rings _ _ _ Hres Hn) as [Hflag Hids].
  destruct (graph_node_inv _ _ _ Hres Hn) as (g' & s & _ & Heq).
  rewrite Hid in *. split; [|split].
  - destruct (suspicious n); [|reflexivity].
    destruct (proj1 Hflag eq_refl) as (r & Hr & Hm). now apply Hnone in Hm.
  - rewrite Heq. cbn [node_suspicion_score].
    now rewrite find_by_key_None.
  - rewrite Hids. now apply ringIdsOf_none.
Qed.

Lemma legit_accounts_are_never_flagged_witness :
  buildAdjacency emptyGraph payrollCycleBatch = Some (graphOf payrollCycleBatch)
  /\ analyzeTransactions payrollCycleBatch = Some (resultOf payrollCycleBatch)
  /\ In "A" (detectPayroll (computeStats (graphOf payrollCycleBatch))
               payrollCycleBatch)
  /\ ~ In "A" (List.map account_id
                 (suspicious_accounts (resultOf payrollCycleBatch))).
Proof.
  assert (Hg : buildAdjacency emptyGraph payrollCycleBatch
               = Some (graphOf payrollCycleBatch))
    by (vm_compute; reflexivity).
  assert (Hres : analyzeTransactions payrollCycleBatch
                 = Some (resultOf payrollCycleBatch))
    by (vm_compute; reflexivity).
  assert (Hp : In "A" (detectPayroll (computeStats (graphOf payrollCycleBatch))
                         payrollCycleBatch))
    by (vm_compute; left; reflexivity).
  split; [exact Hg|]. split; [exact Hres|]. split; [exact Hp|].
  exact (proj1 (legit_accounts_are_never_flagged payrollCycleBatch _ _ "A"
                  Hg Hres (or_intror Hp))).
Defined.

(** ** The velocity test *)

Lemma sorted_hd_least l :
  Sorted.StronglySorted Z.le l -> forall x, In x l -> hd 0 l <= x.
Proof.
  intros Hs x Hx. destruct l as [|y l]; [destruct Hx|].
  inversion Hs as [|? ? _ Hall]; subst. cbn [hd].
  destruct Hx as [<-|Hx]; [lia|].
  rewrite List.Forall_forall in Hall. now apply Hall.
Qed.

Lemma sorted_last_greatest l :
  Sorted.StronglySorted Z.le l -> forall x, In x l -> x <= List.last l 0.
Proof.
  induction 1 as [|y l Hs IH Hall]; intros x Hx; [destruct Hx|].
  destruct l as [|z l]; [destruct Hx as [<-|[]]; simpl; lia|].
  change (List.last (y :: z :: l) 0) with (List.last (z :: l) 0).
  destruct Hx as [<-|Hx]; [|now apply IH].
  rewrite List.Forall_forall in Hall.
  specialize (Hall z (or_introl eq_refl)).
  specialize (IH z (or_introl eq_refl)). lia.
Qed.

(** The test of lines 100 to 103 succeeds exactly when more than 5
    transfers touch the account and they all lie less than 24 hours
    apart. *)
Lemma highVelocity_iff transactions k :
  highVelocity transactions k = true <->
  (5 < length (touching transactions k))%nat
  /\ forall t1 t2, In t1 (touching transactions k) ->
       In t2 (touching transactions k) ->
       timestamp t2 - timestamp t1 < 24 * 3600000.
Proof.
  split; [|intros [Hmany Hspan]; now apply highVelocity_true].
  unfold highVelocity.
  destruct (1 <? length (touching transactions k))%nat; [|discriminate].
  set (sorted := sortBy byNumber (List.map timestamp (touching transactions k))).
  intros H. apply andb_true_iff in H. destruct H as [Hspan Hmany].
  apply Nat.ltb_lt in Hmany. split; [exact Hmany|].
  intros t1 t2 Ht1 Ht2.
  assert (Hs : Sorted.StronglySorted Z.le sorted).
  { eapply StronglySorted_weaken; [|apply (sortBy_sorted byNumber)];
      unfold byNumber; intros; lia. }
  assert (Hin : forall t, In t (touching transactions k) ->
                          In (timestamp t) sorted).
  { intros t Ht. unfold sorted. apply sortBy_In. now apply in_map. }
  pose proof (sorted_hd_least sorted Hs _ (Hin t1 Ht1)) as Hlo.
  pose proof (sorted_last_greatest sorted Hs _ (Hin t2 Ht2)) as Hhi.
  unfold Qltb, hoursOf, Qle_bool in Hspan. simpl in Hspan.
  apply negb_true_iff, Z.leb_gt in Hspan. lia.
Qed.

(** X19. A suspicious account carries the tag [high_velocity] exactly when
    more than 5 transfers of the batch touch the account and any two of
    them are less than 24 hours apart. *)
Theorem velocity_tag_iff transactions res sa :
  analyzeTransactions transactions = Some res ->
  In sa (suspicious_accounts res) ->
  In "high_velocity" (detected_patterns sa) <->
  (5 < length (touching transactions (account_id sa)))%nat
  /\ forall t1 t2, In t1 (touching transactions (account_id sa)) ->
       In t2 (touching transactions (account_id sa)) ->
       timestamp t2 - timestamp t1 < 24 * 3600000.
Proof.
  intros Hres Hsa.
  destruct (suspicious_account_inv _ _ _ Hres Hsa)
    as (st & _ & Hpat & _ & Heq).
  destruct Hpat as (_ & Htags & _).
  rewrite <- highVelocity_iff, <- JSSetFacts.has_In.
  rewrite Heq at 1. rewrite has_velocity; [reflexivity|].
  intros tag Hin. apply (Htags _ _ Hin).
Qed.

Lemma velocity_tag_iff_witness :
  analyzeTransactions fastBatch = Some (resultOf fastBatch)
  /\ In "high_velocity"
       (detected_patterns
          (mkSuspiciousAccount "A" 50 ["cycle_length_3"; "high_velocity"]
             (Some "RING_001"))).
Proof.
  assert (Hres : analyzeTransactions fastBatch = Some (resultOf fastBatch))
    by (vm_compute; reflexivity).
  split; [exact Hres|].
  assert (Hsa : In (mkSuspiciousAccount "A" 50
                      ["cycle_length_3"; "high_velocity"] (Some "RING_001"))
                  (suspicious_accounts (resultOf fastBatch)))
    by (vm_compute; left; reflexivity).
  apply (proj2 (velocity_tag_iff fastBatch _ _ Hres Hsa)).
  split; [vm_compute; lia|].
  apply pairwise_span. vm_compute. reflexivity.
Defined.

(** ** Failure of the analysis; the upload *)

Lemma forallb_false {A} (f : A -> bool) l :
  forallb f l = false -> exists x, In x l /\ f x = false.
Proof.
  induction l as [|y l IH]; simpl; [discriminate|].
  destruct (f y) eqn:E; simpl; [|eauto].
  intros H. destruct (IH H) as (x & Hx & Hf). eauto.
Qed.

Lemma inherited_In k : inherited k = true <-> In k inheritedKeys.
Proof.
  unfold inherited. rewrite existsb_exists. split.
  - intros (x & Hx & Hk). apply String.eqb_eq in Hk. now subst.
  - intros Hk. exists k. split; [exact Hk | apply String.eqb_refl].
Qed.

(** X20. The analysis fails (with a [TypeError]) exactly when the sender
    or the receiver of some transfer of the batch is one of the names that
    the adjacency objects inherit from [Object.prototype]; on every other
    batch it returns a result. *)
Theorem analysis_fails_on_inherited_names transactions :
  analyzeTransactions transactions = None <->
  exists t, In t transactions
            /\ (In (sender_id t) inheritedKeys \/ In (receiver_id t) inheritedKeys).
Proof.
  pose proof (analyzeTransactions_returns transactions) as Hret.
  rewrite List.Forall_forall in Hret.
  split.
  - intros Hnone.
    destruct (forallb (fun t => negb (inherited (sender_id t))
                                && negb (inherited (receiver_id t)))
                transactions) eqn:E.
    + rewrite forallb_forall in E.
      destruct (proj2 Hret) as [res Hres]; [|congruence].
      intros t Ht. specialize (E t Ht). apply andb_true_iff in E.
      rewrite !negb_true_iff in E. exact E.
    + apply forallb_false in E. destruct E as (t & Ht & Hbad).
      exists t. split; [exact Ht|]. rewrite <- !inherited_In.
      apply andb_false_iff in Hbad. rewrite !negb_false_iff in Hbad. exact Hbad.
  - intros (t & Ht & Hbad).
    destruct (analyzeTransactions transactions) as [res|] eqn:E; [|reflexivity].
    exfalso. destruct (proj1 Hret (ex_intro _ res eq_refl) t Ht) as [Hs Hr].
    rewrite <- !inherited_In in Hbad. destruct Hbad; congruence.
Qed.

(** X21. After an upload the page shows a result exactly when the parsed
    batch is not empty and no account id is a name inherited from
    [Object.prototype].  An empty batch never reaches the engine: the page
    reports that no valid transactions were found and keeps no result.  In
    every case the processing flag is off and no ring is selected at the
    end. *)
Theorem upload_shows_a_result_iff transactions before :
  let '(after, toast) := handleUpload transactions before in
  (page_result after = analyzeTransactions transactions \/ transactions = [])
  /\ ((exists res, page_result after = Some res) <->
      transactions <> []
      /\ Forall (fun t => ~ In (sender_id t) inheritedKeys
                          /\ ~ In (receiver_id t) inheritedKeys) transactions)
  /\ (transactions = [] ->
      page_result after = None /\ toast = ErrorToast NoValidTransactions)
  /\ (toast = AnalysisComplete (length transactions) <->
      exists res, page_result after = Some res)
  /\ isProcessing after = false /\ selectedRingId after = None.
Proof.
  unfold handleUpload. cbv zeta. cbn [page_result selectedRingId].
  assert (Hclean : Forall (fun t => ~ In (sender_id t) inheritedKeys
                                    /\ ~ In (receiver_id t) inheritedKeys)
                     transactions
                   <-> exists res, analyzeTransactions transactions = Some res).
  { rewrite analyzeTransactions_returns, !List.Forall_forall.
    split; intros H t Ht; specialize (H t Ht);
      rewrite <- !inherited_In in *;
      destruct (inherited (sender_id t)), (inherited (receiver_id t));
      intuition congruence. }
  destruct transactions as [|t l]; cbn [length Nat.eqb].
  - cbn [page_result isProcessing selectedRingId].
    split; [now right|]. split.
    { split; [intros (res & Hres); discriminate Hres | intros [Hne _]; congruence]. }
    split; [auto|]. split; [|auto].
    split; [discriminate | intros (res & Hres); discriminate Hres].
  - destruct (analyzeTransactions (t :: l)) as [res|] eqn:E;
      cbn [page_result isProcessing selectedRingId].
    + split; [now left|]. split.
      { split; [|eauto]. intros _. split; [discriminate|].
        apply Hclean. eauto. }
      split; [discriminate|]. split; [|auto]. split; eauto.
    + split; [now left|]. split.
      { split; [intros (res & Hres); discriminate Hres|].
        intros [_ Hall]. apply Hclean in Hall.
        destruct Hall as [res Hres]. discriminate Hres. }
      split; [discriminate|]. split; [|auto].
      split; [discriminate | intros (res & Hres); discriminate Hres].
Qed.

(** ** The graph view: aggregated edges *)

Lemma get_None_keys {V} (m : JSMap.t V) k :
  JSMap.get m k = None -> ~ In k (List.map fst m).
Proof.
  intros Hget Hin. apply in_map_iff in Hin. destruct Hin as ([k' v] & Hk & Hin).
  simpl in Hk. subst k'. exact (GroupFacts.get_None m k v Hget Hin).
Qed.

Lemma count_le_sum (m : JSMap.t AggregatedEdge) kv :
  In kv m ->
  (count (snd kv) <= list_sum (List.map (fun kv => count (snd kv)) m))%nat.
Proof.
  induction m as [|x m IH]; [intros []|].
  cbn [List.map list_sum fold_right].
  change (fold_right Nat.add 0%nat ?l) with (list_sum l).
  intros [->|Hin]; [lia|]. specialize (IH Hin). lia.
Qed.

Lemma counts_set (m : JSMap.t AggregatedEdge) k v :
  list_sum (List.map (fun kv => count (snd kv)) (JSMap.set m k v))
  = match JSMap.get m k with
    | Some old =>
        (list_sum (List.map (fun kv => count (snd kv)) m) - count old + count v)%nat
    | None => (list_sum (List.map (fun kv => count (snd kv)) m) + count v)%nat
    end.
Proof.
  unfold JSMap.get. induction m as [|[k' v'] m IH]; [simpl; lia|].
  cbn [JSMap.set List.find fst snd].
  destruct (String.eqb k k'); cbn [List.map list_sum fold_right fst snd];
    [lia|].
  change (fold_right Nat.add 0%nat ?l) with (list_sum l).
  rewrite IH. destruct (List.find _ m) as [kv|] eqn:E; [|lia].
  assert (Hle : (count (snd kv)
                 <= list_sum (List.map (fun kv => count (snd kv)) m))%nat);
    [|lia].
  apply count_le_sum. now apply find_some in E.
Qed.

Lemma edgesUnder_snoc key done e :
  edgesUnder key (done ++ [e])
  = edgesUnder key done ++ (if String.eqb (edgeKey e) key then [e] else []).
Proof. unfold edgesUnder. now rewrite List.filter_app. Qed.

(** What the map of lines 38 to 44 holds after the edges [done]. *)
Lemma aggregateEdge_inv l : forall done m,
  (List.map fst m = JSSet.ofList (List.map edgeKey done)
   /\ list_sum (List.map (fun kv => count (snd kv)) m) = length done
   /\ forall key a, In (key, a) m ->
        exists e0 rest,
          edgesUnder key done = e0 :: rest
          /\ agg_source a = source e0 /\ agg_target a = edge_target e0
          /\ count a = S (length rest)
          /\ totalAmount a
             = fold_left (fun s e => (s + edge_amount e)%float) rest
                 (edge_amount e0)) ->
  let m' := fold_left aggregateEdge l m in
  List.map fst m' = JSSet.ofList (List.map edgeKey (done ++ l))
  /\ list_sum (List.map (fun kv => count (snd kv)) m') = length (done ++ l)
  /\ forall key a, In (key, a) m' ->
       exists e0 rest,
         edgesUnder key (done ++ l) = e0 :: rest
         /\ agg_source a = source e0 /\ agg_target a = edge_target e0
         /\ count a = S (length rest)
         /\ totalAmount a
            = fold_left (fun s e => (s + edge_amount e)%float) rest
                (edge_amount e0).
Proof.
  induction l as [|e l IH]; intros done m Hinv; cbn [fold_left].
  { rewrite app_nil_r. exact Hinv. }
  replace (done ++ e :: l) with ((done ++ [e]) ++ l)
    by (now rewrite <- app_assoc).
  apply IH. clear IH. destruct Hinv as (Hkeys & Hsum & Hent).
  assert (Hnd : List.NoDup (List.map fst m))
    by (rewrite Hkeys; apply JSSetFacts.ofList_NoDup).
  unfold aggregateEdge. cbv zeta. set (key := edgeKey e).
  assert (Hkeys' : forall v,
            List.map fst (JSMap.set m key v)
            = JSSet.ofList (List.map edgeKey (done ++ [e]))).
  { intros v. rewrite set_keys_add, Hkeys, map_app, ofList_app. reflexivity. }
  assert (Hother : forall k a, k <> key -> In (k, a) m ->
            exists e0 rest,
              edgesUnder k (done ++ [e]) = e0 :: rest
              /\ agg_source a = source e0 /\ agg_target a = edge_target e0
              /\ count a = S (length rest)
              /\ totalAmount a
                 = fold_left (fun s e => (s + edge_amount e)%float) rest
                     (edge_amount e0)).
  { intros k a Hne Hin. destruct (Hent k a Hin) as (e0 & rest & Hu & Hrest).
    exists e0, rest. split; [|exact Hrest].
    rewrite edgesUnder_snoc, Hu. fold key.
    replace (String.eqb key k) with false
      by (symmetry; apply String.eqb_neq; congruence).
    now rewrite app_nil_r. }
  destruct (JSMap.get m key) as [existing|] eqn:Eget.
  - split; [apply Hkeys'|]. split.
    + rewrite counts_set, Eget, Hsum, length_app. cbn [count length].
      apply GroupFacts.get_In in Eget.
      destruct (Hent key existing Eget) as (e0 & rest & _ & _ & _ & Hc & _).
      pose proof (count_le_sum m (key, existing) Eget) as Hle.
      cbn [snd] in Hle. lia.
    + intros k a Hin. apply GroupFacts.set_In in Hin; [|exact Hnd].
      destruct Hin as [[-> ->]|[Hne Hin]]; [|now apply Hother].
      apply GroupFacts.get_In in Eget.
      destruct (Hent key existing Eget) as (e0 & rest & Hu & Hs & Ht & Hc & Hsum').
      exists e0, (rest ++ [e]). rewrite edgesUnder_snoc, Hu.
      unfold key at 1. rewrite String.eqb_refl.
      cbn [agg_source agg_target count totalAmount].
      repeat split; auto.
      * rewrite length_app. simpl. lia.
      * rewrite fold_left_app. simpl. now rewrite Hsum'.
  - split; [apply Hkeys'|]. split.
    + rewrite counts_set, Eget, Hsum, length_app. simpl. lia.
    + intros k a Hin. apply GroupFacts.set_In in Hin; [|exact Hnd].
      destruct Hin as [[-> ->]|[Hne Hin]]; [|now apply Hother].
      exists e, []. rewrite edgesUnder_snoc.
      unfold key at 2. rewrite String.eqb_refl.
      replace (edgesUnder key done) with (@nil GraphEdge); [auto|].
      symmetry. apply filter_none. intros x Hx. apply String.eqb_neq.
      intros Hk. apply get_None_keys in Eget. apply Eget.
      rewrite Hkeys. apply JSSetFacts.ofList_In. rewrite <- Hk.
      now apply in_map.
Qed.

(** X22. The graph view draws one link for every distinct key
    [source->target] of the edges, in order of first occurrence.  A link
    carries the source and the target of the first edge with its key, the
    number of the edges with that key and the sum of their amounts, added
    in order; the counts of all links add up to the number of edges. *)
Theorem links_aggregate_the_edges edges :
  length (aggEdges edges) = countDistinct (List.map edgeKey edges)
  /\ list_sum (List.map count (aggEdges edges)) = length edges
  /\ Forall
       (fun a =>
          exists e0 rest,
            In e0 edges /\ edgesUnder (edgeKey e0) edges = e0 :: rest
            /\ agg_source a = source e0 /\ agg_target a = edge_target e0
            /\ count a = S (length rest)
            /\ totalAmount a
               = fold_left (fun s e => (s + edge_amount e)%float) rest
                   (edge_amount e0))
       (aggEdges edges).
Proof.
  destruct (aggregateEdge_inv edges [] []) as (Hkeys & Hsum & Hent).
  { split; [reflexivity|]. split; [reflexivity | intros key a []]. }
  cbn [app] in *. fold (edgeMapOf edges) in *. unfold aggEdges.
  split; [|split].
  - unfold countDistinct, JSSet.size. rewrite <- Hkeys. now rewrite !length_map.
  - rewrite map_map. exact Hsum.
  - apply List.Forall_forall. intros a Ha. apply in_map_iff in Ha.
    destruct Ha as ([key a'] & Heq & Hin). simpl in Heq. subst a'.
    destruct (Hent key a Hin) as (e0 & rest & Hu & Hrest).
    assert (He0 : In e0 (edgesUnder key edges)) by (rewrite Hu; now left).
    unfold edgesUnder in He0. apply filter_In in He0. destruct He0 as [He0 Hk].
    apply String.eqb_eq in Hk. exists e0, rest. rewrite Hk. auto.
Qed.

(** ** The graph view: ring colours *)

Lemma ringColor_fold rings : forall i0 m k,
  ~ In k (List.map ring_id rings) ->
  JSMap.get (snd (fold_left ringColorStep rings (i0, m))) k = JSMap.get m k.
Proof.
  induction rings as [|r rings IH]; intros i0 m k Hk; [reflexivity|].
  cbn [fold_left ringColorStep]. rewrite IH by (intros H; apply Hk; now right).
  apply JSMapFacts.get_set_other. intros ->. apply Hk. now left.
Qed.

(** With distinct ring ids, the ring at index [i] gets the colour at index
    [i mod 10] of the palette. *)
Lemma ringColor_at rings : forall i0 m i r,
  List.NoDup (List.map ring_id rings) ->
  nth_error rings i = Some r ->
  JSMap.get (snd (fold_left ringColorStep rings (i0, m))) (ring_id r)
  = Some (nth ((i0 + i) mod length RING_COLORS) RING_COLORS EmptyString).
Proof.
  induction rings as [|r0 rings IH]; intros i0 m i r Hnd Hi;
    [destruct i; discriminate|].
  inversion Hnd as [|? ? Hr0 Hrest]; subst. cbn [fold_left ringColorStep].
  destruct i as [|i]; simpl in Hi.
  - injection Hi as <-. rewrite ringColor_fold by exact Hr0.
    rewrite JSMapFacts.get_set_same. now rewrite Nat.add_0_r.
  - rewrite (IH (S i0) _ i r Hrest Hi). do 3 f_equal. lia.
Qed.

Lemma ringColorMap_at rings i r :
  List.NoDup (List.map ring_id rings) ->
  nth_error rings i = Some r ->
  JSMap.get (ringColorMap rings) (ring_id r)
  = Some (nth (i mod length RING_COLORS) RING_COLORS EmptyString).
Proof.
  intros Hnd Hi. exact (ringColor_at rings O [] i r Hnd Hi).
Qed.

Lemma firstRingOf_index rings k r :
  firstRingOf rings k = Some r ->
  exists i, nth_error rings i = Some r /\ In k (member_accounts r)
            /\ forall j r', nth_error rings j = Some r' ->
                 In k (member_accounts r') -> (i <= j)%nat.
Proof.
  unfold firstRingOf. induction rings as [|r0 rings IH]; [discriminate|].
  simpl. destruct (JSSet.has (member_accounts r0) k) eqn:E.
  - intros [= <-]. exists O. split; [reflexivity|].
    split; [now apply JSSetFacts.has_In|]. intros; lia.
  - intros Hfind. destruct (IH Hfind) as (i & Hi & Hk & Hmin).
    exists (S i). split; [exact Hi|]. split; [exact Hk|].
    intros [|j] r' Hj Hr'; simpl in Hj.
    + injection Hj as <-. apply JSSetFacts.has_false in E. contradiction.
    + specialize (Hmin j r' Hj Hr'). lia.
Qed.

Lemma palette_nonempty i :
  String.eqb (nth (i mod length RING_COLORS) RING_COLORS EmptyString) EmptyString
  = false.
Proof.
  assert (Hlt : (i mod length RING_COLORS < 10)%nat)
    by (apply Nat.mod_upper_bound; discriminate).
  destruct (i mod length RING_COLORS)%nat as [|[|[|[|[|[|[|[|[|[|n]]]]]]]]]];
    try reflexivity. lia.
Qed.

(** X23. In the graph view, a flagged node of the result is outlined in
    the colour of the first ring that lists its account: the colour at
    index [i mod 10] of the palette, for the ring at index [i] of the
    rings. *)
Theorem flagged_nodes_take_the_colour_of_their_first_ring transactions res n :
  analyzeTransactions transactions = Some res ->
  In n (nodes (graph res)) -> suspicious n = true ->
  exists i r,
    nth_error (fraud_rings res) i = Some r
    /\ In (id n) (member_accounts r)
    /\ (forall j r', nth_error (fraud_rings res) j = Some r' ->
          In (id n) (member_accounts r') -> (i <= j)%nat)
    /\ strokeOf (ringColorMap (fraud_rings res)) n
       = nth (i mod 10) RING_COLORS EmptyString.
Proof.
  intros Hres Hn Hflag.
  destruct (graph_node_rings _ _ _ Hres Hn) as [Hiff Hids].
  destruct (proj1 Hiff Hflag) as (r0 & Hr0 & Hm0).
  destruct (firstRingOf (fraud_rings res) (id n)) as [r|] eqn:Efirst.
  2:{ unfold firstRingOf in Efirst. apply (find_none _ _ Efirst) in Hr0.
      apply JSSetFacts.has_false in Hr0. contradiction. }
  destruct (firstRingOf_index _ _ _ Efirst) as (i & Hi & Hk & Hmin).
  exists i, r. split; [exact Hi|]. split; [exact Hk|]. split; [exact Hmin|].
  pose proof (head_ringIdsOf (fraud_rings res) (id n)) as Hhead.
  rewrite Efirst, <- Hids in Hhead. unfold strokeOf.
  destruct (ring_ids n) as [|first rest]; [discriminate|].
  injection Hhead as ->.
  assert (Hnd : List.NoDup (List.map ring_id (fraud_rings res))).
  { destruct (analyzeTransactions_inv _ _ Hres) as (g & Hg & Hres').
    rewrite (analyzeGraph_rings _ _ _ Hres').
    destruct (buildRings_counter
                (legitAccounts (computeStats g) transactions)
                (findCycles (adjList g) (allNodes g) 3 5)
                (detectSmurfing transactions (computeStats g))
                (detectShellNetworks (adjList g) (computeStats g) (allNodes g)))
      as [_ ->].
    apply Finite.Injective_map_NoDup; [|apply seq_NoDup].
    intros a b. apply ringIdOf_inj. }
  rewrite (ringColorMap_at _ i r Hnd Hi). now rewrite palette_nonempty.
Qed.

Lemma flagged_nodes_take_the_colour_of_their_first_ring_witness :
  analyzeTransactions cycleBatch = Some (resultOf cycleBatch)
  /\ Forall (fun n => strokeOf (ringColorMap (fraud_rings (resultOf cycleBatch))) n
                      = "#ff6b6b")
       (nodes (graph (resultOf cycleBatch))).
Proof.
  assert (Hres : analyzeTransactions cycleBatch = Some (resultOf cycleBatch))
    by (vm_compute; reflexivity).
  split; [exact Hres|]. apply List.Forall_forall. intros n Hn.
  assert (Hflag : suspicious n = true).
  { vm_compute in Hn. destruct Hn as [<-|[<-|[<-|[]]]]; reflexivity. }
  destruct (flagged_nodes_take_the_colour_of_their_first_ring
              cycleBatch _ n Hres Hn Hflag) as (i & r & Hi & _ & _ & ->).
  assert (Hone : length (fraud_rings (resultOf cycleBatch)) = 1%nat)
    by (vm_compute; reflexivity).
  assert (Hlt : (i < length (fraud_rings (resultOf cycleBatch)))%nat)
    by (apply nth_error_Some; congruence).
  rewrite Hone in Hlt. replace i with O by lia. reflexivity.
Defined.

(** ** The tables of the page *)

Lemma ring_scores transactions res :
  analyzeTransactions transactions = Some res ->
  Forall
    (fun r =>
       (2 <= length (member_accounts r))%nat
       /\ ((pattern_type r = "cycle" /\ 88 <= risk_score r <= 100)
           \/ ((pattern_type r = "fan_in" \/ pattern_type r = "fan_out")
               /\ 69 <= risk_score r <= 100)
           \/ (pattern_type r = "shell_network" /\ 74 <= risk_score r <= 100)))
    (fraud_rings res).
Proof.
  intros Hres.
  destruct (analyzeTransactions_inv _ _ Hres) as (g & Hg & Hres').
  rewrite (analyzeGraph_rings _ _ _ Hres').
  apply buildRings_rings.
  - intros st cycle Hin Hst. apply addRing_Forall; [|exact Hst].
    intros rid Hlen. cbn [member_accounts pattern_type risk_score].
    split; [exact Hlen|]. left. split; [reflexivity|].
    pose proof (findCycles_bounded (adjList g) (allNodes g) 3 5) as Hb.
    rewrite List.Forall_forall in Hb. destruct (Hb cycle Hin) as [Hc _].
    unfold cycleBase. lia.
  - intros st p Hin Hst. apply addRing_Forall; [|exact Hst].
    intros rid Hlen. cbn [member_accounts pattern_type risk_score].
    split; [exact Hlen|]. right; left. split; [|lia].
    pose proof (detectSmurfing_types transactions (computeStats g)) as Ht.
    rewrite List.Forall_forall in Ht. now apply Ht.
  - intros st chain Hin Hst. apply addRing_Forall; [|exact Hst].
    intros rid Hlen. cbn [member_accounts pattern_type risk_score].
    split; [exact Hlen|]. right; right. split; [reflexivity | lia].
Qed.

(** X24. Every ring of the result has a risk score between 69 and 100: at
    least 88 for a cycle and at least 74 for a shell network.  In the table
    of the rings its pattern type is shown by one of the four labels of
    [patternLabel], and its score in the warning or the suspicious colour:
    the suspicious colour for every cycle. *)
Theorem ring_rows_of_the_table transactions res r :
  analyzeTransactions transactions = Some res ->
  In r (fraud_rings res) ->
  (exists label, In (pattern_type r, label) patternLabel
                 /\ labelOf (pattern_type r) = Some label)
  /\ 69 <= risk_score r <= 100
  /\ (pattern_type r = "shell_network" -> 74 <= risk_score r)
  /\ (pattern_type r = "cycle" ->
      88 <= risk_score r /\ riskClass (risk_score r) = "text-suspicious")
  /\ (riskClass (risk_score r) = "text-warning"
      \/ riskClass (risk_score r) = "text-suspicious").
Proof.
  intros Hres Hr. pose proof (ring_scores _ _ Hres) as Hall.
  rewrite List.Forall_forall in Hall. destruct (Hall r Hr) as [_ Hkind].
  assert (Hclass : 69 <= risk_score r ->
            riskClass (risk_score r) = "text-warning"
            \/ riskClass (risk_score r) = "text-suspicious").
  { intros Hlow. unfold riskClass.
    destruct (80 <=? risk_score r); [now right|].
    replace (60 <=? risk_score r) with true
      by (symmetry; apply Z.leb_le; lia). now left. }
  assert (Hhigh : 80 <= risk_score r ->
            riskClass (risk_score r) = "text-suspicious").
  { intros Hlow. unfold riskClass.
    now replace (80 <=? risk_score r) with true
      by (symmetry; apply Z.leb_le; lia). }
  assert (Hrange : 69 <= risk_score r <= 100)
    by (destruct Hkind as [[_ Hs]|[[_ Hs]|[_ Hs]]]; lia).
  split.
  { destruct Hkind as [[Ht _]|[[[Ht|Ht] _]|[Ht _]]]; rewrite Ht;
      (eexists; split; [|reflexivity]); simpl; tauto. }
  split; [exact Hrange|]. split.
  { intros Ht.
    destruct Hkind as [[Ht' _]|[[[Ht'|Ht'] _]|[_ Hs]]]; [congruence..|lia]. }
  split; [|apply Hclass; lia].
  intros Ht.
  destruct Hkind as [[_ Hs]|[[[Ht'|Ht'] _]|[Ht' _]]]; [|congruence..].
  split; [lia | apply Hhigh; lia].
Qed.

Lemma ring_rows_of_the_table_witness :
  analyzeTransactions cycleBatch = Some (resultOf cycleBatch)
  /\ labelOf "cycle" = Some "Circular Routing"
  /\ riskClass 90 = "text-suspicious".
Proof.
  assert (Hres : analyzeTransactions cycleBatch = Some (resultOf cycleBatch))
    by (vm_compute; reflexivity).
  assert (Hr : In (mkFraudRing "RING_001" ["A"; "B"; "C"] "cycle" 90)
                 (fraud_rings (resultOf cycleBatch)))
    by (vm_compute; left; reflexivity).
  destruct (ring_rows_of_the_table cycleBatch _ _ Hres Hr)
    as (_ & _ & _ & Hcycle & _).
  split; [exact Hres|]. split; [reflexivity|].
  exact (proj2 (Hcycle eq_refl)).
Defined.

Lemma StronglySorted_app_le {A} (R : A -> A -> Prop) l1 l2 :
  Sorted.StronglySorted R (l1 ++ l2) ->
  forall a b, In a l1 -> In b l2 -> R a b.
Proof.
  induction l1 as [|x l1 IH]; intros Hs a b Ha Hb; [destruct Ha|].
  simpl in Hs. inversion Hs as [|? ? Hrest Hall]; subst.
  destruct Ha as [<-|Ha]; [|now apply IH].
  rewrite List.Forall_forall in Hall. apply Hall, in_app_iff. now right.
Qed.

(** X25. The table of the top suspicious accounts lists the first 20
    accounts of the result, or all of them when they are fewer: no
    account twice, and no account left out has a higher score than a listed
    one.  The table is shown exactly when the result has a fraud ring. *)
Theorem top_accounts_of_the_table transactions res :
  analyzeTransactions transactions = Some res ->
  length (topAccounts res) = Nat.min 20 (length (suspicious_accounts res))
  /\ List.NoDup (List.map account_id (topAccounts res))
  /\ (forall a b, In a (topAccounts res) ->
        In b (skipn 20 (suspicious_accounts res)) ->
        suspicion_score b <= suspicion_score a)
  /\ (showsTopAccounts res = true <-> fraud_rings res <> []).
Proof.
  intros Hres. unfold topAccounts, showsTopAccounts.
  pose proof (suspicious_account_ids _ _ Hres) as Hperm.
  split; [apply length_firstn|]. split; [|split].
  - assert (Hnd : List.NoDup (List.map account_id (suspicious_accounts res))).
    { eapply Permutation_NoDup; [exact Hperm | apply JSSetFacts.ofList_NoDup]. }
    rewrite <- (firstn_skipn 20 (suspicious_accounts res)), map_app in Hnd.
    now apply NoDup_app_remove_r in Hnd.
  - destruct (suspicious_accounts_of _ _ Hres) as (st & _ & _ & Hacc).
    intros a b Ha Hb.
    assert (Hs : Sorted.StronglySorted (fun a b => byScoreDesc a b <= 0)
                   (suspicious_accounts res)).
    { rewrite Hacc. apply sortBy_sorted; unfold byScoreDesc; intros; lia. }
    rewrite <- (firstn_skipn 20 (suspicious_accounts res)) in Hs.
    pose proof (StronglySorted_app_le _ _ _ Hs a b Ha Hb) as Hab.
    unfold byScoreDesc in Hab. lia.
  - rewrite Nat.ltb_lt.
    apply Permutation_length in Hperm. rewrite length_map in Hperm.
    rewrite <- Hperm. pose proof (ring_scores _ _ Hres) as Hall.
    split.
    + intros Hpos Hnil. rewrite Hnil in Hpos. simpl in Hpos. lia.
    + intros Hne. destruct (fraud_rings res) as [|r rings] eqn:E; [congruence|].
      inversion Hall as [|? ? [Hlen _] _]; subst.
      destruct (member_accounts r) as [|k l] eqn:Em; [simpl in Hlen; lia|].
      assert (Hk : In k (ringMembers (r :: rings))).
      { apply ringMembers_In. exists r. split; [now left|].
        rewrite Em. now left. }
      destruct (ringMembers (r :: rings)); [destruct Hk | simpl; lia].
Qed.

Lemma top_accounts_of_the_table_witness :
  analyzeTransactions cycleBatch = Some (resultOf cycleBatch)
  /\ length (topAccounts (resultOf cycleBatch)) = 3%nat.
Proof.
  assert (Hres : analyzeTransactions cycleBatch = Some (resultOf cycleBatch))
    by (vm_compute; reflexivity).
  split; [exact Hres|].
  destruct (top_accounts_of_the_table cycleBatch _ Hres) as (-> & _).
  vm_compute. reflexivity.
Defined.

(** ** Ring ids of the graph nodes when no transfer is a self-transfer *)

Lemma fan_hit_accounts_NoDup (key other : Transaction -> string) tag
    transactions init hit :
  (forall t, In t transactions -> key t <> other t) ->
  Forall (fun h => List.NoDup (accounts h)) init ->
  In hit (fold_left (fanStep tag other) (groupBy key transactions) init) ->
  List.NoDup (accounts hit).
Proof.
  intros Hself Hinit Hhit.
  destruct (groupBy_grouped key transactions) as (_ & Hgrp & _).
  apply fanStep_fold_In in Hhit.
  destruct Hhit as [Hhit|(k & l & u & Hin & Hu & ->)].
  { rewrite List.Forall_forall in Hinit. now apply Hinit. }
  rewrite (Hgrp _ _ Hin) in Hu. apply firstWindow_Some in Hu.
  destruct Hu as (anchor & _ & -> & _).
  destruct (uniqueOf_counterparties key other transactions k anchor)
    as [Hnd Hmem].
  cbn [accounts]. constructor; [|exact Hnd].
  intros Hk. apply Hmem in Hk. destruct Hk as (t & Ht & Hkey & Hother & _).
  apply (Hself t Ht). congruence.
Qed.

Lemma hit_accounts_NoDup transactions nodeStats :
  (forall t, In t transactions -> sender_id t <> receiver_id t) ->
  Forall (fun h => List.NoDup (accounts h))
    (detectSmurfing transactions nodeStats).
Proof.
  intros Hself. unfold detectSmurfing. apply List.Forall_forall. intros hit Hhit.
  apply (fan_hit_accounts_NoDup sender_id receiver_id) in Hhit;
    [exact Hhit | exact Hself |].
  apply List.Forall_forall. intros h Hh.
  apply (fan_hit_accounts_NoDup receiver_id sender_id) in Hh; [exact Hh| |constructor].
  intros t Ht Heq. apply (Hself t Ht). now symmetry.
Qed.

Lemma ring_members_NoDup transactions res :
  analyzeTransactions transactions = Some res ->
  (forall t, In t transactions -> sender_id t <> receiver_id t) ->
  Forall (fun r => List.NoDup (member_accounts r)) (fraud_rings res).
Proof.
  intros Hres Hself.
  destruct (analyzeTransactions_inv _ _ Hres) as (g & Hg & Hres').
  rewrite (analyzeGraph_rings _ _ _ Hres').
  apply buildRings_rings.
  - intros st cycle Hin Hst. apply addRing_Forall; [|exact Hst].
    intros rid _. cbn [member_accounts]. apply List.NoDup_filter.
    pose proof (findCycles_bounded (adjList g) (allNodes g) 3 5) as Hb.
    rewrite List.Forall_forall in Hb. apply (Hb cycle Hin).
  - intros st p Hin Hst. apply addRing_Forall; [|exact Hst].
    intros rid _. cbn [member_accounts]. apply List.NoDup_filter.
    pose proof (hit_accounts_NoDup transactions (computeStats g) Hself) as Hh.
    rewrite List.Forall_forall in Hh. now apply Hh.
  - intros st chain Hin Hst. apply addRing_Forall; [|exact Hst].
    intros rid _. cbn [member_accounts]. apply List.NoDup_filter.
    pose proof (detectShellNetworks_paths (adjList g) (computeStats g)
                  (allNodes g)) as Hs.
    rewrite List.Forall_forall in Hs. apply (Hs chain Hin).
Qed.

Lemma ringIdsOf_listed rings k :
  Forall (fun r => List.NoDup (member_accounts r)) rings ->
  ringIdsOf rings k
  = List.map ring_id
      (List.filter (fun r => JSSet.has (member_accounts r) k) rings).
Proof.
  unfold ringIdsOf. induction 1 as [|r rings Hnd _ IH]; [reflexivity|].
  simpl. rewrite IH.
  destruct (JSSet.has (member_accounts r) k) eqn:E.
  - apply JSSetFacts.has_In in E.
    pose proof (proj1 (NoDup_count_occ String.string_dec _) Hnd k) as Hle.
    apply (count_occ_In String.string_dec) in E.
    replace (count_occ String.string_dec (member_accounts r) k) with 1%nat
      by lia.
    reflexivity.
  - apply JSSetFacts.has_false in E.
    now rewrite (proj1 (count_occ_not_In String.string_dec _ _) E).
Qed.

Lemma NoDup_map_filter {A B} (f : A -> B) (p : A -> bool) l :
  List.NoDup (List.map f l) -> List.NoDup (List.map f (List.filter p l)).
Proof.
  induction l as [|x l IH]; simpl; intros Hnd; [constructor|].
  inversion Hnd as [|? ? Hx Hl]; subst.
  destruct (p x); simpl; [|auto]. constructor; [|auto].
  intros Hin. apply Hx. apply in_map_iff in Hin.
  destruct Hin as (y & Hy & Hin). apply filter_In in Hin.
  rewrite <- Hy. apply in_map. tauto.
Qed.

Lemma ring_ids_NoDup transactions res :
  analyzeTransactions transactions = Some res ->
  List.NoDup (List.map ring_id (fraud_rings res)).
Proof.
  intros Hres.
  destruct (analyzeTransactions_inv _ _ Hres) as (g & Hg & Hres').
  rewrite (analyzeGraph_rings _ _ _ Hres').
  destruct (buildRings_counter
              (legitAccounts (computeStats g) transactions)
              (findCycles (adjList g) (allNodes g) 3 5)
              (detectSmurfing transactions (computeStats g))
              (detectShellNetworks (adjList g) (computeStats g) (allNodes g)))
    as [_ ->].
  apply Finite.Injective_map_NoDup; [|apply seq_NoDup].
  intros a b. apply ringIdOf_inj.
Qed.

(** X26. For a batch without a transfer from an account to itself, no ring
    lists an account twice, and the [ring_ids] of a graph node are the ids
    of the rings that list its account, in the order of the rings, each
    once. *)
Theorem ring_ids_without_self_transfers transactions res n :
  analyzeTransactions transactions = Some res ->
  (forall t, In t transactions -> sender_id t <> receiver_id t) ->
  In n (nodes (graph res)) ->
  Forall (fun r => List.NoDup (member_accounts r)) (fraud_rings res)
  /\ ring_ids n
     = List.map ring_id
         (List.filter (fun r => JSSet.has (member_accounts r) (id n))
            (fraud_rings res))
  /\ List.NoDup (ring_ids n).
Proof.
  intros Hres Hself Hn.
  pose proof (ring_members_NoDup _ _ Hres Hself) as Hnd.
  destruct (graph_node_rings _ _ _ Hres Hn) as [_ Hids].
  rewrite Hids, (ringIdsOf_listed _ _ Hnd).
  split; [exact Hnd|]. split; [reflexivity|].
  apply NoDup_map_filter. exact (ring_ids_NoDup transactions res Hres).
Qed.

Lemma ring_ids_without_self_transfers_witness :
  analyzeTransactions cycleBatch = Some (resultOf cycleBatch)
  /\ Forall (fun n => ring_ids n = ["RING_001"])
       (nodes (graph (resultOf cycleBatch))).
Proof.
  assert (Hres : analyzeTransactions cycleBatch = Some (resultOf cycleBatch))
    by (vm_compute; reflexivity).
  split; [exact Hres|]. apply List.Forall_forall. intros n Hn.
  assert (Hself : forall t, In t cycleBatch -> sender_id t <> receiver_id t)
    by (intros t [<-|[<-|[<-|[]]]]; discriminate).
  destruct (ring_ids_without_self_transfers cycleBatch _ n Hres Hself Hn)
    as (_ & -> & _).
  vm_compute in Hn. destruct Hn as [<-|[<-|[<-|[]]]]; reflexivity.
Defined.

(** ** From the detected patterns to the flagged accounts *)

Lemma patternScore_points patterns ids tag :
  In tag patterns -> knownTag tag ->
  pointsFor (kindOf tag) <= patternScore patterns ids.
Proof.
  intros Hin Hknown. unfold patternScore.
  assert (Hnn : forall b : bool, forall z, 0 <= z -> 0 <= (if b then z else 0))
    by (intros [] z; lia).
  pose proof (Hnn (existsb (String.prefix "cycle_") patterns) 35 ltac:(lia)).
  pose proof (Hnn (JSSet.has patterns "fan_in") 25 ltac:(lia)).
  pose proof (Hnn (JSSet.has patterns "fan_out") 25 ltac:(lia)).
  pose proof (Hnn (JSSet.has patterns "shell_network") 20 ltac:(lia)).
  pose proof (Hnn (1 <? length ids)%nat 15 ltac:(lia)).
  destruct Hknown as [Hp|[<-|[<-|[<-|[]]]]].
  - unfold kindOf. rewrite Hp. change (pointsFor "cycle") with 35.
    replace (existsb (String.prefix "cycle_") patterns) with true
      by (symmetry; apply existsb_exists; eauto).
    lia.
  - change (pointsFor (kindOf "fan_in")) with 25.
    apply JSSetFacts.has_In in Hin. rewrite Hin in *. lia.
  - change (pointsFor (kindOf "fan_out")) with 25.
    apply JSSetFacts.has_In in Hin. rewrite Hin in *. lia.
  - change (pointsFor (kindOf "shell_network")) with 20.
    apply JSSetFacts.has_In in Hin. rewrite Hin in *. lia.
Qed.

Lemma pattern_is_flagged transactions g res patternType accts :
  buildAdjacency emptyGraph transactions = Some g ->
  analyzeTransactions transactions = Some res ->
  In (patternType, accts)
     (detectedPatterns
        (findCycles (adjList g) (allNodes g) 3 5)
        (detectSmurfing transactions (computeStats g))
        (detectShellNetworks (adjList g) (computeStats g) (allNodes g))) ->
  (2 <= length (survivors (legitAccounts (computeStats g) transactions) accts))%nat ->
  flaggedRing res patternType
    (survivors (legitAccounts (computeStats g) transactions) accts).
Proof.
  intros Hg Hres Hpattern Htwo.
  set (legit := legitAccounts (computeStats g) transactions) in *.
  set (members := survivors legit accts) in *.
  destruct (analyzeTransactions_inv _ _ Hres) as (g' & Hg' & Hres').
  rewrite Hg in Hg'. injection Hg' as <-.
  assert (Hring : exists r, In r (fraud_rings res)
                            /\ pattern_type r = patternType
                            /\ member_accounts r = members).
  { assert (Hshape : In (patternType, members) (ringShapes (fraud_rings res))).
    { rewrite (analyzeGraph_rings _ _ _ Hres'), buildRings_shape.
      apply filter_In. split; [|now apply Nat.leb_le].
      apply in_map_iff. exists (patternType, accts). auto. }
    unfold ringShapes in Hshape. apply in_map_iff in Hshape.
    destruct Hshape as (r & [= Ht Hm] & Hr). eauto. }
  split; [exact Hring|].
  destruct Hring as (r & Hr & Ht & Hm). intros k Hk.
  assert (Hacc : In k (List.map account_id (suspicious_accounts res))).
  { apply (Permutation_in _ (suspicious_account_ids _ _ Hres)).
    apply ringMembers_In. exists r. split; [exact Hr | now rewrite Hm]. }
  apply in_map_iff in Hacc. destruct Hacc as (sa & Hid & Hsa).
  exists sa. split; [exact Hsa|]. split; [exact Hid|].
  destruct (suspicious_account_inv _ _ _ Hres Hsa)
    as (st & Hrings & Hpat & _ & Heq).
  destruct Hpat as (_ & Htags & Hmem & _ & _).
  rewrite Hrings in Hr. rewrite Hid in *.
  destruct (Hmem r k Hr ltac:(now rewrite Hm)) as (tag & Htag & Hkind).
  rewrite Ht in Hkind.
  pose proof (patternScore_points _ (ringIdsOf (fraud_rings res) k) tag
                Htag (proj1 (Htags k tag Htag))) as Hscore.
  rewrite Hkind in Hscore.
  assert (Hcap : pointsFor patternType <= 100).
  { unfold pointsFor. destruct (String.eqb patternType "cycle"); [lia|].
    destruct (String.eqb patternType "shell_network"); lia. }
  rewrite Heq. cbn [suspicion_score detected_patterns scoreAccount].
  split.
  - destruct (highVelocity transactions k); lia.
  - exists tag. split; [|split; [exact (proj1 (Htags k tag Htag)) | exact Hkind]].
    destruct (highVelocity transactions k); [|exact Htag].
    apply JSSetFacts.add_In. now left.
Qed.

(** X27. Every detected pattern that keeps at least two accounts after the
    legitimate ones are removed is flagged: the result has a ring of its
    pattern type with exactly those accounts, and each of them is a
    suspicious account with a tag of the pattern type and at least the
    points of that tag: 35 for a cycle, 25 for fan_in and fan_out, 20 for a
    shell network. *)
Theorem detected_patterns_are_flagged transactions g res patternType accts :
  buildAdjacency emptyGraph transactions = Some g ->
  analyzeTransactions transactions = Some res ->
  In (patternType, accts)
     (detectedPatterns
        (findCycles (adjList g) (allNodes g) 3 5)
        (detectSmurfing transactions (computeStats g))
        (detectShellNetworks (adjList g) (computeStats g) (allNodes g))) ->
  (2 <= length (survivors (legitAccounts (computeStats g) transactions) accts))%nat ->
  flaggedRing res patternType
    (survivors (legitAccounts (computeStats g) transactions) accts).
Proof. apply pattern_is_flagged. Qed.

Lemma detected_patterns_are_flagged_witness :
  buildAdjacency emptyGraph shellBatch = Some (graphOf shellBatch)
  /\ analyzeTransactions shellBatch = Some (resultOf shellBatch)
  /\ flaggedRing (resultOf shellBatch) "shell_network" ["O"; "S1"; "S2"; "S3"].
Proof.
  assert (Hg : buildAdjacency emptyGraph shellBatch = Some (graphOf shellBatch))
    by (vm_compute; reflexivity).
  assert (Hres : analyzeTransactions shellBatch = Some (resultOf shellBatch))
    by (vm_compute; reflexivity).
  split; [exact Hg|]. split; [exact Hres|].
  refine (detected_patterns_are_flagged shellBatch _ _ "shell_network"
            ["O"; "S1"; "S2"; "S3"] Hg Hres _ _).
  - vm_compute. left. reflexivity.
  - vm_compute. lia.
Defined.

(** X28. No circle of payments escapes: for a batch whose account ids do
    not contain the separator of the cycle keys, every circle of payments
    among 3 to 5 distinct accounts, at least two of which are not
    classified as legitimate, yields a ring of pattern type [cycle] whose
    members are those accounts, listed from the smallest account of the
    circle in the order of [<] (UTF-16 code units), and each of them is a
    suspicious account with a cycle tag and a score of at least 35. *)
Theorem payment_circles_are_flagged transactions g res c :
  buildAdjacency emptyGraph transactions = Some g ->
  analyzeTransactions transactions = Some res ->
  (forall t, In t transactions ->
     hasSeparator (sender_id t) = false /\ hasSeparator (receiver_id t) = false) ->
  List.NoDup c -> (3 <= length c <= 5)%nat ->
  isCircle (pays transactions) c = true ->
  (2 <= length (survivors (legitAccounts (computeStats g) transactions)
                  (normalize c)))%nat ->
  flaggedRing res "cycle"
    (survivors (legitAccounts (computeStats g) transactions) (normalize c)).
Proof.
  intros Hg Hres Hsep Hnd Hlen Hcircle Htwo.
  apply (pattern_is_flagged _ _ _ _ _ Hg Hres); [|exact Htwo].
  unfold detectedPatterns. apply in_app_iff. left.
  apply in_map_iff. exists (normalize c). split; [reflexivity|].
  now apply (findCycles_complete transactions).
Qed.

Lemma payment_circles_are_flagged_witness :
  buildAdjacency emptyGraph wideIdBatch = Some (graphOf wideIdBatch)
  /\ analyzeTransactions wideIdBatch = Some (resultOf wideIdBatch)
  /\ flaggedRing (resultOf wideIdBatch) "cycle" [pairId; wideA; wideB].
Proof.
  assert (Hg : buildAdjacency emptyGraph wideIdBatch = Some (graphOf wideIdBatch))
    by (vm_compute; reflexivity).
  assert (Hres : analyzeTransactions wideIdBatch = Some (resultOf wideIdBatch))
    by (vm_compute; reflexivity).
  split; [exact Hg|]. split; [exact Hres|].
  refine (payment_circles_are_flagged wideIdBatch _ _ [wideB; pairId; wideA]
            Hg Hres _ _ _ _ _).
  - intros t [<-|[<-|[<-|[]]]]; split; reflexivity.
  - repeat constructor; simpl; intuition discriminate.
  - simpl. lia.
  - vm_compute. reflexivity.
  - vm_compute. lia.
Defined.

(** X29. Smurfing is flagged end to end.  An account that receives, within
    72 hours from one of its incoming transfers, from at least 10 distinct
    senders has a fan_in hit that starts with it; when at least two accounts
    of the hit are not classified as legitimate, they form a flagged fan_in
    ring.  The same holds for a sender and the receivers of its transfers,
    with fan_out. *)
Theorem smurfing_hubs_are_flagged transactions g res k :
  buildAdjacency emptyGraph transactions = Some g ->
  analyzeTransactions transactions = Some res ->
  ((exists anchor ss, In anchor transactions /\ receiver_id anchor = k
      /\ windowCounterparties receiver_id sender_id transactions k anchor ss
      /\ (10 <= length ss)%nat) ->
   exists hit, In hit (detectSmurfing transactions (computeStats g))
     /\ type hit = "fan_in" /\ head (accounts hit) = Some k
     /\ ((2 <= length (survivors (legitAccounts (computeStats g) transactions)
                         (accounts hit)))%nat ->
         flaggedRing res "fan_in"
           (survivors (legitAccounts (computeStats g) transactions)
              (accounts hit))))
  /\ ((exists anchor ss, In anchor transactions /\ sender_id anchor = k
         /\ windowCounterparties sender_id receiver_id transactions k anchor ss
         /\ (10 <= length ss)%nat) ->
      exists hit, In hit (detectSmurfing transactions (computeStats g))
        /\ type hit = "fan_out" /\ head (accounts hit) = Some k
        /\ ((2 <= length (survivors (legitAccounts (computeStats g) transactions)
                            (accounts hit)))%nat ->
            flaggedRing res "fan_out"
              (survivors (legitAccounts (computeStats g) transactions)
                 (accounts hit)))).
Proof.
  intros Hg Hres.
  assert (Hflag : forall hit,
            In hit (detectSmurfing transactions (computeStats g)) ->
            (2 <= length (survivors (legitAccounts (computeStats g) transactions)
                            (accounts hit)))%nat ->
            flaggedRing res (type hit)
              (survivors (legitAccounts (computeStats g) transactions)
                 (accounts hit))).
  { intros hit Hhit. apply (pattern_is_flagged _ _ _ _ _ Hg Hres).
    unfold detectedPatterns. apply in_app_iff. right. apply in_app_iff. left.
    apply in_map_iff. eauto. }
  split; intros Hwin.
  - apply (fan_in_hit_iff transactions (computeStats g) k) in Hwin.
    destruct Hwin as (hit & Hhit & Ht & Hh). exists hit.
    split; [exact Hhit|]. split; [exact Ht|]. split; [exact Hh|].
    intros Htwo. rewrite <- Ht. now apply Hflag.
  - apply (fan_out_hit_iff transactions (computeStats g) k) in Hwin.
    destruct Hwin as (hit & Hhit & Ht & Hh). exists hit.
    split; [exact Hhit|]. split; [exact Ht|]. split; [exact Hh|].
    intros Htwo. rewrite <- Ht. now apply Hflag.
Qed.

Lemma smurfing_hubs_are_flagged_witness :
  buildAdjacency emptyGraph (fanInBatch 10) = Some (graphOf (fanInBatch 10))
  /\ analyzeTransactions (fanInBatch 10) = Some (resultOf (fanInBatch 10))
  /\ exists hit,
       In hit (detectSmurfing (fanInBatch 10)
                 (computeStats (graphOf (fanInBatch 10))))
       /\ type hit = "fan_in" /\ head (accounts hit) = Some "R".
Proof.
  assert (Hg : buildAdjacency emptyGraph (fanInBatch 10)
               = Some (graphOf (fanInBatch 10)))
    by (vm_compute; reflexivity).
  assert (Hres : analyzeTransactions (fanInBatch 10)
                 = Some (resultOf (fanInBatch 10)))
    by (vm_compute; reflexivity).
  split; [exact Hg|]. split; [exact Hres|].
  destruct (proj1 (smurfing_hubs_are_flagged (fanInBatch 10) _ _ "R" Hg Hres))
    as (hit & Hhit & Ht & Hh & _).
  - exists (transfer "F1" "S1" "R" 100 hour),
      (uniqueOf sender_id
         (sortBy byTimestamp (keyed receiver_id "R" (fanInBatch 10)))
         (transfer "F1" "S1" "R" 100 hour)).
    split; [vm_compute; left; reflexivity|]. split; [reflexivity|].
    split; [apply uniqueOf_counterparties | vm_compute; lia].
  - exists hit. auto.
Defined.
